(** * Layered configuration resolution of the HTTP server

    Shallow embedding of the two configuration pipelines of the repository:

    - [Strict]: [src/http_protocol/config.c] (defaults, file, environment,
      command line, then the fatal root-directory check);
    - [Simplified]: the second, shorter pipeline (defaults, file, command
      line; no validation, [mode] kept as a string).

    The C library, libconfig and getopt are outside the repository; they are
    modelled here by their documented behaviour on an LP64 Linux host
    ([int] has 32 bits, [unsigned long] has 64). *)

From Stdlib Require Import ZArith Ascii String List Lia DecimalString.
From stdpp Require Import base option list gmap strings.

Local Open Scope Z_scope.

(** ** C integers and characters *)

Module C.

Definition ULONG_MAX : Z := 2 ^ 64 - 1.

(** The conversion [(int) v] of an [unsigned long]: reduction modulo [2^32],
    read as a two's-complement number. *)
Definition int_of_ulong (v : Z) : Z :=
  let r := v mod 2 ^ 32 in
  if r <? 2 ^ 31 then r else r - 2 ^ 32.

Definition code (c : ascii) : Z := Z.of_nat (nat_of_ascii c).

(** [isspace] in the C locale: space, and the controls from tab to carriage return. *)
Definition isspace (c : ascii) : bool :=
  (code c =? 32) || ((9 <=? code c) && (code c <=? 13)).

(** [tolower] in the C locale. *)
Definition tolower (c : ascii) : ascii :=
  if (65 <=? code c) && (code c <=? 90)
  then ascii_of_nat (nat_of_ascii c + 32)
  else c.

(** Value of a character as a digit in some base up to 36. *)
Definition digit_val (c : ascii) : option Z :=
  let n := code c in
  if (48 <=? n) && (n <=? 57) then Some (n - 48)
  else if (97 <=? n) && (n <=? 122) then Some (n - 97 + 10)
  else if (65 <=? n) && (n <=? 90) then Some (n - 65 + 10)
  else None.

Fixpoint skip_space (s : string) : string :=
  match s with
  | String c s' => if isspace c then skip_space s' else s
  | EmptyString => s
  end.

(** The longest prefix of digits below [base], and what follows it. *)
Fixpoint read_digits (base : Z) (s : string) : list Z * string :=
  match s with
  | String c s' =>
      match digit_val c with
      | Some d =>
          if d <? base
          then let '(ds, r) := read_digits base s' in (d :: ds, r)
          else ([], s)
      | None => ([], s)
      end
  | EmptyString => ([], s)
  end.

Definition digits_value (base : Z) (ds : list Z) : Z :=
  fold_left (fun acc d => acc * base + d) ds 0.

Definition read_sign (s : string) : bool * string :=
  match s with
  | String "-" s' => (true, s')
  | String "+" s' => (false, s')
  | _ => (false, s)
  end.

Definition is_hex_digit (c : ascii) : bool :=
  match digit_val c with Some d => d <? 16 | None => false end.

(** Base selection of [strtoul (s, &end, 0)]: [0x]/[0X] before a hexadecimal
    digit selects 16, any other leading [0] selects 8, everything else 10. *)
Definition read_base (s : string) : Z * string :=
  match s with
  | String "0" (String x (String h r)) =>
      if ((x =? "x") || (x =? "X"))%char && is_hex_digit h
      then (16, String h r) else (8, s)
  | String "0" _ => (8, s)
  | _ => (10, s)
  end.

(** [strtoul (s, &end, 0)]: the parsed value and the unparsed rest [end].
    Without any digit nothing is converted: the value is 0 and [end] is [s]
    itself. A value above [ULONG_MAX] saturates; a leading minus negates the
    value as an [unsigned long]. *)
Definition strtoul (s : string) : Z * string :=
  let '(neg, s1) := read_sign (skip_space s) in
  let '(base, s2) := read_base s1 in
  let '(ds, rest) := read_digits base s2 in
  match ds with
  | [] => (0, s)
  | _ =>
      let v := digits_value base ds in
      (if ULONG_MAX <? v then ULONG_MAX
       else if neg then (- v) mod 2 ^ 64 else v,
       rest)
  end.

End C.

(** ** The process: heap, output streams and getopt's variables *)

Inductive stream := Stdout | Stderr.

(** A [char *] of the program: a string literal in static storage or the
    address of a block obtained from [malloc]/[strdup]. *)
Inductive ptr :=
  | Literal (s : string)
  | Block (a : positive).

#[global] Instance ptr_eq_dec : EqDecision ptr.
Proof. solve_decision. Defined.

(** A live heap block: its size in bytes and the string it holds. *)
Record block := { capacity : nat; content : string }.

Record world := {
  heap : gmap positive block;
  out : list (stream * string);
  (** the global [optind], and what getopt keeps between calls: the rest of a
      cluster of short options, and the bounds of the non-options it has
      passed over and not yet moved behind the options *)
  optind : nat;
  nextchar : string;
  first_nonopt : nat;
  last_nonopt : nat;
  (** number of initialised libconfig objects not yet destroyed *)
  parsers : nat;
}.

Definition with_heap (h : gmap positive block) (w : world) : world :=
  {| heap := h; out := out w; optind := optind w; nextchar := nextchar w;
     first_nonopt := first_nonopt w; last_nonopt := last_nonopt w;
     parsers := parsers w |}.
Definition with_out (o : list (stream * string)) (w : world) : world :=
  {| heap := heap w; out := o; optind := optind w; nextchar := nextchar w;
     first_nonopt := first_nonopt w; last_nonopt := last_nonopt w;
     parsers := parsers w |}.
Definition with_scanner (i : nat) (n : string) (w : world) : world :=
  {| heap := heap w; out := out w; optind := i; nextchar := n;
     first_nonopt := first_nonopt w; last_nonopt := last_nonopt w;
     parsers := parsers w |}.
Definition with_nonopts (f l : nat) (w : world) : world :=
  {| heap := heap w; out := out w; optind := optind w; nextchar := nextchar w;
     first_nonopt := f; last_nonopt := l;
     parsers := parsers w |}.
Definition with_parsers (n : nat) (w : world) : world :=
  {| heap := heap w; out := out w; optind := optind w; nextchar := nextchar w;
     first_nonopt := first_nonopt w; last_nonopt := last_nonopt w;
     parsers := n |}.

Inductive fault :=
  | InvalidFree (p : ptr)
  | InvalidRead (p : ptr)
  | NullDereference
  | BufferOverflow (p : ptr)
  (** an array read past its last element *)
  | OutOfBounds
  | Unfinished.

(** What running a piece of the program from a given state leads to: a normal
    return, a call of [exit], or undefined behaviour caught as a fault. *)
Inductive outcome (A : Type) :=
  | Return (a : A) (w : world)
  | Exit (status : Z) (w : world)
  | Fault (f : fault) (w : world).
Arguments Return {A} a w.
Arguments Exit {A} status w.
Arguments Fault {A} f w.

Definition M (A : Type) : Type := world -> outcome A.

#[global] Instance M_ret : MRet M := fun A a w => Return a w.
#[global] Instance M_bind : MBind M := fun A B f m w =>
  match m w with
  | Return a w' => f a w'
  | Exit st w' => Exit st w'
  | Fault e w' => Fault e w'
  end.

Definition exit {A} (status : Z) : M A := fun w => Exit status w.
Definition fail {A} (f : fault) : M A := fun w => Fault f w.

Definition EXIT_FAILURE : Z := 1.

(** [fprintf (stream, ...)] with the already formatted text. *)
Definition fprintf (s : stream) (text : string) : M unit :=
  fun w => Return tt (with_out (out w ++ [(s, text)]) w).

(** [strdup]: a fresh block holding a copy of [s]. (Memory does not run out:
    [strdup] and [malloc] never return null.) *)
Definition strdup (s : string) : M ptr := fun w =>
  let a := fresh (dom (heap w)) in
  Return (Block a)
    (with_heap (<[a := {| capacity := S (String.length s); content := s |}]> (heap w)) w).

(** [malloc (n)]: a fresh block of [n] bytes. *)
Definition malloc (n : nat) : M ptr := fun w =>
  let a := fresh (dom (heap w)) in
  Return (Block a)
    (with_heap (<[a := {| capacity := n; content := "" |}]> (heap w)) w).

(** [free]: defined on the address of a live block only. *)
Definition free (p : ptr) : M unit := fun w =>
  match p with
  | Block a =>
      match heap w !! a with
      | Some _ => Return tt (with_heap (delete a (heap w)) w)
      | None => Fault (InvalidFree p) w
      end
  | Literal _ => Fault (InvalidFree p) w
  end.

(** [strncpy (dst, src, n)] writes [n] bytes to [dst]. *)
Definition strncpy (dst : ptr) (src : string) (n : nat) : M unit := fun w =>
  match dst with
  | Block a =>
      match heap w !! a with
      | Some b =>
          if (n <=? capacity b)%nat
          then Return tt
                 (with_heap (<[a := {| capacity := capacity b;
                                       content := substring 0 n src |}]> (heap w)) w)
          else Fault (BufferOverflow dst) w
      | None => Fault (BufferOverflow dst) w
      end
  | Literal _ => Fault (BufferOverflow dst) w
  end.

(** The string a pointer designates, if it designates one. *)
Definition deref (w : world) (p : ptr) : option string :=
  match p with
  | Literal s => Some s
  | Block a => content <$> heap w !! a
  end.

(** ** printf conversions *)

Definition newline : string := String (ascii_of_nat 10) "".

(** [%d]. *)
Definition fmt_d (z : Z) : string := NilZero.string_of_int (Z.to_int z).

(** [%s]; glibc prints a null pointer as [(null)]. *)
Definition fmt_s (s : option string) : string :=
  match s with Some s => s | None => "(null)" end.

(** ** libconfig *)

Module Libconfig.

(** The value of a setting; only integers and strings are looked up. *)
Inductive setting :=
  | IntSetting (z : Z)
  | StringSetting (s : string)
  | OtherSetting.

(** What [config_error_file], [config_error_line] and [config_error_text]
    report after a failed read. The file is null when it could not be opened. *)
Record error := {
  error_file : option string;
  error_line : Z;
  error_text : string;
}.

(** A parsed file, as the table from setting paths to values. *)
Definition lookup_int (c : gmap string setting) (path : string) : option Z :=
  match c !! path with
  | Some (IntSetting z) => Some z
  | _ => None
  end.

Definition lookup_string (c : gmap string setting) (path : string) : option string :=
  match c !! path with
  | Some (StringSetting s) => Some s
  | _ => None
  end.

End Libconfig.

(** [config_init] and [config_destroy]: a libconfig object and everything it
    holds come to life and are released again. *)
Definition config_init : M unit := fun w => Return tt (with_parsers (S (parsers w)) w).
Definition config_destroy : M unit := fun w => Return tt (with_parsers (pred (parsers w)) w).

(** ** The host: file system, configuration files and environment *)

Record host := {
  (** [stat (path)]: [None] when it fails, else whether [S_ISDIR] holds *)
  stat : string -> option bool;
  (** [config_read_file] on a path: the error or the parsed settings *)
  read_file : string -> Libconfig.error + gmap string Libconfig.setting;
  (** [getenv] *)
  environ : gmap string string;
}.

Definition getenv (h : host) (name : string) : option string := environ h !! name.

(** Reading through a [char *]. *)
Definition load (p : ptr) : M string := fun w =>
  match deref w p with
  | Some s => Return s w
  | None => Fault (InvalidRead p) w
  end.

(** Using a possibly null [char *] as a string: a null pointer faults. *)
Definition nonnull (s : option string) : M string :=
  match s with
  | Some s => mret s
  | None => fail NullDereference
  end.

(** [*s == 0]: the C string is empty. *)
Definition at_end (s : string) : bool :=
  match s with
  | EmptyString => true
  | String _ _ => false
  end.

(** The first character of a C string (the terminator when it is empty). *)
Definition first_char (s : string) : ascii :=
  match s with
  | String c _ => c
  | EmptyString => "000"%char
  end.

(** ** GNU getopt_long, as both pipelines call it

    Both pipelines call [getopt_long (argc, argv, "", long_options, &index)]:
    the short-option string is empty, so every short option is unknown, and
    [opterr] is never cleared, so getopt reports what it rejects on the error
    stream. The array [long_options] has five entries and no all-zero entry
    after them. getopt looks for an entry whose name is exactly the name
    given, entry by entry, and stops at the first that matches; with no such
    entry it goes on past the end of the array, which is where this model
    stops with a fault. (The search for abbreviations comes only after that
    loop and is never reached.)

    Each call returns [None] for -1, or the option character together with
    [optarg]. Under [PERMUTE] non-option elements are passed over, and moved
    behind the options that follow them when the scan goes on: [argv] is
    reordered in place, so a call also yields the array as it leaves it. *)

Module Getopt.

Inductive has_arg := no_argument | required_argument | optional_argument.

#[global] Instance has_arg_eq_dec : EqDecision has_arg.
Proof. solve_decision. Defined.

(** A [struct option] whose [flag] is null, so that [val] is returned. *)
Record long_option := { name : string; arg : has_arg; val : ascii }.

Inductive ordering := REQUIRE_ORDER | PERMUTE.

(** [optind], [nextchar], [first_nonopt] and [last_nonopt]. *)
Record vars := {
  v_optind : nat;
  v_nextchar : string;
  v_first : nat;
  v_last : nat;
}.

(** What a call leads to: a fault, or the value returned, [argv] as the call
    leaves it, the variables, and the lines written to the error stream. *)
Definition answer : Type :=
  fault + (option (ascii * option string) * list string * vars * list string).

(** [NONOPTION_P]: not starting with a dash, or a lone dash. *)
Definition nonoption (a : string) : bool :=
  match a with
  | String c (String _ _) => negb (c =? "-")%char
  | _ => true
  end.

Fixpoint skip_nonoptions (rest : list string) : nat :=
  match rest with
  | a :: rest' => if nonoption a then S (skip_nonoptions rest') else O
  | [] => O
  end.

(** Splits [name=value] at the first equals sign. *)
Fixpoint split_eq (s : string) : string * option string :=
  match s with
  | EmptyString => (EmptyString, None)
  | String c s' =>
      if (c =? "=")%char then (EmptyString, Some s')
      else let '(n, v) := split_eq s' in (String c n, v)
  end.

(** The first entry with exactly this name; [None] when the search has gone
    through the whole array without finding one. *)
Fixpoint find_long (table : list long_option) (nm : string) : option long_option :=
  match table with
  | o :: table => if String.eqb (name o) nm then Some o else find_long table nm
  | [] => None
  end.

Definition program_name (argv : list string) : string := fmt_s (argv !! 0%nat).

Definition invalid_option (argv : list string) (c : ascii) : string :=
  program_name argv +:+ ": invalid option -- '" +:+ String c "'" +:+ newline.

Definition no_argument_allowed (argv : list string) (o : long_option) : string :=
  program_name argv +:+ ": option '--" +:+ name o +:+ "' doesn't allow an argument"
  +:+ newline.

Definition argument_required (argv : list string) (o : long_option) : string :=
  program_name argv +:+ ": option '--" +:+ name o +:+ "' requires an argument"
  +:+ newline.

(** Handles the element [--body] found at index [i]: the returned character,
    [optarg], the new [optind] and the lines written. *)
Definition process_long_option (argv : list string) (table : list long_option)
    (body : string) (i : nat) : fault + ((ascii * option string) * nat * list string) :=
  let '(nm, attached) := split_eq body in
  match find_long table nm with
  | None => inl OutOfBounds
  | Some o =>
      match attached with
      | Some v =>
          match arg o with
          | no_argument => inr (("?"%char, None), S i, [no_argument_allowed argv o])
          | _ => inr ((val o, Some v), S i, [])
          end
      | None =>
          match arg o with
          | required_argument =>
              match argv !! S i with
              | Some v => inr ((val o, Some v), S (S i), [])
              | None => inr (("?"%char, None), S i, [argument_required argv o])
              end
          | _ => inr ((val o, None), S i, [])
          end
      end
  end.

(** The elements from index [lo] up to, and without, index [hi]. *)
Definition segment (lo hi : nat) (l : list string) : list string :=
  take (hi - lo) (drop lo l).

(** [exchange]: the non-options at [first .. last - 1] and the options at
    [last .. optind - 1] trade places, each group keeping its order. *)
Definition exchange (argv : list string) (first last optind : nat) : list string :=
  if (first <? last)%nat && (last <? optind)%nat
  then take first argv ++ segment last optind argv ++ segment first last argv
       ++ drop optind argv
  else argv.

(** The next character [c] of a cluster of short options, [rest] being what
    follows it in the cluster: no option, since the option string is empty. *)
Definition short_option (argv : list string) (c : ascii) (rest : string) (v : vars)
    : answer :=
  inr (Some ("?"%char, None), argv,
       {| v_optind := match rest with EmptyString => S (v_optind v) | _ => v_optind v end;
          v_nextchar := rest; v_first := v_first v; v_last := v_last v |},
       [invalid_option argv c]).

(** Under [PERMUTE], before the next element is looked at: the options
    returned since non-options were last passed over move in front of these,
    and the non-options that follow are passed over in turn. *)
Definition pass_nonoptions (argv : list string) (v : vars) : list string * vars :=
  let i := v_optind v in
  let '(argv, f) :=
    if negb (v_first v =? v_last v)%nat && negb (v_last v =? i)%nat
    then (exchange argv (v_first v) (v_last v) i, (v_first v + (i - v_last v))%nat)
    else if negb (v_last v =? i)%nat then (argv, i)
    else (argv, v_first v) in
  let i' := (i + skip_nonoptions (drop i argv))%nat in
  (argv, {| v_optind := i'; v_nextchar := ""; v_first := f; v_last := i' |}).

(** The element [--] at [optind]: everything after it is a non-option. *)
Definition end_of_options (argv : list string) (v : vars) : list string * vars :=
  let i := S (v_optind v) in
  let '(argv, f) :=
    if negb (v_first v =? v_last v)%nat && negb (v_last v =? i)%nat
    then (exchange argv (v_first v) (v_last v) i, (v_first v + (i - v_last v))%nat)
    else if (v_first v =? v_last v)%nat then (argv, i)
    else (argv, v_first v) in
  (argv, {| v_optind := length argv; v_nextchar := ""; v_first := f;
            v_last := length argv |}).

(** Getting to the next element to look at, when no cluster is being gone
    through: the bounds of the non-options are brought back to [optind] if
    the caller has moved it below them; then the non-options are dealt with
    under [PERMUTE], and the element [--] under either ordering. *)
Definition advance (ord : ordering) (argv : list string) (v : vars) : list string * vars :=
  let v := {| v_optind := v_optind v; v_nextchar := "";
              v_first := Nat.min (v_first v) (v_optind v);
              v_last := Nat.min (v_last v) (v_optind v) |} in
  let '(argv, v) :=
    match ord with
    | PERMUTE => pass_nonoptions argv v
    | REQUIRE_ORDER => (argv, v)
    end in
  if bool_decide (argv !! v_optind v = Some "--"%string)
  then end_of_options argv v
  else (argv, v).

(** One call of [getopt_long (argc, argv, "", table, &index)]. *)
Definition step (ord : ordering) (table : list long_option) (argv : list string)
    (v : vars) : answer :=
  if (length argv <? 1)%nat then inr (None, argv, v, [])
  else
    let v :=
      if (v_optind v =? 0)%nat
      then {| v_optind := 1; v_nextchar := ""; v_first := 1; v_last := 1 |}
      else v in
    match v_nextchar v with
    | String c rest => short_option argv c rest v
    | EmptyString =>
        if (length argv <? v_optind v)%nat then inl OutOfBounds
        else
          let '(argv, v) := advance ord argv v in
          match argv !! v_optind v with
          | None =>
              inr (None, argv,
                   {| v_optind := if (v_first v =? v_last v)%nat then v_optind v
                                  else v_first v;
                      v_nextchar := ""; v_first := v_first v; v_last := v_last v |},
                   [])
          | Some a =>
              if nonoption a then
                match ord with
                | REQUIRE_ORDER => inr (None, argv, v, [])
                | PERMUTE =>
                    inr (Some (ascii_of_nat 1, Some a), argv,
                         {| v_optind := S (v_optind v); v_nextchar := "";
                            v_first := v_first v; v_last := v_last v |}, [])
                end
              else
                match a with
                | String _ (String c body) =>
                    if (c =? "-")%char then
                      match process_long_option argv table body (v_optind v) with
                      | inl f => inl f
                      | inr (r, i, lines) =>
                          inr (Some r, argv,
                               {| v_optind := i; v_nextchar := "";
                                  v_first := v_first v; v_last := v_last v |}, lines)
                      end
                    else short_option argv c body v
                | _ => inr (None, argv, v, [])
                end
          end
    end.

(** The options a scan returns from a position on, within [fuel] calls. *)
Fixpoint events (fuel : nat) (ord : ordering) (table : list long_option)
    (argv : list string) (v : vars) : list (ascii * option string) :=
  match fuel with
  | O => []
  | S fuel =>
      match step ord table argv v with
      | inr (Some e, argv', v', _) => e :: events fuel ord table argv' v'
      | _ => []
      end
  end.

(** The lines it writes meanwhile. *)
Fixpoint complaints (fuel : nat) (ord : ordering) (table : list long_option)
    (argv : list string) (v : vars) : list string :=
  match fuel with
  | O => []
  | S fuel =>
      match step ord table argv v with
      | inr (Some _, argv', v', lines) => lines ++ complaints fuel ord table argv' v'
      | inr (None, _, _, lines) => lines
      | inl _ => []
      end
  end.

(** [argv] as the scan leaves it. *)
Fixpoint permuted (fuel : nat) (ord : ordering) (table : list long_option)
    (argv : list string) (v : vars) : list string :=
  match fuel with
  | O => argv
  | S fuel =>
      match step ord table argv v with
      | inr (Some _, argv', v', _) => permuted fuel ord table argv' v'
      | inr (None, argv', _, _) => argv'
      | inl _ => argv
      end
  end.

(** The variables of a scan about to begin at the first argument. *)
Definition at_start : vars :=
  {| v_optind := 1; v_nextchar := ""; v_first := 1; v_last := 1 |}.

(** Characters still ahead of the scanner: every call that returns an option
    uses up at least one of them. *)
Definition weight (l : list string) : nat :=
  fold_right (fun a n => (String.length a + n)%nat) O l.

Definition remaining (argv : list string) (v : vars) : nat :=
  (String.length (v_nextchar v)
   + weight (drop (match v_nextchar v with
                   | EmptyString => v_optind v
                   | String _ _ => S (v_optind v)
                   end) argv))%nat.

(** A number of calls no scan of [argv] exceeds. *)
Definition bound (argv : list string) : nat :=
  S (fold_right (fun a n => (S (String.length a) + n)%nat) O argv).

(** An element that getopt can take for a long option names an entry of the
    table exactly. *)
Definition named (table : list long_option) (a : string) : bool :=
  match a with
  | String c1 (String c2 (String c3 body)) =>
      if (c1 =? "-")%char && (c2 =? "-")%char
      then bool_decide (is_Some (find_long table (fst (split_eq (String c3 body)))))
      else true
  | _ => true
  end.

(** An element that starts a cluster of short options. *)
Definition short (a : string) : bool :=
  match a with
  | String c1 (String c2 _) => (c1 =? "-")%char && negb (c2 =? "-")%char
  | _ => false
  end.

Definition vars_of (w : world) : vars :=
  {| v_optind := optind w; v_nextchar := nextchar w;
     v_first := first_nonopt w; v_last := last_nonopt w |}.

Definition with_vars (v : vars) (w : world) : world :=
  {| heap := heap w; out := out w;
     optind := v_optind v; nextchar := v_nextchar v;
     first_nonopt := v_first v; last_nonopt := v_last v;
     parsers := parsers w |}.

(** [getopt_long] in the process: its lines go to the error stream. The value
    comes with [argv] as the call leaves it. *)
Definition getopt_long (ord : ordering) (argv : list string)
    (table : list long_option)
    : M (option (ascii * option string) * list string) := fun w =>
  match step ord table argv (vars_of w) with
  | inl f => Fault f w
  | inr (r, argv', v', lines) =>
      Return (r, argv') (with_vars v' (with_out (out w ++ map (pair Stderr) lines) w))
  end.

End Getopt.

(** getopt scans in order when [POSIXLY_CORRECT] is set, and permutes otherwise. *)
Definition ordering_of (h : host) : Getopt.ordering :=
  match getenv h "POSIXLY_CORRECT" with
  | Some _ => Getopt.REQUIRE_ORDER
  | None => Getopt.PERMUTE
  end.

(** Assignment to the global [optind]. *)
Definition set_optind (i : nat) : M unit := fun w =>
  Return tt (with_scanner i (nextchar w) w).

(** The array both pipelines pass to [getopt_long]: these five entries, and
    nothing after them. *)
Definition long_options : list Getopt.long_option :=
  [ {| Getopt.name := "port"; Getopt.arg := Getopt.optional_argument; Getopt.val := "p" |};
    {| Getopt.name := "mode"; Getopt.arg := Getopt.optional_argument; Getopt.val := "m" |};
    {| Getopt.name := "root-dir"; Getopt.arg := Getopt.optional_argument; Getopt.val := "r" |};
    {| Getopt.name := "index-page"; Getopt.arg := Getopt.optional_argument; Getopt.val := "i" |};
    {| Getopt.name := "not-found-page"; Getopt.arg := Getopt.optional_argument; Getopt.val := "n" |} ].

(** getopt is between two elements of [argv], as it is before its first call
    and after every call that ended a scan. *)
Definition between_options (w : world) : Prop :=
  nextchar w = EmptyString /\ (1 <= first_nonopt w)%nat /\ (1 <= last_nonopt w)%nat.

(** No element of [argv] is a long option that the array does not name. *)
Definition names_known (argv : list string) : bool :=
  forallb (Getopt.named long_options) argv.

(** In the course of a scan of the array [argv0]: [argv] is that array,
    reordered; [optind] is within it, at the element of the cluster when one
    is being gone through; and the non-options passed over lie behind the
    program name, at [first_nonopt .. last_nonopt - 1] once these bounds have
    been brought back to [optind]. *)
Definition in_scan (argv0 argv : list string) (v : Getopt.vars) : Prop :=
  argv ≡ₚ argv0 /\
  (1 <= Getopt.v_optind v)%nat /\
  (1 <= Getopt.v_first v)%nat /\ (1 <= Getopt.v_last v)%nat /\
  match Getopt.v_nextchar v with
  | EmptyString =>
      (Getopt.v_optind v <= length argv)%nat /\
      (Nat.min (Getopt.v_first v) (Getopt.v_optind v)
       <= Nat.min (Getopt.v_last v) (Getopt.v_optind v))%nat
  | String _ _ =>
      (Getopt.v_optind v < length argv)%nat /\
      (Getopt.v_first v <= Getopt.v_last v)%nat
  end.

(** ** The scan of an array, read off its elements *)

(** An element that the scanner takes for an option: a dash and more, other
    than [--]. *)
Definition option_element (a : string) : bool :=
  negb (Getopt.nonoption a) && negb (String.eqb a "--").

(** What the calls return for the characters of a cluster of short options. *)
Fixpoint cluster (s : string) : list (ascii * option string) :=
  match s with
  | EmptyString => []
  | String _ s => ("?"%char, None) :: cluster s
  end.

(** What the calls return for one option element, with the array of
    [long_options]. *)
Definition item (a : string) : list (ascii * option string) :=
  match a with
  | String _ (String c body) =>
      if (c =? "-")%char then
        let '(nm, attached) := Getopt.split_eq body in
        match Getopt.find_long long_options nm with
        | Some o => [(Getopt.val o, attached)]
        | None => []
        end
      else cluster (String c body)
  | _ => []
  end.

(** The options of the elements in front of the scanner: up to the element
    [--], and under [REQUIRE_ORDER] up to the first non-option. *)
Fixpoint listed (ord : Getopt.ordering) (l : list string) : list (ascii * option string) :=
  match l with
  | [] => []
  | a :: l' =>
      if String.eqb a "--" then []
      else if Getopt.nonoption a then
        match ord with
        | Getopt.PERMUTE => listed ord l'
        | Getopt.REQUIRE_ORDER => []
        end
      else item a ++ listed ord l'
  end.

(** The options still to come when the scanner is in a cluster, of which
    [nc] is left, or in front of the elements [R]. *)
Definition pending (ord : Getopt.ordering) (nc : string) (R : list string)
    : list (ascii * option string) :=
  match nc with
  | EmptyString => listed ord R
  | String _ _ => cluster nc ++ listed ord (tail R)
  end.

(** The variables of a scanner that has the elements [P] behind it, then the
    non-options [N] it passed over, then the options [O] it returned since. *)
Definition at_blocks (P N O : list string) (nc : string) : Getopt.vars :=
  {| Getopt.v_optind := length P + length N + length O;
     Getopt.v_nextchar := nc;
     Getopt.v_first := length P;
     Getopt.v_last := length P + length N |}.

(** ** The strict pipeline: [src/http_protocol/config.c] *)

Module Strict.

Import Libconfig.

Definition CONFIG_PATH : string := "../config.cfg".
Definition DEFAULT_PORT : Z := 80.
Definition DEFAULT_MODE : ascii := "t".
Definition DEFAULT_ROOT_DIR : string := "../server_directory".
Definition DEFAULT_INDEX_PAGE : string := "/index.html".
Definition DEFAULT_NOT_FOUND_PAGE : string := "/404.html".

(** A [config *]: the address [self] of the structure, and the [config]
    structure of config.h found there, as the code uses its fields. The
    loaders all work on the one structure; it travels through them by value,
    and its block stays where [get_config] allocated it. *)
Record config := {
  self : ptr;
  root_dir : ptr;
  index_page : ptr;
  not_found_page : ptr;
  mode : ascii;
  port : Z;
}.

Definition at_address (p : ptr) (cfg : config) : config :=
  {| self := p; root_dir := root_dir cfg; index_page := index_page cfg;
     not_found_page := not_found_page cfg; mode := mode cfg; port := port cfg |}.
Definition set_root_dir (p : ptr) (cfg : config) : config :=
  {| self := self cfg;
     root_dir := p; index_page := index_page cfg; not_found_page := not_found_page cfg;
     mode := mode cfg; port := port cfg |}.
Definition set_index_page (p : ptr) (cfg : config) : config :=
  {| self := self cfg;
     root_dir := root_dir cfg; index_page := p; not_found_page := not_found_page cfg;
     mode := mode cfg; port := port cfg |}.
Definition set_not_found_page (p : ptr) (cfg : config) : config :=
  {| self := self cfg;
     root_dir := root_dir cfg; index_page := index_page cfg; not_found_page := p;
     mode := mode cfg; port := port cfg |}.
Definition set_mode (m : ascii) (cfg : config) : config :=
  {| self := self cfg;
     root_dir := root_dir cfg; index_page := index_page cfg;
     not_found_page := not_found_page cfg; mode := m; port := port cfg |}.
Definition set_port (n : Z) (cfg : config) : config :=
  {| self := self cfg;
     root_dir := root_dir cfg; index_page := index_page cfg;
     not_found_page := not_found_page cfg; mode := mode cfg; port := n |}.

(** [sizeof (config)] on LP64, for three pointers, a [char] and an [int] in
    this order (config.h is not among the sources; no property below depends
    on the number). *)
Definition sizeof_config : nat := 32.

Section MaxPort.

(** The macro [MAX_PORT] of config.h. *)
Variable MAX_PORT : Z.

Definition is_valid_port (port : Z) : bool :=
  (0 <=? port) && (port <=? MAX_PORT).

Definition is_valid_mode (mode : string) : bool :=
  match mode with
  | String c _ => (c =? "p")%char || (c =? "t")%char
  | EmptyString => false
  end.

Definition is_valid_directory (h : host) (path : string) : bool :=
  negb (match stat h path with
        | None => true
        | Some is_dir => negb is_dir
        end).

Definition validate_config (h : host) (cfg : config) : M unit :=
  path ← load (root_dir cfg);
  if negb (is_valid_directory h path) then
    _ ← fprintf Stderr ("Root directory '" +:+ path +:+ "' does not exist." +:+ newline);
    exit EXIT_FAILURE
  else mret tt.

Definition set_default_config (cfg : config) : M config :=
  p ← strdup DEFAULT_ROOT_DIR;
  let cfg := set_root_dir p cfg in
  p ← strdup DEFAULT_INDEX_PAGE;
  let cfg := set_index_page p cfg in
  p ← strdup DEFAULT_NOT_FOUND_PAGE;
  let cfg := set_not_found_page p cfg in
  let cfg := set_mode DEFAULT_MODE cfg in
  let cfg := set_port DEFAULT_PORT cfg in
  mret cfg.

Definition set_file_config (h : host) (cfg : config) : M config :=
  _ ← config_init;
  match read_file h CONFIG_PATH with
  | inl e =>
      _ ← fprintf Stderr (fmt_s (error_file e) +:+ ":" +:+ fmt_d (error_line e)
                          +:+ " - " +:+ error_text e +:+ newline);
      _ ← config_destroy;
      mret cfg
  | inr lib_config =>
      let cfg :=
        match lookup_int lib_config "port" with
        | Some port => if is_valid_port port then set_port port cfg else cfg
        | None => cfg
        end in
      let cfg :=
        match lookup_string lib_config "mode" with
        | Some mode =>
            if is_valid_mode mode
            then set_mode (C.tolower (first_char mode)) cfg else cfg
        | None => cfg
        end in
      cfg ← match lookup_string lib_config "root_dir" with
            | Some root_dir =>
                if is_valid_directory h root_dir then
                  _ ← free (Strict.root_dir cfg);
                  p ← strdup root_dir;
                  mret (set_root_dir p cfg)
                else mret cfg
            | None => mret cfg
            end;
      cfg ← match lookup_string lib_config "index_page" with
            | Some index_page =>
                _ ← free (Strict.index_page cfg);
                p ← strdup index_page;
                mret (set_index_page p cfg)
            | None => mret cfg
            end;
      cfg ← match lookup_string lib_config "not_found_page" with
            | Some not_found_page =>
                _ ← free (Strict.not_found_page cfg);
                p ← strdup not_found_page;
                mret (set_not_found_page p cfg)
            | None => mret cfg
            end;
      _ ← config_destroy;
      mret cfg
  end.

(** [int port = (int) strtoul (s, &ptr, 0)] followed by the two tests that
    guard [cfg->port = port], for the environment variable and for [--port]. *)
Definition assign_port (s : string) (cfg : config) : config :=
  let '(v, ptr) := C.strtoul s in
  let port := C.int_of_ulong v in
  if is_valid_port port then
    if negb (at_end s) && at_end ptr then set_port port cfg else cfg
  else cfg.

Definition set_env_config (h : host) (cfg : config) : M config :=
  let cfg :=
    match getenv h "DC_HTTP_PORT" with
    | Some env_var => assign_port env_var cfg
    | None => cfg
    end in
  let cfg :=
    match getenv h "DC_HTTP_MODE" with
    | Some env_var =>
        if is_valid_mode env_var
        then set_mode (C.tolower (first_char env_var)) cfg else cfg
    | None => cfg
    end in
  cfg ← match getenv h "DC_HTTP_ROOT_DIR" with
        | Some env_var =>
            if is_valid_directory h env_var then
              _ ← free (root_dir cfg);
              p ← strdup env_var;
              mret (set_root_dir p cfg)
            else mret cfg
        | None => mret cfg
        end;
  cfg ← match getenv h "DC_HTTP_INDEX_PAGE" with
        | Some env_var =>
            _ ← free (index_page cfg);
            p ← strdup env_var;
            mret (set_index_page p cfg)
        | None => mret cfg
        end;
  cfg ← match getenv h "DC_HTTP_NOT_FOUND_PAGE" with
        | Some env_var =>
            _ ← free (not_found_page cfg);
            p ← strdup env_var;
            mret (set_not_found_page p cfg)
        | None => mret cfg
        end;
  mret cfg.

(** The [switch (opt)] of the option loop, reached with a non-null [optarg]. *)
Definition apply_option (h : host) (opt : ascii) (optarg : string) (cfg : config) : M config :=
  if (opt =? "p")%char then mret (assign_port optarg cfg)
  else if (opt =? "m")%char then
    mret (if is_valid_mode optarg
          then set_mode (C.tolower (first_char optarg)) cfg else cfg)
  else if (opt =? "r")%char then
    if is_valid_directory h optarg then
      _ ← free (root_dir cfg);
      p ← strdup optarg;
      mret (set_root_dir p cfg)
    else mret cfg
  else if (opt =? "i")%char then
    _ ← free (index_page cfg);
    p ← strdup optarg;
    mret (set_index_page p cfg)
  else if (opt =? "n")%char then
    _ ← free (not_found_page cfg);
    p ← strdup optarg;
    mret (set_not_found_page p cfg)
  else mret cfg.

(** The [while ((opt = getopt_long (...)) != -1)] loop, run for at most
    [fuel] calls of [getopt_long]; [argv] is the array as the calls so far
    have left it. *)
Fixpoint option_loop (fuel : nat) (h : host) (argv : list string) (cfg : config) : M config :=
  match fuel with
  | O => fail Unfinished
  | S fuel =>
      '(r, argv) ← Getopt.getopt_long (ordering_of h) argv long_options;
      match r with
      | None => mret cfg
      | Some (_, None) => option_loop fuel h argv cfg
      | Some (opt, Some optarg) =>
          cfg ← apply_option h opt optarg cfg;
          option_loop fuel h argv cfg
      end
  end.

Definition set_cmd_line_config (h : host) (cfg : config) (argv : list string) : M config :=
  _ ← set_optind 1;
  option_loop (Getopt.bound argv) h argv cfg.

(** [uninit] stands for the indeterminate contents of the structure that
    [malloc (sizeof (config))] returns. *)
Definition get_config (h : host) (uninit : config) (argv : list string) : M config :=
  p ← malloc sizeof_config;
  let cfg := at_address p uninit in
  cfg ← set_default_config cfg;
  cfg ← set_file_config h cfg;
  cfg ← set_env_config h cfg;
  cfg ← set_cmd_line_config h cfg argv;
  _ ← validate_config h cfg;
  mret cfg.

End MaxPort.

(** [cfg->root_dir] is read from the structure first, which must still be
    there. *)
Definition destroy_config (cfg : config) : M unit :=
  _ ← load (self cfg);
  _ ← free (root_dir cfg);
  _ ← free (not_found_page cfg);
  _ ← free (index_page cfg);
  _ ← free (self cfg);
  mret tt.

End Strict.

(** ** The simplified pipeline: the second [get_config] of the repository

    No environment layer, no validation, and [mode] is a string. *)

Module Simplified.

Import Libconfig.

Definition CONFIG_PATH : string := "../config.cfg".

(** A [config *] of this pipeline: the address [self] of the structure and
    its fields. *)
Record config := {
  self : ptr;
  root_dir : ptr;
  index_page : ptr;
  not_found_page : ptr;
  mode : ptr;
  port : Z;
}.

Definition at_address (p : ptr) (cfg : config) : config :=
  {| self := p; root_dir := root_dir cfg; index_page := index_page cfg;
     not_found_page := not_found_page cfg; mode := mode cfg; port := port cfg |}.
Definition set_root_dir (p : ptr) (cfg : config) : config :=
  {| self := self cfg;
     root_dir := p; index_page := index_page cfg; not_found_page := not_found_page cfg;
     mode := mode cfg; port := port cfg |}.
Definition set_index_page (p : ptr) (cfg : config) : config :=
  {| self := self cfg;
     root_dir := root_dir cfg; index_page := p; not_found_page := not_found_page cfg;
     mode := mode cfg; port := port cfg |}.
Definition set_not_found_page (p : ptr) (cfg : config) : config :=
  {| self := self cfg;
     root_dir := root_dir cfg; index_page := index_page cfg; not_found_page := p;
     mode := mode cfg; port := port cfg |}.
Definition set_mode (p : ptr) (cfg : config) : config :=
  {| self := self cfg;
     root_dir := root_dir cfg; index_page := index_page cfg;
     not_found_page := not_found_page cfg; mode := p; port := port cfg |}.
Definition set_port (n : Z) (cfg : config) : config :=
  {| self := self cfg;
     root_dir := root_dir cfg; index_page := index_page cfg;
     not_found_page := not_found_page cfg; mode := mode cfg; port := n |}.

(** [sizeof (config)] on LP64: four pointers and an [int]. *)
Definition sizeof_config : nat := 40.

(** [sizeof (char)]. *)
Definition sizeof_char : nat := 1.

Definition set_default_config (cfg : config) : M config :=
  let cfg := set_root_dir (Literal "../server_directory") cfg in
  let cfg := set_index_page (Literal "/index.html") cfg in
  let cfg := set_not_found_page (Literal "/404.html") cfg in
  let cfg := set_mode (Literal "processes") cfg in
  let cfg := set_port 80 cfg in
  mret cfg.

Definition set_file_config (h : host) (cfg : config) : M config :=
  _ ← config_init;
  match read_file h CONFIG_PATH with
  | inl e =>
      _ ← fprintf Stdout (fmt_s (error_file e) +:+ ":" +:+ fmt_d (error_line e)
                          +:+ " - " +:+ error_text e +:+ newline);
      _ ← config_destroy;
      mret cfg
  | inr lib_config =>
      let cfg :=
        match lookup_int lib_config "port" with
        | Some port => set_port port cfg
        | None => cfg
        end in
      cfg ← match lookup_string lib_config "mode" with
            | Some mode =>
                p ← malloc (sizeof_char + 1);
                _ ← strncpy p mode (String.length mode + 1);
                mret (set_mode p cfg)
            | None => mret cfg
            end;
      cfg ← match lookup_string lib_config "directories.root" with
            | Some root_dir =>
                p ← malloc (sizeof_char + 1);
                _ ← strncpy p root_dir (String.length root_dir + 1);
                mret (set_root_dir p cfg)
            | None => mret cfg
            end;
      cfg ← match lookup_string lib_config "pages.index" with
            | Some index_page =>
                p ← malloc (sizeof_char + 1);
                _ ← strncpy p index_page (String.length index_page + 1);
                mret (set_index_page p cfg)
            | None => mret cfg
            end;
      cfg ← match lookup_string lib_config "pages.not_found" with
            | Some not_found_page =>
                p ← malloc (sizeof_char + 1);
                _ ← strncpy p not_found_page (String.length not_found_page + 1);
                mret (set_not_found_page p cfg)
            | None => mret cfg
            end;
      _ ← config_destroy;
      mret cfg
  end.

(** The [switch (opt)] of the option loop; [optarg] may be null here. *)
Definition apply_option (opt : ascii) (optarg : option string) (cfg : config) : M config :=
  if (opt =? "p")%char then
    s ← nonnull optarg;
    mret (set_port (C.int_of_ulong (fst (C.strtoul s))) cfg)
  else if (opt =? "m")%char then
    _ ← free (mode cfg);
    s ← nonnull optarg;
    p ← strdup s;
    mret (set_mode p cfg)
  else if (opt =? "r")%char then
    _ ← free (root_dir cfg);
    s ← nonnull optarg;
    p ← strdup s;
    mret (set_root_dir p cfg)
  else if (opt =? "i")%char then
    _ ← free (index_page cfg);
    s ← nonnull optarg;
    p ← strdup s;
    mret (set_index_page p cfg)
  else if (opt =? "n")%char then
    _ ← free (not_found_page cfg);
    s ← nonnull optarg;
    p ← strdup s;
    mret (set_not_found_page p cfg)
  else mret cfg.

Fixpoint option_loop (fuel : nat) (h : host) (argv : list string) (cfg : config) : M config :=
  match fuel with
  | O => fail Unfinished
  | S fuel =>
      '(r, argv) ← Getopt.getopt_long (ordering_of h) argv long_options;
      match r with
      | None => mret cfg
      | Some (opt, optarg) =>
          cfg ← apply_option opt optarg cfg;
          option_loop fuel h argv cfg
      end
  end.

(** [optind] is left where the previous scan stopped. *)
Definition set_cmd_line_config (h : host) (cfg : config) (argv : list string) : M config :=
  option_loop (Getopt.bound argv) h argv cfg.

Definition get_config (h : host) (uninit : config) (argv : list string) : M config :=
  p ← malloc sizeof_config;
  let cfg := at_address p uninit in
  cfg ← set_default_config cfg;
  cfg ← set_file_config h cfg;
  cfg ← set_cmd_line_config h cfg argv;
  mret cfg.

Definition destroy_config (cfg : config) : M unit :=
  _ ← load (self cfg);
  _ ← free (root_dir cfg);
  _ ← free (not_found_page cfg);
  _ ← free (index_page cfg);
  _ ← free (mode cfg);
  _ ← free (self cfg);
  mret tt.

End Simplified.

(** ** Resolution by layers

    Every layer offers, per field, a candidate value or nothing; a candidate
    that fails the test the code makes for the field counts as nothing. The
    resolved value of a field is the candidate of the highest layer that
    offers one, and the built-in default when no layer does. *)

Module Resolution.

Import Libconfig.

(** The values a configuration record stands for. *)
Record settings := {
  s_root_dir : string;
  s_index_page : string;
  s_not_found_page : string;
  s_mode : ascii;
  s_port : Z;
}.

Record candidates := {
  c_root_dir : option string;
  c_index_page : option string;
  c_not_found_page : option string;
  c_mode : option ascii;
  c_port : option Z;
}.

Definition nothing : candidates :=
  {| c_root_dir := None; c_index_page := None; c_not_found_page := None;
     c_mode := None; c_port := None |}.

(** One layer applied to the values of the layers below it. *)
Definition apply (c : candidates) (v : settings) : settings :=
  {| s_root_dir := default (s_root_dir v) (c_root_dir c);
     s_index_page := default (s_index_page v) (c_index_page c);
     s_not_found_page := default (s_not_found_page v) (c_not_found_page c);
     s_mode := default (s_mode v) (c_mode c);
     s_port := default (s_port v) (c_port c) |}.

(** The candidate of the first layer of the list that offers one. *)
Fixpoint first_valid {A} (layers : list (option A)) (dflt : A) : A :=
  match layers with
  | [] => dflt
  | Some a :: _ => a
  | None :: layers => first_valid layers dflt
  end.

(** Within the command line, a later occurrence of an option overrides an
    earlier one. *)
Definition later {A} (new old : option A) : option A :=
  match new with
  | Some a => Some a
  | None => old
  end.

Definition merge (new old : candidates) : candidates :=
  {| c_root_dir := later (c_root_dir new) (c_root_dir old);
     c_index_page := later (c_index_page new) (c_index_page old);
     c_not_found_page := later (c_not_found_page new) (c_not_found_page old);
     c_mode := later (c_mode new) (c_mode old);
     c_port := later (c_port new) (c_port old) |}.

Definition defaults : settings :=
  {| s_root_dir := Strict.DEFAULT_ROOT_DIR;
     s_index_page := Strict.DEFAULT_INDEX_PAGE;
     s_not_found_page := Strict.DEFAULT_NOT_FOUND_PAGE;
     s_mode := Strict.DEFAULT_MODE;
     s_port := Strict.DEFAULT_PORT |}.

Section MaxPort.

Variable MAX_PORT : Z.

Definition valid_port (p : Z) : option Z :=
  if Strict.is_valid_port MAX_PORT p then Some p else None.

(** A port given as text, as the code takes it: the whole non-empty text
    must parse, and the parsed number, converted to [int], must be a valid
    port. *)
Definition port_of_string (s : string) : option Z :=
  let '(v, rest) := C.strtoul s in
  let p := C.int_of_ulong v in
  if Strict.is_valid_port MAX_PORT p && negb (at_end s) && at_end rest
  then Some p else None.

(** A mode given as text, as the code takes it. *)
Definition mode_of_string (s : string) : option ascii :=
  if Strict.is_valid_mode s then Some (C.tolower (first_char s)) else None.

(** The same two candidates in the words of the specification. A port:
    parsed as an unsigned integer, taken only if the parse consumed the whole
    text, the text was not empty, and the parsed value is within the port
    range. *)
Definition port_by_the_spec (s : string) : option Z :=
  let '(v, rest) := C.strtoul s in
  if negb (at_end s) && at_end rest && (0 <=? v) && (v <=? MAX_PORT)
  then Some v else None.

Definition directory (h : host) (path : string) : option string :=
  if Strict.is_valid_directory h path then Some path else None.

Definition file_candidates (h : host) : candidates :=
  match read_file h Strict.CONFIG_PATH with
  | inl _ => nothing
  | inr c =>
      {| c_root_dir := lookup_string c "root_dir" ≫= directory h;
         c_index_page := lookup_string c "index_page";
         c_not_found_page := lookup_string c "not_found_page";
         c_mode := lookup_string c "mode" ≫= mode_of_string;
         c_port := lookup_int c "port" ≫= valid_port |}
  end.

Definition env_candidates (h : host) : candidates :=
  {| c_root_dir := getenv h "DC_HTTP_ROOT_DIR" ≫= directory h;
     c_index_page := getenv h "DC_HTTP_INDEX_PAGE";
     c_not_found_page := getenv h "DC_HTTP_NOT_FOUND_PAGE";
     c_mode := getenv h "DC_HTTP_MODE" ≫= mode_of_string;
     c_port := getenv h "DC_HTTP_PORT" ≫= port_of_string |}.

(** What one option returned by the scanner offers. *)
Definition option_candidates (h : host) (e : ascii * option string) : candidates :=
  match e with
  | (opt, Some optarg) =>
      if (opt =? "p")%char then
        {| c_root_dir := None; c_index_page := None; c_not_found_page := None;
           c_mode := None; c_port := port_of_string optarg |}
      else if (opt =? "m")%char then
        {| c_root_dir := None; c_index_page := None; c_not_found_page := None;
           c_mode := mode_of_string optarg; c_port := None |}
      else if (opt =? "r")%char then
        {| c_root_dir := directory h optarg; c_index_page := None;
           c_not_found_page := None; c_mode := None; c_port := None |}
      else if (opt =? "i")%char then
        {| c_root_dir := None; c_index_page := Some optarg; c_not_found_page := None;
           c_mode := None; c_port := None |}
      else if (opt =? "n")%char then
        {| c_root_dir := None; c_index_page := None; c_not_found_page := Some optarg;
           c_mode := None; c_port := None |}
      else nothing
  | (_, None) => nothing
  end.

(** The options of a full scan of [argv], in the order the scanner returns
    them, and the lines getopt writes during the scan. *)
Definition options_of (h : host) (argv : list string) : list (ascii * option string) :=
  Getopt.events (Getopt.bound argv) (ordering_of h) long_options argv Getopt.at_start.

Definition complaints_of (h : host) (argv : list string) : list (stream * string) :=
  map (pair Stderr)
    (Getopt.complaints (Getopt.bound argv) (ordering_of h) long_options argv
       Getopt.at_start).

(** [argv] as a full scan leaves it. *)
Definition permuted (h : host) (argv : list string) : list string :=
  Getopt.permuted (Getopt.bound argv) (ordering_of h) long_options argv Getopt.at_start.

Definition cli_candidates (h : host) (argv : list string) : candidates :=
  fold_left (fun acc e => merge (option_candidates h e) acc) (options_of h argv) nothing.

(** The resolved configuration: per field, the highest layer with a valid
    candidate, Default < File < Environment < CLI. *)
Definition resolve (h : host) (argv : list string) : settings :=
  let file := file_candidates h in
  let env := env_candidates h in
  let cli := cli_candidates h argv in
  {| s_root_dir :=
       first_valid [c_root_dir cli; c_root_dir env; c_root_dir file] (s_root_dir defaults);
     s_index_page :=
       first_valid [c_index_page cli; c_index_page env; c_index_page file]
         (s_index_page defaults);
     s_not_found_page :=
       first_valid [c_not_found_page cli; c_not_found_page env; c_not_found_page file]
         (s_not_found_page defaults);
     s_mode := first_valid [c_mode cli; c_mode env; c_mode file] (s_mode defaults);
     s_port := first_valid [c_port cli; c_port env; c_port file] (s_port defaults) |}.

End MaxPort.

(** A mode in the words of the specification: taken only if its first
    character is [p] or [t], whatever its case, and stored in lower case. *)
Definition mode_by_the_spec (s : string) : option ascii :=
  let c := C.tolower (first_char s) in
  if (c =? "p")%char || (c =? "t")%char then Some c else None.

(** The block [strdup] makes for a string. *)
Definition copy_of (s : string) : block :=
  {| capacity := S (String.length s); content := s |}.

(** The heap that holds, next to the blocks of [frame], exactly one copy of
    each text value, at three addresses. *)
Definition layout (a b c : positive) (v : settings) (frame : gmap positive block)
    : gmap positive block :=
  <[a := copy_of (s_root_dir v)]>
    (<[b := copy_of (s_index_page v)]>
       (<[c := copy_of (s_not_found_page v)]> frame)).

(** [represents w cfg v frame]: in state [w] the record [cfg] stands for the
    values [v]; its three text fields point to three different live blocks,
    each holding its own copy, and the rest of the heap is [frame]. *)
Definition represents (w : world) (cfg : Strict.config) (v : settings)
    (frame : gmap positive block) : Prop :=
  exists a b c : positive,
    Strict.root_dir cfg = Block a /\
    Strict.index_page cfg = Block b /\
    Strict.not_found_page cfg = Block c /\
    a <> b /\ a <> c /\ b <> c /\
    frame !! a = None /\ frame !! b = None /\ frame !! c = None /\
    heap w = layout a b c v frame /\
    Strict.mode cfg = s_mode v /\
    Strict.port cfg = s_port v.

(** The values read through the record's pointers. *)
Definition view (w : world) (cfg : Strict.config) : option settings :=
  r ← deref w (Strict.root_dir cfg);
  i ← deref w (Strict.index_page cfg);
  n ← deref w (Strict.not_found_page cfg);
  Some {| s_root_dir := r; s_index_page := i; s_not_found_page := n;
          s_mode := Strict.mode cfg; s_port := Strict.port cfg |}.

(** What the file loader writes to the output streams. *)
Definition file_diagnostic (h : host) : list (stream * string) :=
  match read_file h Strict.CONFIG_PATH with
  | inl e => [(Stderr, fmt_s (error_file e) +:+ ":" +:+
                       fmt_d (error_line e) +:+ " - " +:+
                       error_text e +:+ newline)]
  | inr _ => []
  end.

(** No element of [argv] attaches a value to the option with this letter:
    none has the form [--name=value] with [name] naming it. *)
Definition unattached (argv : list string) (letter : ascii) : Prop :=
  forall nm v o,
    In ("--" +:+ nm +:+ "=" +:+ v) argv ->
    Getopt.find_long long_options nm = Some o -> Getopt.val o <> letter.

(** Port and mode within their constraints. *)
Definition well_formed (MAX_PORT : Z) (cfg : Strict.config) : Prop :=
  0 <= Strict.port cfg <= MAX_PORT /\
  (Strict.mode cfg = "p"%char \/ Strict.mode cfg = "t"%char).

(** A layer all of whose port and mode candidates are within the constraints. *)
Definition sound (MAX_PORT : Z) (c : candidates) : Prop :=
  (forall p, c_port c = Some p -> 0 <= p <= MAX_PORT) /\
  (forall m, c_mode c = Some m -> m = "p"%char \/ m = "t"%char).

(** [get_config] up to the call of the validator: the structure is allocated
    and the four loaders run. *)
Definition loaders (MAX_PORT : Z) (h : host) (uninit : Strict.config)
    (argv : list string) : M Strict.config :=
  p ← malloc Strict.sizeof_config;
  cfg ← Strict.set_default_config (Strict.at_address p uninit);
  cfg ← Strict.set_file_config MAX_PORT h cfg;
  cfg ← Strict.set_env_config MAX_PORT h cfg;
  Strict.set_cmd_line_config MAX_PORT h cfg argv.

(** The block of a [config] structure. *)
Definition structure : block :=
  {| capacity := Strict.sizeof_config; content := "" |}.

(** The line the validator writes before it ends the process. *)
Definition fatal_message (path : string) : stream * string :=
  (Stderr, "Root directory '" +:+ path +:+ "' does not exist." +:+ newline).

(** The code's way of taking a candidate: a text field releases its block
    and duplicates the new value, a scalar field is overwritten. *)
Definition assign_text (get : Strict.config -> ptr) (set : ptr -> Strict.config -> Strict.config)
    (c : option string) (cfg : Strict.config) : M Strict.config :=
  match c with
  | Some s =>
      _ ← free (get cfg);
      p ← strdup s;
      mret (set p cfg)
  | None => mret cfg
  end.

Definition assign_all (c : candidates) (cfg : Strict.config) : M Strict.config :=
  let cfg := match c_port c with Some p => Strict.set_port p cfg | None => cfg end in
  let cfg := match c_mode c with Some m => Strict.set_mode m cfg | None => cfg end in
  cfg ← assign_text Strict.root_dir Strict.set_root_dir (c_root_dir c) cfg;
  cfg ← assign_text Strict.index_page Strict.set_index_page (c_index_page c) cfg;
  cfg ← assign_text Strict.not_found_page Strict.set_not_found_page (c_not_found_page c) cfg;
  mret cfg.

End Resolution.

(** ** The title screen of the terminal editor: [src/ncurses/ncurses.c]

    [mvwprintw (stdscr, y, x, text)] is recorded as the request it makes; the
    texts hold no conversion. [COLS] is the width of the terminal; the macros
    [MARGIN] and [ASCII_TITLE_HEIGHT] of the absent header are parameters. *)

Module Ncurses.

Record print := { row : Z; col : Z; text : string }.

Definition title_cols : Z := 44.
Definition instruction_cols : Z := 63.

(** The five initialisers of [rows]. *)
Definition title_rows : list string :=
  [ " __    __  _____  __________    __  ___  __";
    "/ _\  /__\/__   \/__   \_   \/\ \ \/ _ \/ _\" +:+ newline;
    "\ \  /_\    / /\/  / /\// /\/  \/ / /_\/\ \" +:+ newline;
    "_\ \//__   / /    / //\/ /_/ /\  / /_\\ _\ \" +:+ newline;
    "\__/\__/   \/     \/ \____/\_\ \/\____/ \__/ " +:+ newline ].

(** [char *rows[ASCII_TITLE_HEIGHT] = {...}]: the initialisers that fit, and
    null pointers in the elements left over. *)
Definition rows (ASCII_TITLE_HEIGHT : nat) : list (option string) :=
  take ASCII_TITLE_HEIGHT (Some <$> title_rows)
  ++ replicate (ASCII_TITLE_HEIGHT - length title_rows) None.

(** The loop over [rows] from index [i] on; a null text is a fault ([None]). *)
Fixpoint print_rows (start_row x i : Z) (rest : list (option string))
    : option (list print) :=
  match rest with
  | [] => Some []
  | Some r :: rest =>
      cons {| row := start_row + i; col := x; text := r |}
        <$> print_rows start_row x (i + 1) rest
  | None :: _ => None
  end.

Definition print_ascii_art_title (COLS MARGIN : Z) (ASCII_TITLE_HEIGHT : nat)
    : option (list print) :=
  if COLS <? title_cols then Some []
  else
    let midpoint_x := Z.quot COLS 2 in
    let start_row := MARGIN in
    print_rows start_row (midpoint_x - Z.quot title_cols 2) 0 (rows ASCII_TITLE_HEIGHT).

Definition print_instructions (COLS MARGIN : Z) (ASCII_TITLE_HEIGHT : nat) : list print :=
  if COLS <? instruction_cols then []
  else
    let text := "[F1] Exit    [^] Scroll Up    [v] Scroll Down    [Enter] Select" in
    let midpoint_x := Z.quot COLS 2 in
    [ {| row := MARGIN * 2 + Z.of_nat ASCII_TITLE_HEIGHT;
         col := midpoint_x - Z.quot instruction_cols 2;
         text := text |} ].

(** Columns a text takes on its line: its characters up to a line feed. *)
Fixpoint width (s : string) : Z :=
  match s with
  | EmptyString => 0
  | String c s' => if (c =? ascii_of_nat 10)%char then 0 else 1 + width s'
  end.

End Ncurses.

(** ** Sample hosts and arguments *)

Module Samples.

Definition MAX_PORT : Z := 65535.

(** A process at start-up: nothing allocated, nothing written, the scanner at
    the first argument. *)
Definition start : world :=
  {| heap := ∅; out := []; optind := 1; nextchar := "";
     first_nonopt := 1; last_nonopt := 1; parsers := 0 |}.

Definition blank : Strict.config :=
  {| Strict.self := Literal "";
     Strict.root_dir := Literal ""; Strict.index_page := Literal "";
     Strict.not_found_page := Literal ""; Strict.mode := "000"; Strict.port := 0 |}.

Definition blank_simplified : Simplified.config :=
  {| Simplified.self := Literal "";
     Simplified.root_dir := Literal ""; Simplified.index_page := Literal "";
     Simplified.not_found_page := Literal ""; Simplified.mode := Literal "";
     Simplified.port := 0 |}.

(** The directories of the sample file system. *)
Definition sample_stat (path : string) : option bool :=
  if String.eqb path "../server_directory" then Some true
  else if String.eqb path "/srv/www" then Some true
  else if String.eqb path "/etc/passwd" then Some false
  else None.

Definition io_error : Libconfig.error :=
  {| Libconfig.error_file := None; Libconfig.error_line := 0;
     Libconfig.error_text := "file I/O error" |}.

Definition syntax_error : Libconfig.error :=
  {| Libconfig.error_file := Some "../config.cfg"; Libconfig.error_line := 3;
     Libconfig.error_text := "syntax error" |}.

(** No configuration file, empty environment. *)
Definition bare : host :=
  {| stat := sample_stat; read_file := fun _ => inl io_error; environ := ∅ |}.

Definition with_environ (env : gmap string string) : host :=
  {| stat := sample_stat; read_file := fun _ => inl io_error; environ := env |}.

Definition with_file (settings : gmap string Libconfig.setting) : host :=
  {| stat := sample_stat; read_file := fun _ => inr settings; environ := ∅ |}.

(** A host on which every layer has something to say. *)
Definition layered : host :=
  {| stat := sample_stat;
     read_file := fun _ =>
       inr (<["port" := Libconfig.IntSetting 8080]>
              (<["mode" := Libconfig.StringSetting "t"]>
                 (<["index_page" := Libconfig.StringSetting "/home.html"]>
                    (<["root_dir" := Libconfig.StringSetting "/srv/www"]> ∅))));
     environ := <["DC_HTTP_PORT" := "99999"]>
                  (<["DC_HTTP_MODE" := "p"]>
                     (<["DC_HTTP_ROOT_DIR" := "/does/not/exist"]> ∅)) |}.

Definition layered_argv : list string :=
  ["server"; "--port=-1"; "--mode=x"; "--index-page=/start.html"].

(** A state in which a record owns the three default texts, as
    [set_default_config] leaves it at start-up. *)
Definition owner : Strict.config :=
  {| Strict.self := Block 1;
     Strict.root_dir := Block 2; Strict.index_page := Block 3;
     Strict.not_found_page := Block 4; Strict.mode := Strict.DEFAULT_MODE;
     Strict.port := Strict.DEFAULT_PORT |}.

Definition owned : world :=
  with_heap (Resolution.layout 2 3 4 Resolution.defaults
               {[ 1%positive := Resolution.structure ]}) start.

End Samples.

(** * Properties *)

(** ** The monad and the heap *)

Lemma bind_return {A B} (m : M A) (f : A -> M B) (w w' : world) (a : A) :
  m w = Return a w' -> (m ≫= f) w = f a w'.
Proof. intros E. unfold mbind, M_bind. now rewrite E. Qed.

Lemma bind_fault {A B} (m : M A) (f : A -> M B) (w w' : world) e :
  m w = Fault e w' -> (m ≫= f) w = Fault e w'.
Proof. intros E. unfold mbind, M_bind. now rewrite E. Qed.

Lemma with_heap_heap (w : world) : with_heap (heap w) w = w.
Proof. now destruct w. Qed.

Lemma with_heap_twice H H' (w : world) : with_heap H (with_heap H' w) = with_heap H w.
Proof. reflexivity. Qed.

Lemma fresh_not_live (m : gmap positive block) : m !! fresh (dom m) = None.
Proof. apply not_elem_of_dom, is_fresh. Qed.

(** [free] of a live block removes it, and only it. *)
Lemma free_live (w : world) (a : positive) (b : block) :
  heap w !! a = Some b ->
  free (Block a) w = Return tt (with_heap (delete a (heap w)) w).
Proof. intros E. unfold free. now rewrite E. Qed.

(** A block cannot be released twice, and a literal cannot be released at all. *)
Lemma free_twice (w : world) (a : positive) (b : block) :
  heap w !! a = Some b ->
  (_ ← free (Block a); free (Block a)) w
  = Fault (InvalidFree (Block a)) (with_heap (delete a (heap w)) w).
Proof.
  intros E. rewrite (bind_return _ _ _ _ _ (free_live w a b E)).
  unfold free. cbn. now rewrite lookup_delete_eq.
Qed.

Lemma free_literal (w : world) (s : string) :
  free (Literal s) w = Fault (InvalidFree (Literal s)) w.
Proof. reflexivity. Qed.

(** ** The library models on sample inputs *)

Example strtoul_80 : C.strtoul "80" = (80, ""%string).
Proof. reflexivity. Qed.
Example strtoul_hex : C.strtoul "0x50" = (80, ""%string).
Proof. reflexivity. Qed.
Example strtoul_trailing : C.strtoul "80abc" = (80, "abc"%string).
Proof. reflexivity. Qed.
Example strtoul_empty : C.strtoul "" = (0, ""%string).
Proof. reflexivity. Qed.
Example strtoul_minus_one : C.int_of_ulong (fst (C.strtoul "-1")) = -1.
Proof. reflexivity. Qed.
Example strtoul_0x : C.strtoul "0x" = (0, "x"%string).
Proof. reflexivity. Qed.
Example fmt_d_examples : fmt_d 0 = "0"%string /\ fmt_d 12 = "12"%string /\ fmt_d (-3) = "-3"%string.
Proof. repeat split; reflexivity. Qed.
Example getenv_example :
  getenv {| stat := fun _ => Some true; read_file := fun _ => inr ∅;
            environ := {[ "DC_HTTP_PORT"%string := "81"%string ]} |} "DC_HTTP_PORT"
  = Some "81"%string.
Proof. vm_compute. reflexivity. Qed.
Example strdup_example :
  (p ← strdup "abc"; q ← strdup "de"; _ ← free p; mret q)
    Samples.start
  = Return (Block 2)
      (with_heap {[ 2%positive := {| capacity := 3; content := "de" |} ]} Samples.start).
Proof. vm_compute. reflexivity. Qed.

(** A scan under [PERMUTE]: the options it returns, the lines it writes, and
    the array as it leaves it, the options in front and [optind] at the first
    of the other elements. *)
Example getopt_scan_example :
  let argv := ["prog"; "x"; "--port=81"; "--mode"; "p"; "-ab"; "--root-dir=/tmp"; "--";
               "--port=1"]%string in
  (Resolution.options_of Samples.bare argv
   = [("p"%char, Some "81"%string); ("m"%char, None); ("?"%char, None); ("?"%char, None);
      ("r"%char, Some "/tmp"%string)]) /\
  (Resolution.complaints_of Samples.bare argv
   = [(Stderr, ("prog: invalid option -- 'a'" +:+ newline)%string);
      (Stderr, ("prog: invalid option -- 'b'" +:+ newline)%string)]) /\
  (Resolution.permuted Samples.bare argv
   = ["prog"; "--port=81"; "--mode"; "-ab"; "--root-dir=/tmp"; "--"; "x"; "p";
      "--port=1"]%string) /\
  match Strict.set_cmd_line_config Samples.MAX_PORT Samples.bare Samples.blank argv
          Samples.start with
  | Return _ w => optind w = 6%nat
  | _ => False
  end.
Proof.
  cbv zeta. split; [|split; [|split]]; vm_compute; reflexivity.
Qed.

(** An element that names no entry of the array. *)
Example getopt_unknown_example :
  (Getopt.step Getopt.PERMUTE long_options ["prog"; "--verbose"]%string Getopt.at_start
   = inl OutOfBounds) /\
  (Getopt.step Getopt.PERMUTE long_options ["prog"; "--po=81"]%string Getopt.at_start
   = inl OutOfBounds).
Proof. split; vm_compute; reflexivity. Qed.

(** ** Records that own their text fields *)

Import Resolution.

Lemma layout_lookup_root a b c v F : layout a b c v F !! a = Some (copy_of (s_root_dir v)).
Proof. unfold layout. apply lookup_insert_eq. Qed.

Lemma layout_lookup_index a b c v F :
  a <> b -> layout a b c v F !! b = Some (copy_of (s_index_page v)).
Proof. intros. unfold layout. rewrite lookup_insert_ne by done. apply lookup_insert_eq. Qed.

Lemma layout_lookup_not_found a b c v F :
  a <> c -> b <> c -> layout a b c v F !! c = Some (copy_of (s_not_found_page v)).
Proof. intros. unfold layout. rewrite !lookup_insert_ne by done. apply lookup_insert_eq. Qed.

Ltac map_pointwise :=
  apply map_eq; intros ?k; unfold layout;
  repeat (rewrite ?lookup_insert, ?lookup_delete; case_decide; subst; simpl);
  try congruence; try done.

Lemma swap_root a a' b c v s F :
  a <> b -> a <> c -> F !! a = None ->
  <[a' := copy_of s]> (delete a (layout a b c v F))
  = layout a' b c {| s_root_dir := s; s_index_page := s_index_page v;
                     s_not_found_page := s_not_found_page v; s_mode := s_mode v;
                     s_port := s_port v |} F.
Proof. intros. map_pointwise. Qed.

Lemma swap_index a b b' c v s F :
  a <> b -> b <> c -> a <> b' -> F !! b = None ->
  <[b' := copy_of s]> (delete b (layout a b c v F))
  = layout a b' c {| s_root_dir := s_root_dir v; s_index_page := s;
                     s_not_found_page := s_not_found_page v; s_mode := s_mode v;
                     s_port := s_port v |} F.
Proof. intros. map_pointwise. Qed.

Lemma swap_not_found a b c c' v s F :
  a <> c -> b <> c -> a <> c' -> b <> c' -> F !! c = None ->
  <[c' := copy_of s]> (delete c (layout a b c v F))
  = layout a b c' {| s_root_dir := s_root_dir v; s_index_page := s_index_page v;
                     s_not_found_page := s; s_mode := s_mode v;
                     s_port := s_port v |} F.
Proof. intros. map_pointwise. Qed.

(** A fresh address differs from every live one. *)
Lemma fresh_after_delete (m : gmap positive block) (a k : positive) :
  k <> a -> is_Some (m !! k) -> fresh (dom (delete a m)) <> k.
Proof.
  intros Hk [x Hx] E.
  pose proof (fresh_not_live (delete a m)) as Hf.
  rewrite E, lookup_delete_ne in Hf by done. congruence.
Qed.

Lemma fresh_outside_frame a b c v F k :
  k <> a -> k <> b -> k <> c ->
  layout a b c v F !! k = None -> F !! k = None.
Proof. intros ? ? ?. unfold layout. now rewrite !lookup_insert_ne by done. Qed.

Lemma assign_root_dir (o : option string) w cfg v F :
  represents w cfg v F ->
  exists cfg' H,
    assign_text Strict.root_dir Strict.set_root_dir o cfg w = Return cfg' (with_heap H w) /\
    represents (with_heap H w) cfg'
      {| s_root_dir := default (s_root_dir v) o; s_index_page := s_index_page v;
         s_not_found_page := s_not_found_page v; s_mode := s_mode v;
         s_port := s_port v |} F.
Proof.
  intros R. destruct o as [s|]; simpl.
  2:{ exists cfg, (heap w). rewrite with_heap_heap. split; [reflexivity|]. now destruct v. }
  destruct R as (a & b & c & Ha & Hb & Hc & Hab & Hac & Hbc & Fa & Fb & Fc & Hh & Hm & Hp).
  set (a' := fresh (dom (delete a (heap w)))).
  exists (Strict.set_root_dir (Block a') cfg), (<[a' := copy_of s]> (delete a (heap w))).
  split.
  - rewrite Ha.
    erewrite bind_return by (eapply free_live; rewrite Hh; apply layout_lookup_root).
    reflexivity.
  - assert (a' <> b) as Nb.
    { apply fresh_after_delete; [congruence|]. rewrite Hh, layout_lookup_index; eauto. }
    assert (a' <> c) as Nc.
    { apply fresh_after_delete; [congruence|]. rewrite Hh, layout_lookup_not_found; eauto. }
    exists a', b, c. cbn. repeat split; try assumption.
    + pose proof (fresh_not_live (delete a (heap w))) as Hf. fold a' in Hf.
      destruct (decide (a' = a)) as [E|Na]; [now rewrite E|].
      rewrite lookup_delete_ne, Hh in Hf by done.
      now apply (fresh_outside_frame a b c v F a').
    + rewrite Hh. now apply swap_root.
Qed.

Lemma assign_index_page (o : option string) w cfg v F :
  represents w cfg v F ->
  exists cfg' H,
    assign_text Strict.index_page Strict.set_index_page o cfg w
      = Return cfg' (with_heap H w) /\
    represents (with_heap H w) cfg'
      {| s_root_dir := s_root_dir v; s_index_page := default (s_index_page v) o;
         s_not_found_page := s_not_found_page v; s_mode := s_mode v;
         s_port := s_port v |} F.
Proof.
  intros R. destruct o as [s|]; simpl.
  2:{ exists cfg, (heap w). rewrite with_heap_heap. split; [reflexivity|]. now destruct v. }
  destruct R as (a & b & c & Ha & Hb & Hc & Hab & Hac & Hbc & Fa & Fb & Fc & Hh & Hm & Hp).
  set (b' := fresh (dom (delete b (heap w)))).
  exists (Strict.set_index_page (Block b') cfg), (<[b' := copy_of s]> (delete b (heap w))).
  split.
  - rewrite Hb.
    erewrite bind_return by (eapply free_live; rewrite Hh; now apply layout_lookup_index).
    reflexivity.
  - assert (b' <> a) as Na.
    { apply fresh_after_delete; [congruence|]. rewrite Hh, layout_lookup_root; eauto. }
    assert (b' <> c) as Nc.
    { apply fresh_after_delete; [congruence|]. rewrite Hh, layout_lookup_not_found; eauto. }
    exists a, b', c. cbn. repeat split; try assumption; try congruence.
    + pose proof (fresh_not_live (delete b (heap w))) as Hf. fold b' in Hf.
      destruct (decide (b' = b)) as [E|Nb]; [now rewrite E|].
      rewrite lookup_delete_ne, Hh in Hf by done.
      now apply (fresh_outside_frame a b c v F b').
    + rewrite Hh. apply swap_index; congruence.
Qed.

Lemma assign_not_found_page (o : option string) w cfg v F :
  represents w cfg v F ->
  exists cfg' H,
    assign_text Strict.not_found_page Strict.set_not_found_page o cfg w
      = Return cfg' (with_heap H w) /\
    represents (with_heap H w) cfg'
      {| s_root_dir := s_root_dir v; s_index_page := s_index_page v;
         s_not_found_page := default (s_not_found_page v) o; s_mode := s_mode v;
         s_port := s_port v |} F.
Proof.
  intros R. destruct o as [s|]; simpl.
  2:{ exists cfg, (heap w). rewrite with_heap_heap. split; [reflexivity|]. now destruct v. }
  destruct R as (a & b & c & Ha & Hb & Hc & Hab & Hac & Hbc & Fa & Fb & Fc & Hh & Hm & Hp).
  set (c' := fresh (dom (delete c (heap w)))).
  exists (Strict.set_not_found_page (Block c') cfg),
    (<[c' := copy_of s]> (delete c (heap w))).
  split.
  - rewrite Hc.
    erewrite bind_return by (eapply free_live; rewrite Hh; now apply layout_lookup_not_found).
    reflexivity.
  - assert (c' <> a) as Na.
    { apply fresh_after_delete; [congruence|]. rewrite Hh, layout_lookup_root; eauto. }
    assert (c' <> b) as Nb.
    { apply fresh_after_delete; [congruence|]. rewrite Hh, layout_lookup_index; eauto. }
    exists a, b, c'. cbn. repeat split; try assumption; try congruence.
    + pose proof (fresh_not_live (delete c (heap w))) as Hf. fold c' in Hf.
      destruct (decide (c' = c)) as [E|Nc]; [now rewrite E|].
      rewrite lookup_delete_ne, Hh in Hf by done.
      now apply (fresh_outside_frame a b c v F c').
    + rewrite Hh. apply swap_not_found; congruence.
Qed.

Lemma represents_scalars w cfg v F (c : candidates) :
  represents w cfg v F ->
  represents w
    (let cfg := match c_port c with Some p => Strict.set_port p cfg | None => cfg end in
     match c_mode c with Some m => Strict.set_mode m cfg | None => cfg end)
    {| s_root_dir := s_root_dir v; s_index_page := s_index_page v;
       s_not_found_page := s_not_found_page v; s_mode := default (s_mode v) (c_mode c);
       s_port := default (s_port v) (c_port c) |} F.
Proof.
  intros (a & b & k & R). exists a, b, k.
  destruct (c_port c), (c_mode c); cbn; intuition.
Qed.

(** Taking the candidates of a layer never fails; the record then stands for
    the layer applied to the previous values, and the rest of the heap is
    untouched. *)
Lemma assign_all_spec (c : candidates) w cfg v F :
  represents w cfg v F ->
  exists cfg' H,
    assign_all c cfg w = Return cfg' (with_heap H w) /\
    represents (with_heap H w) cfg' (apply c v) F.
Proof.
  intros R. unfold assign_all.
  apply (represents_scalars _ _ _ _ c) in R. cbv zeta in R.
  destruct (assign_root_dir (c_root_dir c) _ _ _ _ R) as (cfg1 & H1 & E1 & R1).
  destruct (assign_index_page (c_index_page c) _ _ _ _ R1) as (cfg2 & H2 & E2 & R2).
  destruct (assign_not_found_page (c_not_found_page c) _ _ _ _ R2) as (cfg3 & H3 & E3 & R3).
  rewrite !with_heap_twice in *.
  exists cfg3, H3. split; [|exact R3].
  cbv zeta. rewrite (bind_return _ _ _ _ _ E1), (bind_return _ _ _ _ _ E2).
  now rewrite (bind_return _ _ _ _ _ E3).
Qed.

(** ** The loaders of the strict pipeline, layer by layer *)

(** Two programs built from the same calls of [free] agree once they agree
    for every outcome of those calls. *)
Ltac by_cases_on_free :=
  unfold mbind, M_bind, mret, M_ret, strdup, config_init, config_destroy; cbn;
  repeat (match goal with
          | |- context [free ?p ?w] => destruct (free p w) as [[] ?|? ?|? ?]
          end; cbn);
  reflexivity.

Section StrictLayers.

Variable MAX_PORT : Z.

Lemma assign_port_candidate (s : string) (cfg : Strict.config) :
  Strict.assign_port MAX_PORT s cfg
  = match port_of_string MAX_PORT s with
    | Some p => Strict.set_port p cfg
    | None => cfg
    end.
Proof.
  unfold Strict.assign_port, port_of_string.
  destruct (C.strtoul s) as [v rest].
  destruct (Strict.is_valid_port MAX_PORT (C.int_of_ulong v)); cbn; [|reflexivity].
  now destruct (negb (at_end s) && at_end rest).
Qed.

Lemma set_env_config_assign (h : host) (cfg : Strict.config) (w : world) :
  Strict.set_env_config MAX_PORT h cfg w = assign_all (env_candidates MAX_PORT h) cfg w.
Proof.
  unfold Strict.set_env_config, assign_all, env_candidates, assign_text,
    mode_of_string, directory; cbn.
  destruct (getenv h "DC_HTTP_PORT") as [p|]; cbn; [rewrite assign_port_candidate|];
    destruct (getenv h "DC_HTTP_MODE") as [m|]; cbn;
    try destruct (Strict.is_valid_mode m); cbn;
    destruct (getenv h "DC_HTTP_ROOT_DIR") as [r|]; cbn;
    try destruct (Strict.is_valid_directory h r); cbn;
    destruct (getenv h "DC_HTTP_INDEX_PAGE"), (getenv h "DC_HTTP_NOT_FOUND_PAGE");
    by_cases_on_free.
Qed.

Lemma set_file_config_assign (h : host) (cfg : Strict.config) (w : world) c :
  read_file h Strict.CONFIG_PATH = inr c ->
  Strict.set_file_config MAX_PORT h cfg w
  = (_ ← config_init;
     cfg' ← assign_all (file_candidates MAX_PORT h) cfg;
     _ ← config_destroy;
     mret cfg') w.
Proof.
  intros E.
  unfold Strict.set_file_config, assign_all, file_candidates, assign_text,
    mode_of_string, directory, valid_port. rewrite E; cbn.
  destruct (Libconfig.lookup_int c "port") as [p|]; cbn;
    try destruct (Strict.is_valid_port MAX_PORT p); cbn;
    destruct (Libconfig.lookup_string c "mode") as [m|]; cbn;
    try destruct (Strict.is_valid_mode m); cbn;
    destruct (Libconfig.lookup_string c "root_dir") as [r|]; cbn;
    try destruct (Strict.is_valid_directory h r); cbn;
    destruct (Libconfig.lookup_string c "index_page"),
      (Libconfig.lookup_string c "not_found_page");
    by_cases_on_free.
Qed.

Lemma apply_option_assign (h : host) (opt : ascii) (optarg : string)
    (cfg : Strict.config) (w : world) :
  Strict.apply_option MAX_PORT h opt optarg cfg w
  = assign_all (option_candidates MAX_PORT h (opt, Some optarg)) cfg w.
Proof.
  unfold Strict.apply_option, option_candidates, assign_all, assign_text,
    mode_of_string, directory.
  destruct (opt =? "p")%char; cbn; [now rewrite assign_port_candidate|].
  destruct (opt =? "m")%char; cbn; [now destruct (Strict.is_valid_mode optarg)|].
  destruct (opt =? "r")%char; cbn;
    [destruct (Strict.is_valid_directory h optarg); by_cases_on_free|].
  destruct (opt =? "i")%char; cbn; [by_cases_on_free|].
  destruct (opt =? "n")%char; by_cases_on_free.
Qed.

End StrictLayers.

Lemma fresh_insert (m : gmap positive block) (a : positive) (x : block) :
  fresh (dom (<[a := x]> m)) <> a /\ m !! fresh (dom (<[a := x]> m)) = None.
Proof.
  pose proof (fresh_not_live (<[a := x]> m)) as Hf.
  destruct (decide (fresh (dom (<[a := x]> m)) = a)) as [E|N].
  - rewrite E, lookup_insert_eq in Hf. discriminate.
  - now rewrite lookup_insert_ne in Hf by done.
Qed.

(** The default provider allocates the three text fields afresh, whatever the
    structure held before. *)
Lemma set_default_config_spec (uninit : Strict.config) (w : world) :
  exists cfg H,
    Strict.set_default_config uninit w = Return cfg (with_heap H w) /\
    represents (with_heap H w) cfg defaults (heap w).
Proof.
  set (a := fresh (dom (heap w))).
  set (ha := <[a := copy_of Strict.DEFAULT_ROOT_DIR]> (heap w)).
  set (b := fresh (dom ha)).
  set (hb := <[b := copy_of Strict.DEFAULT_INDEX_PAGE]> ha).
  set (c := fresh (dom hb)).
  set (hc := <[c := copy_of Strict.DEFAULT_NOT_FOUND_PAGE]> hb).
  exists {| Strict.self := Strict.self uninit;
            Strict.root_dir := Block a; Strict.index_page := Block b;
            Strict.not_found_page := Block c; Strict.mode := Strict.DEFAULT_MODE;
            Strict.port := Strict.DEFAULT_PORT |}, hc.
  split; [reflexivity|].
  pose proof (fresh_not_live (heap w)) as Fa. fold a in Fa.
  destruct (fresh_insert (heap w) a (copy_of Strict.DEFAULT_ROOT_DIR)) as [Nba Fb].
  fold ha b in Nba, Fb.
  destruct (fresh_insert ha b (copy_of Strict.DEFAULT_INDEX_PAGE)) as [Ncb Fc'].
  fold hb c in Ncb, Fc'.
  assert (c <> a) as Nca.
  { intros E. unfold ha in Fc'. rewrite E, lookup_insert_eq in Fc'. discriminate. }
  assert (heap w !! c = None) as Fc.
  { unfold ha in Fc'. now rewrite lookup_insert_ne in Fc' by done. }
  exists a, b, c. cbn. repeat split; try assumption; try congruence.
  unfold hc, hb, ha. map_pointwise.
Qed.

Lemma represents_same_heap (w w' : world) cfg v F :
  heap w' = heap w -> represents w cfg v F -> represents w' cfg v F.
Proof.
  intros E (a & b & c & R). exists a, b, c. rewrite E. exact R.
Qed.

Section StrictLoaders.

Variable MAX_PORT : Z.

(** The file loader: a missing or malformed file costs one line on the
    diagnostic stream and nothing else. *)
Lemma set_file_config_failure (h : host) (cfg : Strict.config) (w : world) e :
  read_file h Strict.CONFIG_PATH = inl e ->
  Strict.set_file_config MAX_PORT h cfg w
  = Return cfg
      (with_out (out w ++ [(Stderr,
                            fmt_s (Libconfig.error_file e) +:+ ":" +:+
                            fmt_d (Libconfig.error_line e) +:+ " - " +:+
                            Libconfig.error_text e +:+ newline)]) w).
Proof.
  intros E. unfold Strict.set_file_config. rewrite E. now destruct w.
Qed.

Lemma set_file_config_spec (h : host) w cfg v F :
  represents w cfg v F ->
  exists cfg' H,
    Strict.set_file_config MAX_PORT h cfg w
      = Return cfg' (with_out (out w ++ file_diagnostic h) (with_heap H w)) /\
    represents (with_out (out w ++ file_diagnostic h) (with_heap H w)) cfg'
      (apply (file_candidates MAX_PORT h) v) F.
Proof.
  intros R. unfold file_diagnostic, file_candidates.
  destruct (read_file h Strict.CONFIG_PATH) as [e|c] eqn:E.
  - exists cfg, (heap w). rewrite with_heap_heap.
    split; [now apply set_file_config_failure|].
    destruct v; exact R.
  - assert (represents (with_parsers (S (parsers w)) w) cfg v F) as R0
      by now apply (represents_same_heap w).
    destruct (assign_all_spec (file_candidates MAX_PORT h) _ cfg v F R0)
      as (cfg' & H & E' & R').
    exists cfg', H. unfold file_candidates in E', R'. rewrite E in E', R'.
    split.
    + rewrite (set_file_config_assign _ _ _ _ c E).
      unfold file_candidates. rewrite E.
      unfold mbind at 1, M_bind at 1. cbn [config_init].
      rewrite (bind_return _ _ _ _ _ E').
      rewrite app_nil_r. now destruct w.
    + rewrite app_nil_r. now apply (represents_same_heap _ _ _ _ _ eq_refl R').
Qed.

Lemma set_env_config_spec (h : host) w cfg v F :
  represents w cfg v F ->
  exists cfg' H,
    Strict.set_env_config MAX_PORT h cfg w = Return cfg' (with_heap H w) /\
    represents (with_heap H w) cfg' (apply (env_candidates MAX_PORT h) v) F.
Proof.
  intros R.
  destruct (assign_all_spec (env_candidates MAX_PORT h) _ cfg v F R) as (cfg' & H & E & R').
  exists cfg', H. now rewrite set_env_config_assign.
Qed.

End StrictLoaders.


(** ** The option scanner: reordering *)

Lemma segment_app (lo hi : nat) (l : list string) :
  (lo <= hi)%nat -> drop lo l = Getopt.segment lo hi l ++ drop hi l.
Proof.
  intros H. unfold Getopt.segment.
  rewrite <- (take_drop (hi - lo) (drop lo l)) at 1.
  rewrite drop_drop. now replace (lo + (hi - lo))%nat with hi by lia.
Qed.

Lemma exchange_split (argv : list string) (f l i : nat) :
  (f <= l)%nat -> (l <= i)%nat ->
  argv = take f argv ++ Getopt.segment f l argv ++ Getopt.segment l i argv ++ drop i argv.
Proof.
  intros Hfl Hli.
  rewrite <- (segment_app l i argv Hli), <- (segment_app f l argv Hfl).
  now rewrite take_drop.
Qed.

(** [exchange] reorders the array, and leaves alone what lies ahead of the
    scanner. *)
Lemma exchange_perm (argv : list string) (f l i : nat) :
  Getopt.exchange argv f l i ≡ₚ argv.
Proof.
  unfold Getopt.exchange.
  destruct ((f <? l)%nat && (l <? i)%nat) eqn:G; [|reflexivity].
  apply andb_true_iff in G as [Hf Hl].
  apply Nat.ltb_lt in Hf, Hl.
  rewrite (exchange_split argv f l i) at 5 by lia.
  apply Permutation_app_head.
  rewrite !app_assoc. apply Permutation_app_tail, Permutation_app_comm.
Qed.

Lemma exchange_drop (argv : list string) (f l i : nat) :
  (i <= length argv)%nat -> drop i (Getopt.exchange argv f l i) = drop i argv.
Proof.
  intros Hi. unfold Getopt.exchange.
  destruct ((f <? l)%nat && (l <? i)%nat) eqn:G; [|reflexivity].
  apply andb_true_iff in G as [Hf Hl].
  apply Nat.ltb_lt in Hf, Hl.
  rewrite !app_assoc. apply drop_app_length'.
  unfold Getopt.segment. rewrite !length_app, !length_take, !length_drop. lia.
Qed.

Lemma exchange_program_name (argv : list string) (f l i : nat) :
  (1 <= f)%nat -> Getopt.exchange argv f l i !! 0%nat = argv !! 0%nat.
Proof.
  intros Hf. unfold Getopt.exchange.
  destruct ((f <? l)%nat && (l <? i)%nat); [|reflexivity].
  destruct argv as [|a argv].
  - unfold Getopt.segment. now rewrite !drop_nil, !take_nil.
  - destruct f as [|f]; [lia|]. reflexivity.
Qed.

Lemma skip_nonoptions_le (l : list string) :
  (Getopt.skip_nonoptions l <= length l)%nat.
Proof.
  induction l as [|a l IH]; cbn; [lia|]. destruct (Getopt.nonoption a); cbn; lia.
Qed.

Lemma skip_nonoptions_stops (l : list string) (a : string) :
  l !! Getopt.skip_nonoptions l = Some a -> Getopt.nonoption a = false.
Proof.
  induction l as [|b l IH]; cbn; [discriminate|].
  destruct (Getopt.nonoption b) eqn:E; cbn; [exact IH|]. now intros [= <-].
Qed.

Lemma weight_drop_S (l : list string) (i : nat) (a : string) :
  l !! i = Some a ->
  Getopt.weight (drop i l) = (String.length a + Getopt.weight (drop (S i) l))%nat.
Proof. intros E. now rewrite (drop_S _ _ _ E). Qed.

Lemma weight_drop_le (l : list string) (i j : nat) :
  (i <= j)%nat -> (Getopt.weight (drop j l) <= Getopt.weight (drop i l))%nat.
Proof.
  unfold Getopt.weight.
  revert i j. induction l as [|a l IH]; intros i j Hij.
  - now rewrite !drop_nil.
  - destruct i as [|i], j as [|j]; cbn; try lia.
    + specialize (IH O j ltac:(lia)). rewrite drop_0 in IH. lia.
    + apply IH. lia.
Qed.

(** Under [PERMUTE] the scanner gets past the non-options in front of it. *)
Lemma pass_nonoptions_spec (argv argv' : list string) (v v' : Getopt.vars) :
  let i := Getopt.v_optind v in
  (i <= length argv)%nat ->
  (1 <= Getopt.v_first v <= Getopt.v_last v)%nat -> (Getopt.v_last v <= i)%nat ->
  Getopt.pass_nonoptions argv v = (argv', v') ->
  argv' ≡ₚ argv /\ drop i argv' = drop i argv /\ argv' !! 0%nat = argv !! 0%nat /\
  Getopt.v_optind v' = (i + Getopt.skip_nonoptions (drop i argv))%nat /\
  Getopt.v_nextchar v' = EmptyString /\
  Getopt.v_last v' = Getopt.v_optind v' /\
  (1 <= Getopt.v_first v' <= Getopt.v_optind v')%nat.
Proof.
  intros i Hi Hf Hl. unfold Getopt.pass_nonoptions. fold i.
  destruct (negb (Getopt.v_first v =? Getopt.v_last v)%nat
            && negb (Getopt.v_last v =? i)%nat) eqn:G.
  - intros [= <- <-]. cbn. rewrite exchange_drop by assumption.
    repeat split; try reflexivity; try lia.
    + apply exchange_perm.
    + apply exchange_program_name. lia.
  - destruct (negb (Getopt.v_last v =? i)%nat) eqn:G2; intros [= <- <-]; cbn;
      repeat split; try reflexivity; try lia.
Qed.

(** The element [--] ends the scan: [optind] goes to the end of the array. *)
Lemma end_of_options_spec (argv argv' : list string) (v v' : Getopt.vars) :
  let i := Getopt.v_optind v in
  (i < length argv)%nat ->
  (1 <= Getopt.v_first v <= Getopt.v_last v)%nat -> (Getopt.v_last v <= i)%nat ->
  Getopt.end_of_options argv v = (argv', v') ->
  argv' ≡ₚ argv /\ argv' !! 0%nat = argv !! 0%nat /\
  Getopt.v_optind v' = length argv' /\
  Getopt.v_nextchar v' = EmptyString /\
  Getopt.v_last v' = length argv' /\
  (1 <= Getopt.v_first v' <= length argv')%nat.
Proof.
  intros i Hi Hf Hl. unfold Getopt.end_of_options. fold i.
  destruct (negb (Getopt.v_first v =? Getopt.v_last v)%nat
            && negb (Getopt.v_last v =? S i)%nat) eqn:G.
  - intros [= <- <-]. cbn.
    pose proof (Permutation_length (exchange_perm argv (Getopt.v_first v)
                                      (Getopt.v_last v) (S i))) as Hlen.
    rewrite Hlen.
    repeat split; try reflexivity; try lia.
    + apply exchange_perm.
    + apply exchange_program_name. lia.
  - destruct (Getopt.v_first v =? Getopt.v_last v)%nat eqn:G2; intros [= <- <-]; cbn;
      repeat split; try reflexivity; try lia.
Qed.

(** Getting to the next element: the array is reordered behind the scanner
    only, and the scanner stops at the end of the array or in front of an
    option. *)
Lemma advance_spec (ord : Getopt.ordering) (argv argv' : list string)
    (v v' : Getopt.vars) :
  (1 <= Getopt.v_optind v <= length argv)%nat ->
  (1 <= Getopt.v_first v)%nat -> (1 <= Getopt.v_last v)%nat ->
  (Nat.min (Getopt.v_first v) (Getopt.v_optind v)
   <= Nat.min (Getopt.v_last v) (Getopt.v_optind v))%nat ->
  Getopt.advance ord argv v = (argv', v') ->
  argv' ≡ₚ argv /\ argv' !! 0%nat = argv !! 0%nat /\
  (Getopt.v_optind v <= Getopt.v_optind v' <= length argv')%nat /\
  drop (Getopt.v_optind v') argv' = drop (Getopt.v_optind v') argv /\
  Getopt.v_nextchar v' = EmptyString /\
  (1 <= Getopt.v_first v' <= Getopt.v_last v')%nat /\
  (Getopt.v_last v' <= length argv')%nat /\
  argv' !! Getopt.v_optind v' <> Some "--"%string /\
  (ord = Getopt.PERMUTE ->
   forall a, argv' !! Getopt.v_optind v' = Some a -> Getopt.nonoption a = false).
Proof.
  intros Hi Hf Hl Hfl. unfold Getopt.advance.
  set (v0 := {| Getopt.v_optind := Getopt.v_optind v; Getopt.v_nextchar := "";
                Getopt.v_first := Nat.min (Getopt.v_first v) (Getopt.v_optind v);
                Getopt.v_last := Nat.min (Getopt.v_last v) (Getopt.v_optind v) |}).
  assert (exists argv1 v1,
            match ord with
            | Getopt.PERMUTE => Getopt.pass_nonoptions argv v0
            | Getopt.REQUIRE_ORDER => (argv, v0)
            end = (argv1, v1) /\
            argv1 ≡ₚ argv /\ argv1 !! 0%nat = argv !! 0%nat /\
            (Getopt.v_optind v <= Getopt.v_optind v1 <= length argv1)%nat /\
            drop (Getopt.v_optind v1) argv1 = drop (Getopt.v_optind v1) argv /\
            Getopt.v_nextchar v1 = EmptyString /\
            (1 <= Getopt.v_first v1 <= Getopt.v_last v1)%nat /\
            (Getopt.v_last v1 <= Getopt.v_optind v1)%nat /\
            (ord = Getopt.PERMUTE ->
             forall a, argv1 !! Getopt.v_optind v1 = Some a -> Getopt.nonoption a = false))
    as (argv1 & v1 & E1 & P1 & N1 & I1 & D1 & C1 & F1 & L1 & O1).
  { destruct ord.
    - exists argv, v0. cbn. repeat split; try reflexivity; try lia. discriminate.
    - destruct (Getopt.pass_nonoptions argv v0) as [argv1 v1] eqn:E.
      exists argv1, v1. split; [reflexivity|].
      destruct (pass_nonoptions_spec argv argv1 v0 v1) as (P & D & N & I & C & L & F);
        cbn; try lia; try assumption.
      cbn in D, I.
      pose proof (skip_nonoptions_le (drop (Getopt.v_optind v) argv)) as Hs.
      rewrite length_drop in Hs.
      pose proof (Permutation_length P) as Hlen.
      repeat split; try assumption; try lia.
      + rewrite I.
        rewrite <- (drop_drop argv1), <- (drop_drop argv). now rewrite D.
      + intros _ a Ha. rewrite I in Ha.
        rewrite <- lookup_drop, D in Ha. now apply skip_nonoptions_stops in Ha. }
  rewrite E1.
  destruct (bool_decide (argv1 !! Getopt.v_optind v1 = Some "--"%string)) eqn:B.
  - apply bool_decide_eq_true in B.
    assert (Getopt.v_optind v1 < length argv1)%nat as Hlt
      by (apply lookup_lt_is_Some; eauto).
    intros E2.
    destruct (end_of_options_spec argv1 argv' v1 v') as (P & N & I & C & L & F);
      try assumption.
    pose proof (Permutation_length P) as Hlen.
    pose proof (Permutation_length P1) as Hlen1.
    repeat split; try assumption; try lia.
    + now rewrite P.
    + congruence.
    + rewrite I. rewrite !drop_ge by lia. reflexivity.
    + rewrite I, lookup_ge_None_2 by lia. discriminate.
    + intros _ a. rewrite I, lookup_ge_None_2 by lia. discriminate.
  - apply bool_decide_eq_false in B. intros [= <- <-].
    repeat split; try assumption; try lia.
Qed.

(** ** The option scanner: one call *)

Lemma process_long_option_index argv table body i r k lines :
  Getopt.process_long_option argv table body i = inr (r, k, lines) ->
  (S i <= k)%nat /\ ((i < length argv)%nat -> (k <= length argv)%nat).
Proof.
  unfold Getopt.process_long_option.
  destruct (Getopt.split_eq body) as [nm [x|]];
    destruct (Getopt.find_long table nm) as [o|]; try discriminate;
    destruct (Getopt.arg o); try (intros [= <- <- <-]; split; lia).
  destruct (argv !! S i) eqn:E; intros [= <- <- <-]; (split; [lia|]); intros H; [|lia].
  apply lookup_lt_Some in E. lia.
Qed.

(** A call keeps the scan in order. When it returns an option, strictly less
    is left to scan; when it returns -1, no cluster is left open. *)
Lemma step_in_scan ord table argv0 argv v r argv' v' lines :
  in_scan argv0 argv v ->
  Getopt.step ord table argv v = inr (r, argv', v', lines) ->
  in_scan argv0 argv' v' /\ argv' !! 0%nat = argv !! 0%nat /\
  match r with
  | Some _ => (Getopt.remaining argv' v' < Getopt.remaining argv v)%nat
  | None => Getopt.v_nextchar v' = EmptyString
  end.
Proof.
  intros (P & Hi & Hf & Hl & Hn). unfold Getopt.step.
  assert (1 <= length argv)%nat as Hlen by (destruct (Getopt.v_nextchar v); lia).
  replace (length argv <? 1)%nat with false by (symmetry; apply Nat.ltb_ge; lia).
  replace (Getopt.v_optind v =? 0)%nat with false by (symmetry; apply Nat.eqb_neq; lia).
  unfold Getopt.remaining.
  destruct (Getopt.v_nextchar v) as [|c rest] eqn:Enc.
  - replace (length argv <? Getopt.v_optind v)%nat with false
      by (symmetry; apply Nat.ltb_ge; lia).
    destruct (Getopt.advance ord argv v) as [argv1 v1] eqn:Ea.
    destruct (advance_spec ord argv argv1 v v1)
      as (P1 & N1 & I1 & D1 & C1 & F1 & L1 & T1 & O1); try lia; try assumption.
    pose proof (weight_drop_le argv (Getopt.v_optind v) (Getopt.v_optind v1) ltac:(lia))
      as Hw.
    rewrite <- D1 in Hw.
    destruct (argv1 !! Getopt.v_optind v1) as [a|] eqn:La.
    + rewrite (weight_drop_S _ _ _ La) in Hw.
      pose proof (lookup_lt_Some _ _ _ La) as Hlt.
      destruct (Getopt.nonoption a) eqn:Na.
      * destruct ord.
        -- intros [= <- <- <- <-].
           split; [|split; [exact N1|exact C1]].
           split; [now rewrite P1|]. rewrite C1. repeat split; try lia.
        -- specialize (O1 eq_refl a eq_refl). congruence.
      * destruct a as [|c1 [|c2 body]]; try discriminate Na.
        destruct (c2 =? "-")%char.
        -- destruct (Getopt.process_long_option argv1 table body (Getopt.v_optind v1))
             as [f|[[r0 k] lines0]] eqn:Ep; [discriminate|].
           intros [= <- <- <- <-].
           destruct (process_long_option_index _ _ _ _ _ _ _ Ep) as [Hk1 Hk2].
           specialize (Hk2 Hlt).
           split; [|split; [exact N1|]].
           ++ split; [now rewrite P1|]. cbn. repeat split; try lia.
           ++ cbn [Getopt.v_nextchar Getopt.v_optind String.length] in *.
              pose proof (weight_drop_le argv1 (S (Getopt.v_optind v1)) k Hk1). lia.
        -- unfold Getopt.short_option. intros [= <- <- <- <-].
           split; [|split; [exact N1|]].
           ++ split; [now rewrite P1|]. cbn. destruct body; repeat split; try lia.
           ++ cbn [Getopt.v_nextchar Getopt.v_optind String.length] in *.
              destruct body; cbn [String.length] in *; lia.
    + intros [= <- <- <- <-].
      split; [|split; [exact N1|reflexivity]].
      split; [now rewrite P1|]. cbn.
      destruct (Getopt.v_first v1 =? Getopt.v_last v1)%nat; repeat split; try lia.
  - unfold Getopt.short_option. intros [= <- <- <- <-].
    split; [|split; [reflexivity|]].
    + split; [exact P|]. cbn. destruct rest; repeat split; try lia.
    + cbn [Getopt.v_nextchar Getopt.v_optind String.length].
      destruct rest; cbn [String.length]; lia.
Qed.

(** The element a call takes for a long option is an element of the array. *)
Lemma named_long (argv : list string) (c1 c2 : ascii) (body : string) :
  forallb (Getopt.named long_options) argv = true ->
  In (String c1 (String c2 body)) argv ->
  (c1 =? "-")%char = true -> (c2 =? "-")%char = true -> body <> EmptyString ->
  is_Some (Getopt.find_long long_options (fst (Getopt.split_eq body))).
Proof.
  intros H Hin E1 E2 Hb.
  rewrite forallb_forall in H. specialize (H _ Hin).
  destruct body as [|c3 body]; [congruence|].
  unfold Getopt.named in H. rewrite E1, E2 in H. cbn [andb] in H.
  now apply bool_decide_eq_true in H.
Qed.

Lemma long_options_optional (o : Getopt.long_option) :
  In o long_options -> Getopt.arg o = Getopt.optional_argument.
Proof. cbn. intros [<-|[<-|[<-|[<-|[<-|[]]]]]]; reflexivity. Qed.

Lemma find_long_in (table : list Getopt.long_option) (nm : string) (o : Getopt.long_option) :
  Getopt.find_long table nm = Some o -> In o table /\ Getopt.name o = nm.
Proof.
  induction table as [|o' table IH]; cbn; [discriminate|].
  destruct (String.eqb (Getopt.name o') nm) eqn:E.
  - intros [= <-]. apply String.eqb_eq in E. split; [now left|exact E].
  - intros H. destruct (IH H). split; [now right|assumption].
Qed.

(** With every long option named by the array, no call faults. *)
Lemma step_total ord argv0 argv v :
  in_scan argv0 argv v ->
  names_known argv0 = true ->
  exists r argv' v' lines,
    Getopt.step ord long_options argv v = inr (r, argv', v', lines).
Proof.
  intros (P & Hi & Hf & Hl & Hn) K. unfold Getopt.step.
  destruct (length argv <? 1)%nat; [eauto 6|].
  replace (Getopt.v_optind v =? 0)%nat with false by (symmetry; apply Nat.eqb_neq; lia).
  destruct (Getopt.v_nextchar v) as [|c rest] eqn:Enc; [|unfold Getopt.short_option; eauto 6].
  replace (length argv <? Getopt.v_optind v)%nat with false
    by (symmetry; apply Nat.ltb_ge; lia).
  destruct (Getopt.advance ord argv v) as [argv1 v1] eqn:Ea.
  destruct (advance_spec ord argv argv1 v v1)
    as (P1 & N1 & I1 & D1 & C1 & F1 & L1 & T1 & O1); try lia; try assumption.
  destruct (argv1 !! Getopt.v_optind v1) as [a|] eqn:La; [|eauto 6].
  destruct (Getopt.nonoption a) eqn:Na; [destruct ord; eauto 6|].
  destruct a as [|c1 [|c2 body]]; try discriminate Na.
  destruct (c2 =? "-")%char eqn:E2; [|unfold Getopt.short_option; eauto 6].
  assert ((c1 =? "-")%char = true) as E1 by (cbn in Na; now apply negb_false_iff in Na).
  assert (body <> EmptyString) as Hb.
  { intros ->. apply T1. apply Ascii.eqb_eq in E1, E2. now subst. }
  assert (In (String c1 (String c2 body)) argv0) as Hin.
  { apply list_elem_of_In. rewrite <- P, <- P1. eapply list_elem_of_lookup_2, La. }
  destruct (named_long argv0 c1 c2 body K Hin E1 E2 Hb) as [o Ho].
  unfold Getopt.process_long_option.
  destruct (Getopt.split_eq body) as [nm att]. cbn [fst] in Ho. rewrite Ho.
  rewrite (long_options_optional o (proj1 (find_long_in _ _ _ Ho))).
  destruct att; eauto 6.
Qed.

Lemma remaining_at_start argv :
  (Getopt.remaining argv Getopt.at_start < Getopt.bound argv)%nat.
Proof.
  unfold Getopt.remaining, Getopt.bound. cbn [Getopt.v_nextchar Getopt.v_optind
    Getopt.at_start String.length].
  pose proof (weight_drop_le argv 0 1 ltac:(lia)) as H. rewrite drop_0 in H.
  assert (Getopt.weight argv
          <= fold_right (fun a n => (S (String.length a) + n)%nat) O argv)%nat.
  { clear H. unfold Getopt.weight. induction argv as [|a l IH]; cbn [fold_right]; lia. }
  lia.
Qed.

(** A scan that starts at the first argument does not depend on where the
    bounds of the non-options were left. *)
Lemma step_from_start ord table argv f l :
  argv <> [] -> (1 <= f)%nat -> (1 <= l)%nat ->
  Getopt.step ord table argv
    {| Getopt.v_optind := 1; Getopt.v_nextchar := ""; Getopt.v_first := f;
       Getopt.v_last := l |}
  = Getopt.step ord table argv Getopt.at_start.
Proof.
  intros Ha Hf Hl. unfold Getopt.step, Getopt.advance, Getopt.at_start.
  cbn [Getopt.v_optind Getopt.v_nextchar Getopt.v_first Getopt.v_last Nat.eqb].
  destruct argv as [|a argv]; [congruence|]. cbn [length Nat.ltb Nat.leb].
  now replace (Nat.min f 1) with 1%nat by lia; replace (Nat.min l 1) with 1%nat by lia.
Qed.

Lemma vars_of_with_vars (v : Getopt.vars) (w : world) :
  Getopt.vars_of (Getopt.with_vars v w) = v.
Proof. now destruct v. Qed.

(** ** The command-line loader *)

Lemma apply_nothing (v : settings) : apply nothing v = v.
Proof. now destruct v. Qed.

(** The loaders leave the structure where it is. *)
Lemma assign_text_self get set (o : option string) cfg w cfg' w' :
  (forall p c, Strict.self (set p c) = Strict.self c) ->
  assign_text get set o cfg w = Return cfg' w' -> Strict.self cfg' = Strict.self cfg.
Proof.
  intros Hs. destruct o as [s|]; cbn; [|now intros [= <- _]].
  unfold mbind, M_bind. destruct (free (get cfg) w); try discriminate.
  cbn. intros [= <- _]. apply Hs.
Qed.

Lemma assign_all_self (c : candidates) cfg w cfg' w' :
  assign_all c cfg w = Return cfg' w' -> Strict.self cfg' = Strict.self cfg.
Proof.
  unfold assign_all. cbv zeta.
  set (cfg0 := match c_mode c with Some m => Strict.set_mode m _ | None => _ end).
  assert (Strict.self cfg0 = Strict.self cfg) as H0
    by (unfold cfg0; destruct (c_mode c), (c_port c); reflexivity).
  unfold mbind at 1, M_bind at 1.
  destruct (assign_text Strict.root_dir _ _ cfg0 w) as [cfg1 w1| |] eqn:E1; try discriminate.
  unfold mbind at 1, M_bind at 1.
  destruct (assign_text Strict.index_page _ _ cfg1 w1) as [cfg2 w2| |] eqn:E2;
    try discriminate.
  unfold mbind at 1, M_bind at 1.
  destruct (assign_text Strict.not_found_page _ _ cfg2 w2) as [cfg3 w3| |] eqn:E3;
    try discriminate.
  intros [= <- _].
  apply assign_text_self in E1, E2, E3; try reflexivity. congruence.
Qed.

Lemma set_default_config_self (uninit cfg : Strict.config) (w w' : world) :
  Strict.set_default_config uninit w = Return cfg w' -> Strict.self cfg = Strict.self uninit.
Proof. intros [= <- _]. reflexivity. Qed.

Section StrictScan.

Variable MAX_PORT : Z.
Variable h : host.
Variable argv0 : list string.

Hypothesis known : names_known argv0 = true.

(** With enough fuel, and every long option of the array named by the table,
    the option loop returns; the record then stands for the options applied
    one after the other, in the order the scanner returned them. The only
    lines written are the scanner's, and the scanner is left between
    elements. *)
Lemma option_loop_spec (fuel : nat) :
  forall argv w cfg v F,
    represents w cfg v F ->
    in_scan argv0 argv (Getopt.vars_of w) ->
    (Getopt.remaining argv (Getopt.vars_of w) < fuel)%nat ->
    exists cfg' w',
      Strict.option_loop MAX_PORT fuel h argv cfg w = Return cfg' w' /\
      represents w' cfg'
        (fold_left (fun v e => apply (option_candidates MAX_PORT h e) v)
           (Getopt.events fuel (ordering_of h) long_options argv (Getopt.vars_of w))
           v) F /\
      out w' = out w ++ map (pair Stderr)
                          (Getopt.complaints fuel (ordering_of h) long_options argv
                             (Getopt.vars_of w)) /\
      parsers w' = parsers w /\
      between_options w' /\
      Strict.self cfg' = Strict.self cfg.
Proof.
  induction fuel as [|fuel IH]; intros argv w cfg v F R S Hfuel; [lia|].
  cbn [Strict.option_loop Getopt.events Getopt.complaints].
  destruct (step_total (ordering_of h) argv0 argv _ S known)
    as (r & argv' & v' & lines & Es).
  unfold mbind at 1, M_bind at 1, Getopt.getopt_long. rewrite Es.
  destruct (step_in_scan _ _ _ _ _ _ _ _ _ S Es) as (S' & _ & Hr).
  set (w1 := Getopt.with_vars v' (with_out (out w ++ map (pair Stderr) lines) w)).
  assert (represents w1 cfg v F) as R1 by now apply (represents_same_heap w).
  assert (Getopt.vars_of w1 = v') as V1 by apply vars_of_with_vars.
  destruct r as [[opt [optarg|]]|].
  - (* an option with a value *)
    destruct (assign_all_spec (option_candidates MAX_PORT h (opt, Some optarg)) w1 cfg v F R1)
      as (cfg1 & H1 & E1 & R1').
    destruct (IH argv' (with_heap H1 w1) cfg1 _ F R1')
      as (cfg' & w' & E' & R' & Ho & Hq & Hb & Hs).
    { change (Getopt.vars_of (with_heap H1 w1)) with (Getopt.vars_of w1).
      now rewrite V1. }
    { change (Getopt.vars_of (with_heap H1 w1)) with (Getopt.vars_of w1).
      rewrite V1. lia. }
    change (Getopt.vars_of (with_heap H1 w1)) with (Getopt.vars_of w1) in R', Ho.
    rewrite V1 in R', Ho.
    exists cfg', w'. split; [|split; [exact R'|split; [|split; [exact Hq|split; [exact Hb|]]]]].
    + unfold mbind, M_bind. rewrite apply_option_assign, E1. exact E'.
    + rewrite Ho. cbn [out with_heap]. unfold w1. cbn [out Getopt.with_vars with_out].
      now rewrite map_app, app_assoc.
    + rewrite Hs. now apply (assign_all_self _ _ _ _ _ E1).
  - (* an option without a value: nothing is assigned *)
    destruct (IH argv' w1 cfg v F R1) as (cfg' & w' & E' & R' & Ho & Hq & Hb & Hs).
    { now rewrite V1. }
    { rewrite V1. lia. }
    rewrite V1 in R', Ho.
    exists cfg', w'. split; [exact E'|]. split; [|split; [|split; [exact Hq|now split]]].
    + cbn [fold_left option_candidates]. now rewrite apply_nothing.
    + rewrite Ho. unfold w1. cbn [out Getopt.with_vars with_out].
      now rewrite map_app, app_assoc.
  - (* the scan is over *)
    exists cfg, w1. split; [reflexivity|]. split; [exact R1|].
    split; [reflexivity|]. split; [reflexivity|]. split; [|reflexivity].
    destruct S' as (_ & _ & Hf & Hl & _).
    unfold between_options, w1. cbn. repeat split; assumption.
Qed.

End StrictScan.

Section StrictCommandLine.

Variable MAX_PORT : Z.
Variable h : host.
Variable argv : list string.

Lemma fold_apply_merge (es : list (ascii * option string)) :
  forall (acc : candidates) (v : settings),
    fold_left (fun v e => apply (option_candidates MAX_PORT h e) v) es (apply acc v)
    = apply (fold_left (fun acc e => merge (option_candidates MAX_PORT h e) acc) es acc) v.
Proof.
  induction es as [|e es IH]; intros acc v; [reflexivity|].
  cbn [fold_left]. rewrite <- IH. f_equal.
  unfold apply, merge, later; cbn.
  destruct (option_candidates MAX_PORT h e) as [[] [] [] [] []]; reflexivity.
Qed.

(** A scan from the first argument on returns the same options and writes
    the same lines wherever the bounds of the non-options were left. *)
Lemma scan_from_start (fuel : nat) (f l : nat) :
  argv <> [] -> (1 <= f)%nat -> (1 <= l)%nat ->
  let v := {| Getopt.v_optind := 1; Getopt.v_nextchar := ""; Getopt.v_first := f;
              Getopt.v_last := l |} in
  Getopt.events fuel (ordering_of h) long_options argv v
  = Getopt.events fuel (ordering_of h) long_options argv Getopt.at_start /\
  Getopt.complaints fuel (ordering_of h) long_options argv v
  = Getopt.complaints fuel (ordering_of h) long_options argv Getopt.at_start /\
  Getopt.permuted fuel (ordering_of h) long_options argv v
  = Getopt.permuted fuel (ordering_of h) long_options argv Getopt.at_start.
Proof.
  intros Ha Hf Hl v. destruct fuel as [|fuel]; [now repeat split|].
  cbn [Getopt.events Getopt.complaints Getopt.permuted]. unfold v.
  now rewrite (step_from_start _ _ _ _ _ Ha Hf Hl).
Qed.

(** The command-line loader, from any state in which the scanner is between
    elements, on an array whose long options the table names. *)
Lemma set_cmd_line_config_spec w cfg v F :
  represents w cfg v F ->
  between_options w ->
  names_known argv = true ->
  exists cfg' w',
    Strict.set_cmd_line_config MAX_PORT h cfg argv w = Return cfg' w' /\
    represents w' cfg' (apply (cli_candidates MAX_PORT h argv) v) F /\
    out w' = out w ++ complaints_of h argv /\
    parsers w' = parsers w /\
    between_options w' /\
    Strict.self cfg' = Strict.self cfg.
Proof.
  intros R B K.
  unfold Strict.set_cmd_line_config.
  unfold mbind at 1, M_bind at 1, set_optind.
  set (w1 := with_scanner 1 (nextchar w) w).
  assert (between_options w1) as B1 by exact B.
  destruct (decide (argv = [])) as [Ea|Ea].
  - exists cfg, (with_out (out w1 ++ []) w1). rewrite Ea. cbn.
    unfold mbind, M_bind, Getopt.getopt_long. cbn.
    split; [now destruct w|].
    unfold cli_candidates, options_of, complaints_of. cbn.
    rewrite apply_nothing, !app_nil_r.
    repeat split; try reflexivity; try apply B.
    now apply (represents_same_heap w).
  - assert (represents w1 cfg v F) as R1 by now apply (represents_same_heap w).
    destruct B as (Hn & Hf & Hl).
    assert (Getopt.vars_of w1
            = {| Getopt.v_optind := 1; Getopt.v_nextchar := "";
                 Getopt.v_first := first_nonopt w; Getopt.v_last := last_nonopt w |}) as V1.
    { unfold w1, Getopt.vars_of. cbn. now rewrite Hn. }
    destruct (scan_from_start (Getopt.bound argv) _ _ Ea Hf Hl) as (Ee & Ec & _).
    destruct (option_loop_spec MAX_PORT h argv K (Getopt.bound argv) argv w1 cfg v F R1)
      as (cfg' & w' & E & R' & Ho & Hq & Hb & Hs).
    { rewrite V1. unfold in_scan. cbn.
      destruct argv; [congruence|]. cbn. repeat split; try reflexivity; lia. }
    { rewrite V1. unfold Getopt.remaining. cbn [Getopt.v_nextchar Getopt.v_optind].
      apply (remaining_at_start argv). }
    rewrite V1, Ee in R'. rewrite V1, Ec in Ho.
    exists cfg', w'. split; [exact E|].
    split; [|split; [exact Ho|split; [exact Hq|split; [exact Hb|exact Hs]]]].
    unfold cli_candidates, options_of. rewrite <- fold_apply_merge.
    now rewrite apply_nothing.
Qed.

End StrictCommandLine.

(** ** The whole resolution *)

Lemma bind_assoc {A B C} (m : M A) (f : A -> M B) (g : B -> M C) (w : world) :
  ((m ≫= f) ≫= g) w = (m ≫= (fun a => f a ≫= g)) w.
Proof. unfold mbind, M_bind. now destruct (m w). Qed.

Lemma represents_view w cfg v F : represents w cfg v F -> view w cfg = Some v.
Proof.
  intros (a & b & c & Ha & Hb & Hc & Hab & Hac & Hbc & _ & _ & _ & Hh & Hm & Hp).
  unfold view, deref. rewrite Ha, Hb, Hc, Hh.
  rewrite layout_lookup_root, layout_lookup_index, layout_lookup_not_found by assumption.
  cbn. rewrite Hm, Hp. now destruct v.
Qed.

Lemma represents_load_root w cfg v F :
  represents w cfg v F -> load (Strict.root_dir cfg) w = Return (s_root_dir v) w.
Proof.
  intros (a & b & c & Ha & _ & _ & _ & _ & _ & _ & _ & _ & Hh & _).
  unfold load, deref. now rewrite Ha, Hh, layout_lookup_root.
Qed.

(** What lies in the frame of a record is live, and is none of its texts. *)
Lemma represents_frame w cfg v F (k : positive) (x : block) :
  represents w cfg v F -> F !! k = Some x ->
  heap w !! k = Some x /\
  Strict.root_dir cfg <> Block k /\ Strict.index_page cfg <> Block k /\
  Strict.not_found_page cfg <> Block k.
Proof.
  intros (a & b & c & Ha & Hb & Hc & _ & _ & _ & Fa & Fb & Fc & Hh & _) Hk.
  assert (k <> a) by congruence. assert (k <> b) by congruence.
  assert (k <> c) by congruence.
  rewrite Hh, Ha, Hb, Hc. unfold layout.
  rewrite !lookup_insert_ne by congruence. repeat split; congruence.
Qed.

Section StrictResolution.

Variable MAX_PORT : Z.

Lemma layers_resolve (h : host) (argv : list string) :
  apply (cli_candidates MAX_PORT h argv)
    (apply (env_candidates MAX_PORT h) (apply (file_candidates MAX_PORT h) defaults))
  = resolve MAX_PORT h argv.
Proof.
  unfold resolve, apply; cbn.
  f_equal;
    match goal with
    | |- default (default (default _ ?f) ?e) ?c = _ => destruct c, e, f; reflexivity
    end.
Qed.

Lemma get_config_loaders (h : host) (uninit : Strict.config) (argv : list string)
    (w : world) :
  Strict.get_config MAX_PORT h uninit argv w
  = (cfg ← loaders MAX_PORT h uninit argv;
     _ ← Strict.validate_config h cfg;
     mret cfg) w.
Proof.
  unfold Strict.get_config, loaders. unfold mbind, M_bind.
  destruct (malloc Strict.sizeof_config w) as [p w0| |]; try reflexivity.
  destruct (Strict.set_default_config _ w0) as [c1 w1| |]; try reflexivity.
  destruct (Strict.set_file_config MAX_PORT h c1 w1) as [c2 w2| |]; try reflexivity.
  destruct (Strict.set_env_config MAX_PORT h c2 w2) as [c3 w3| |]; reflexivity.
Qed.

(** The loaders, from any state in which the scanner is between elements, on
    an array whose long options the table names: they return a record that
    stands for the resolved values; next to the heap they started from there
    are its three texts and the structure itself. The lines written are the
    file loader's diagnostic and the scanner's complaints. *)
Lemma loaders_spec (h : host) (uninit : Strict.config) (argv : list string) (w : world) :
  between_options w ->
  names_known argv = true ->
  exists cfg w1,
    loaders MAX_PORT h uninit argv w = Return cfg w1 /\
    Strict.self cfg = Block (fresh (dom (heap w))) /\
    represents w1 cfg (resolve MAX_PORT h argv)
      (<[fresh (dom (heap w)) := structure]> (heap w)) /\
    out w1 = out w ++ file_diagnostic h ++ complaints_of h argv /\
    parsers w1 = parsers w /\
    between_options w1.
Proof.
  intros B K. unfold loaders.
  set (p := fresh (dom (heap w))).
  set (w0 := with_heap (<[p := structure]> (heap w)) w).
  assert (malloc Strict.sizeof_config w = Return (Block p) w0) as E by reflexivity.
  rewrite (bind_return _ _ _ _ _ E).
  destruct (set_default_config_spec (Strict.at_address (Block p) uninit) w0)
    as (cfg0 & H0 & E0 & R0).
  pose proof (set_default_config_self _ _ _ _ E0) as S0.
  destruct (set_file_config_spec MAX_PORT h _ _ _ _ R0) as (cfg1 & H1 & E1 & R1).
  assert (Strict.self cfg1 = Strict.self cfg0) as S1.
  { clear - E1. unfold file_diagnostic in E1.
    destruct (read_file h Strict.CONFIG_PATH) as [e|c] eqn:Er.
    - rewrite (set_file_config_failure MAX_PORT h _ _ e Er) in E1. now inversion E1.
    - rewrite (set_file_config_assign MAX_PORT h _ _ c Er) in E1.
      unfold mbind at 1, M_bind at 1 in E1. cbn [config_init] in E1.
      unfold mbind at 1, M_bind at 1 in E1.
      destruct (assign_all _ cfg0 _) as [c' w'| |] eqn:Ea; try discriminate.
      cbn in E1. inversion E1; subst. now apply (assign_all_self _ _ _ _ _ Ea). }
  destruct (set_env_config_spec MAX_PORT h _ _ _ _ R1) as (cfg2 & H2 & E2 & R2).
  assert (Strict.self cfg2 = Strict.self cfg1) as S2.
  { rewrite set_env_config_assign in E2. now apply (assign_all_self _ _ _ _ _ E2). }
  destruct (set_cmd_line_config_spec MAX_PORT h argv _ _ _ _ R2 B K)
    as (cfg3 & w3 & E3 & R3 & Ho & Hq & Hb & S3).
  rewrite layers_resolve in R3.
  exists cfg3, w3.
  split.
  { now rewrite (bind_return _ _ _ _ _ E0), (bind_return _ _ _ _ _ E1),
      (bind_return _ _ _ _ _ E2). }
  split; [now rewrite S3, S2, S1, S0|].
  split; [exact R3|].
  split; [rewrite Ho; cbn; now rewrite app_assoc|].
  split; [exact Hq|exact Hb].
Qed.

(** [get_config] under the same conditions: the validator lets the record
    through or ends the process. *)
Lemma get_config_spec (h : host) (uninit : Strict.config) (argv : list string) (w : world) :
  between_options w ->
  names_known argv = true ->
  exists cfg w1,
    loaders MAX_PORT h uninit argv w = Return cfg w1 /\
    Strict.self cfg = Block (fresh (dom (heap w))) /\
    represents w1 cfg (resolve MAX_PORT h argv)
      (<[fresh (dom (heap w)) := structure]> (heap w)) /\
    out w1 = out w ++ file_diagnostic h ++ complaints_of h argv /\
    parsers w1 = parsers w /\
    between_options w1 /\
    Strict.get_config MAX_PORT h uninit argv w
    = if Strict.is_valid_directory h (s_root_dir (resolve MAX_PORT h argv))
      then Return cfg w1
      else Exit EXIT_FAILURE
             (with_out (out w1 ++ [fatal_message (s_root_dir (resolve MAX_PORT h argv))]) w1).
Proof.
  intros B K.
  destruct (loaders_spec h uninit argv w B K) as (cfg & w1 & E & S & R & Ho & Hq & Hb).
  exists cfg, w1.
  split; [exact E|]. split; [exact S|]. split; [exact R|]. split; [exact Ho|].
  split; [exact Hq|]. split; [exact Hb|].
  rewrite get_config_loaders, (bind_return _ _ _ _ _ E).
  unfold Strict.validate_config.
  unfold mbind at 1 2, M_bind at 1 2.
  rewrite (represents_load_root _ _ _ _ R).
  destruct (Strict.is_valid_directory h (s_root_dir (resolve MAX_PORT h argv)));
    reflexivity.
Qed.

End StrictResolution.

(** Releasing a record frees its three texts and the structure, and leaves
    the rest of the heap. *)
Lemma destroy_config_spec w cfg v F (p : positive) (x : block) :
  represents w cfg v F ->
  Strict.self cfg = Block p -> F !! p = Some x ->
  Strict.destroy_config cfg w = Return tt (with_heap (delete p F) w).
Proof.
  intros R Hs Hp.
  destruct (represents_frame _ _ _ _ _ _ R Hp) as (Lp & Np1 & Np2 & Np3).
  destruct R as (a & b & c & Ha & Hb & Hc & Hab & Hac & Hbc & Fa & Fb & Fc & Hh & _).
  unfold Strict.destroy_config. rewrite Hs, Ha, Hb, Hc.
  assert (load (Block p) w = Return (content x) w) as El
    by (unfold load, deref; now rewrite Lp).
  rewrite (bind_return _ _ _ _ _ El).
  erewrite bind_return by (eapply free_live; rewrite Hh; apply layout_lookup_root).
  erewrite bind_return.
  2:{ eapply free_live. cbn. rewrite Hh, lookup_delete_ne by done.
      now apply layout_lookup_not_found. }
  erewrite bind_return.
  2:{ eapply free_live. cbn. rewrite Hh, !lookup_delete_ne by done.
      now apply layout_lookup_index. }
  assert (p <> a) by congruence. assert (p <> b) by congruence.
  assert (p <> c) by congruence.
  erewrite bind_return.
  2:{ eapply free_live. cbn. rewrite !lookup_delete_ne by done. exact Lp. }
  cbn. unfold mret, M_ret. f_equal. unfold with_heap; cbn. f_equal.
  rewrite Hh. map_pointwise.
Qed.

(** A record cannot be released twice: the second call reads the structure
    the first one has freed. *)
Lemma destroy_config_twice w cfg v F (p : positive) (x : block) :
  represents w cfg v F ->
  Strict.self cfg = Block p -> F !! p = Some x ->
  (_ ← Strict.destroy_config cfg; Strict.destroy_config cfg) w
  = Fault (InvalidRead (Block p)) (with_heap (delete p F) w).
Proof.
  intros R Hs Hp.
  rewrite (bind_return _ _ _ _ _ (destroy_config_spec _ _ _ _ _ _ R Hs Hp)).
  unfold Strict.destroy_config. rewrite Hs.
  apply bind_fault. unfold load, deref. cbn. now rewrite lookup_delete_eq.
Qed.


(** ** Precedence of the layers *)

(** Under the conditions of [get_config_spec] the record [get_config]
    returns holds, for every field, the candidate of the highest of the
    command line, the environment and the file that passes the test the code
    makes for it, and the built-in default when none does. *)
Lemma layers_in_order (MAX_PORT : Z) (h : host) (uninit : Strict.config)
    (argv : list string) (w : world) :
  between_options w ->
  names_known argv = true ->
  match Strict.get_config MAX_PORT h uninit argv w with
  | Return cfg w' => view w' cfg = Some (resolve MAX_PORT h argv)
  | Exit _ _ => Strict.is_valid_directory h (s_root_dir (resolve MAX_PORT h argv)) = false
  | Fault _ _ => False
  end.
Proof.
  intros B K.
  destruct (get_config_spec MAX_PORT h uninit argv w B K)
    as (cfg & w1 & _ & _ & R & _ & _ & _ & E).
  rewrite E.
  destruct (Strict.is_valid_directory h (s_root_dir (resolve MAX_PORT h argv)));
    [|reflexivity].
  now apply (represents_view _ _ _ _ R).
Qed.

(** On the sample host the file offers port 8080, mode [t], an index page and
    the root [/srv/www]; the environment offers port 99999, mode [p] and a
    root that does not exist; the command line offers port -1, mode [x] and an
    index page. *)
Example layered_resolution :
  resolve Samples.MAX_PORT Samples.layered Samples.layered_argv
  = {| s_root_dir := "/srv/www"; s_index_page := "/start.html";
       s_not_found_page := "/404.html"; s_mode := "p"; s_port := 8080 |}.
Proof. vm_compute. reflexivity. Qed.

(** Candidates that fail validation count as absent. *)
Lemma invalid_candidates (MAX_PORT : Z) (h : host) :
  valid_port MAX_PORT (-1) = None /\
  (MAX_PORT < 99999 -> valid_port MAX_PORT 99999 = None) /\
  port_of_string MAX_PORT "-1" = None /\
  (MAX_PORT < 99999 -> port_of_string MAX_PORT "99999" = None) /\
  mode_of_string "x" = None /\
  (forall path, stat h path = None -> directory h path = None).
Proof.
  unfold valid_port, port_of_string, Strict.is_valid_port, directory,
    Strict.is_valid_directory.
  repeat split; try reflexivity.
  - intros H. cbn. destruct (99999 <=? MAX_PORT) eqn:E; [lia|reflexivity].
  - intros H.
    assert (C.strtoul "99999" = (99999, EmptyString)) as -> by reflexivity.
    change (C.int_of_ulong 99999) with 99999. cbn.
    destruct (99999 <=? MAX_PORT) eqn:E; [lia|reflexivity].
  - intros path ->. reflexivity.
Qed.

(** C1 — Layer precedence with invalid fall-through. The code falls short of
    the claim where its own tests differ from the validity the specification
    words. A mode in upper case is valid, and yet passed over: with [p] in
    the file and [T] in the environment the record keeps [p], and with [p] in
    the environment and [--mode=T] on the command line it keeps [p] as well.
    A port outside the range is invalid, and yet taken: with 8080 in the file
    and 4294967376 in the environment the record has port 80. *)
Theorem valid_candidates_are_passed_over :
  let result h argv :=
    match Strict.get_config Samples.MAX_PORT h Samples.blank argv Samples.start with
    | Return cfg _ => Some (Strict.mode cfg, Strict.port cfg)
    | _ => None
    end in
  let file_p_env_T :=
    {| stat := Samples.sample_stat;
       read_file := fun _ => inr {[ "mode"%string := Libconfig.StringSetting "p" ]};
       environ := {[ "DC_HTTP_MODE"%string := "T"%string ]} |} in
  let file_8080_env_large :=
    {| stat := Samples.sample_stat;
       read_file := fun _ => inr {[ "port"%string := Libconfig.IntSetting 8080 ]};
       environ := {[ "DC_HTTP_PORT"%string := "4294967376"%string ]} |} in
  mode_by_the_spec "T" = Some "t"%char /\
  mode_by_the_spec "p" = Some "p"%char /\
  result file_p_env_T ["server"]%string = Some ("p"%char, 80) /\
  result (Samples.with_environ {[ "DC_HTTP_MODE"%string := "p"%string ]})
    ["server"; "--mode=T"]%string = Some ("p"%char, 80) /\
  port_by_the_spec Samples.MAX_PORT "4294967376" = None /\
  valid_port Samples.MAX_PORT 8080 = Some 8080 /\
  result file_8080_env_large ["server"]%string = Some ("t"%char, 80).
Proof. cbv zeta. repeat split; vm_compute; reflexivity. Qed.

(** ** The fatal check *)

(** C2 — Fatal validation. Once the four loaders have returned a record, the
    process ends with the failure status, after the line on the error stream
    that names the path, exactly when the root directory of the record is not
    an existing directory; exactly otherwise [get_config] returns that record
    in that state. It ends in no other way: never with another status, never
    with a fault. From a state in which the scanner is between elements, and
    with an argument vector whose long options the table names, the loaders
    do return such a record. *)
Theorem fatal_iff_root_dir_missing (MAX_PORT : Z) (h : host) (uninit : Strict.config)
    (argv : list string) (w : world) :
  let run := Strict.get_config MAX_PORT h uninit argv w in
  (forall cfg w1 root,
     loaders MAX_PORT h uninit argv w = Return cfg w1 ->
     deref w1 (Strict.root_dir cfg) = Some root ->
     (stat h root <> Some true <->
      run = Exit EXIT_FAILURE
              (with_out (out w1 ++ [(Stderr, "Root directory '" +:+ root +:+
                                             "' does not exist." +:+ newline)]) w1)) /\
     (stat h root = Some true <-> run = Return cfg w1) /\
     (forall st w', run = Exit st w' -> st = EXIT_FAILURE) /\
     (forall f w', run <> Fault f w')) /\
  (between_options w -> names_known argv = true ->
   exists cfg w1 root,
     loaders MAX_PORT h uninit argv w = Return cfg w1 /\
     deref w1 (Strict.root_dir cfg) = Some root) /\
  EXIT_FAILURE <> 0.
Proof.
  intros run. split; [|split; [|discriminate]].
  - intros cfg w1 root E D.
    assert (run = if Strict.is_valid_directory h root
                  then Return cfg w1
                  else Exit EXIT_FAILURE
                         (with_out (out w1 ++ [(Stderr, "Root directory '" +:+ root +:+
                                                        "' does not exist." +:+ newline)])
                            w1)) as Er.
    { unfold run. rewrite get_config_loaders, (bind_return _ _ _ _ _ E).
      unfold Strict.validate_config. unfold mbind at 1 2, M_bind at 1 2.
      unfold load. rewrite D.
      destruct (Strict.is_valid_directory h root); reflexivity. }
    assert (Strict.is_valid_directory h root = true <-> stat h root = Some true) as V.
    { unfold Strict.is_valid_directory.
      destruct (stat h root) as [[]|]; cbn; split; congruence. }
    rewrite Er.
    destruct (Strict.is_valid_directory h root) eqn:Ev.
    + assert (stat h root = Some true) as Hs by now apply V.
      split; [split; [congruence|discriminate]|].
      split; [split; [reflexivity|intros _; exact Hs]|].
      split; [discriminate|discriminate].
    + assert (stat h root <> Some true) as Hs.
      { intros Hs. apply V in Hs. discriminate. }
      split; [split; [reflexivity|intros _; exact Hs]|].
      split; [split; [congruence|discriminate]|].
      split; [now intros st w' [= <- _]|discriminate].
  - intros B K.
    destruct (loaders_spec MAX_PORT h uninit argv w B K) as (cfg & w1 & E & _ & R & _).
    exists cfg, w1, (s_root_dir (resolve MAX_PORT h argv)).
    split; [exact E|].
    pose proof (represents_view _ _ _ _ R) as Hv. unfold view in Hv.
    destruct (deref w1 (Strict.root_dir cfg)) as [r|]; [|discriminate].
    cbn in Hv.
    destruct (deref w1 (Strict.index_page cfg)); [|discriminate]. cbn in Hv.
    destruct (deref w1 (Strict.not_found_page cfg)); [|discriminate]. cbn in Hv.
    inversion Hv. reflexivity.
Qed.

Lemma fatal_iff_root_dir_missing_witness :
  let argv := ["server"; "--root-dir=/srv/www"; "-q"]%string in
  let run := Strict.get_config Samples.MAX_PORT Samples.bare Samples.blank argv
               Samples.start in
  between_options Samples.start /\ names_known argv = true /\
  exists cfg w1,
    loaders Samples.MAX_PORT Samples.bare Samples.blank argv Samples.start
    = Return cfg w1 /\
    deref w1 (Strict.root_dir cfg) = Some "/srv/www"%string /\
    stat Samples.bare "/srv/www" = Some true /\
    run = Return cfg w1.
Proof.
  cbv zeta.
  split; [repeat split; cbn; lia|]. split; [reflexivity|].
  destruct (proj1 (proj2 (fatal_iff_root_dir_missing Samples.MAX_PORT Samples.bare
                            Samples.blank ["server"; "--root-dir=/srv/www"; "-q"]%string
                            Samples.start)))
    as (cfg & w1 & root & E & D); [repeat split; cbn; lia|reflexivity|].
  exists cfg, w1. split; [exact E|].
  assert (root = "/srv/www"%string) as ->.
  { revert D. revert E. vm_compute. intros [= <- <-]. vm_compute. now intros [= <-]. }
  split; [exact D|]. split; [reflexivity|].
  now apply (proj1 (fatal_iff_root_dir_missing Samples.MAX_PORT Samples.bare
                      Samples.blank ["server"; "--root-dir=/srv/www"; "-q"]%string
                      Samples.start) cfg w1 "/srv/www"%string E D).
Defined.

(** A host whose default root directory is missing, and on which nothing
    overrides it: the process ends with status 1 after two lines on the
    error stream. *)
Example fatal_path_example :
  let h := {| stat := fun _ => None; read_file := fun _ => inl Samples.io_error;
              environ := ∅ |} in
  exists w',
    Strict.get_config Samples.MAX_PORT h Samples.blank ["server"]%string Samples.start
      = Exit 1 w' /\
    out w' = [(Stderr, "(null):0 - file I/O error" +:+ newline);
              (Stderr, "Root directory '../server_directory' does not exist." +:+ newline)].
Proof. eexists. split; vm_compute; reflexivity. Qed.

(** ** A configuration file that cannot be read *)

Lemma bind_congr {A B} (m : M A) (f g : A -> M B) (w : world) :
  (forall a w', f a w' = g a w') -> (m ≫= f) w = (m ≫= g) w.
Proof. intros H. unfold mbind, M_bind. destruct (m w); [apply H|reflexivity..]. Qed.

(** The simplified pipeline treats the failure alike, but reports it on the
    standard output. *)
Lemma simplified_file_failure (h : host) (e : Libconfig.error)
    (cfg : Simplified.config) (w : world) :
  read_file h Simplified.CONFIG_PATH = inl e ->
  Simplified.set_file_config h cfg w
  = Return cfg
      (with_out (out w ++ [(Stdout, fmt_s (Libconfig.error_file e) +:+ ":" +:+
                                    fmt_d (Libconfig.error_line e) +:+ " - " +:+
                                    Libconfig.error_text e +:+ newline)]) w).
Proof.
  intros E. unfold Simplified.set_file_config. rewrite E. now destruct w.
Qed.

(** C5 — File-load failure is non-fatal and frame-preserving. When reading
    the configuration file fails, the file loader writes the single line
    [<file>:<line> - <message>] to the error stream, releases the libconfig
    object it initialised, and returns the very record it was given, the heap
    and the scanner untouched; [get_config] then goes on with the environment,
    the command line and the validator. The file loader of the simplified
    pipeline does the same, its line going to the standard output. *)
Theorem file_failure_preserves_record (MAX_PORT : Z) (h : host) (e : Libconfig.error) :
  read_file h Strict.CONFIG_PATH = inl e ->
  let text := fmt_s (Libconfig.error_file e) +:+ ":" +:+
              fmt_d (Libconfig.error_line e) +:+ " - " +:+
              Libconfig.error_text e +:+ newline in
  (forall cfg w,
     Strict.set_file_config MAX_PORT h cfg w
     = Return cfg (with_out (out w ++ [(Stderr, text)]) w)) /\
  (forall uninit argv w,
     Strict.get_config MAX_PORT h uninit argv w
     = (p ← malloc Strict.sizeof_config;
        cfg ← Strict.set_default_config (Strict.at_address p uninit);
        _ ← fprintf Stderr text;
        cfg ← Strict.set_env_config MAX_PORT h cfg;
        cfg ← Strict.set_cmd_line_config MAX_PORT h cfg argv;
        _ ← Strict.validate_config h cfg;
        mret cfg) w) /\
  (forall cfg w,
     Simplified.set_file_config h cfg w
     = Return cfg (with_out (out w ++ [(Stdout, text)]) w)).
Proof.
  intros E text. split; [|split].
  - intros cfg w. now apply set_file_config_failure.
  - intros uninit argv w. unfold Strict.get_config.
    apply bind_congr; intros p w0. cbv zeta.
    apply bind_congr; intros cfg w1.
    rewrite (bind_return _ _ _ _ _ (set_file_config_failure MAX_PORT h cfg w1 e E)).
    now rewrite (bind_return (fprintf Stderr text) _ w1 _ tt eq_refl).
  - intros cfg w. now apply simplified_file_failure.
Qed.

Lemma file_failure_preserves_record_witness :
  read_file Samples.bare Strict.CONFIG_PATH = inl Samples.io_error /\
  let text := fmt_s (Libconfig.error_file Samples.io_error) +:+ ":" +:+
              fmt_d (Libconfig.error_line Samples.io_error) +:+ " - " +:+
              Libconfig.error_text Samples.io_error +:+ newline in
  (forall cfg w,
     Strict.set_file_config Samples.MAX_PORT Samples.bare cfg w
     = Return cfg (with_out (out w ++ [(Stderr, text)]) w)) /\
  (forall uninit argv w,
     Strict.get_config Samples.MAX_PORT Samples.bare uninit argv w
     = (p ← malloc Strict.sizeof_config;
        cfg ← Strict.set_default_config (Strict.at_address p uninit);
        _ ← fprintf Stderr text;
        cfg ← Strict.set_env_config Samples.MAX_PORT Samples.bare cfg;
        cfg ← Strict.set_cmd_line_config Samples.MAX_PORT Samples.bare cfg argv;
        _ ← Strict.validate_config Samples.bare cfg;
        mret cfg) w) /\
  (forall cfg w,
     Simplified.set_file_config Samples.bare cfg w
     = Return cfg (with_out (out w ++ [(Stdout, text)]) w)).
Proof.
  split; [reflexivity|].
  exact (file_failure_preserves_record Samples.MAX_PORT Samples.bare Samples.io_error eq_refl).
Defined.

Example malformed_file_line :
  Strict.set_file_config Samples.MAX_PORT
    {| stat := Samples.sample_stat; read_file := fun _ => inl Samples.syntax_error;
       environ := ∅ |} Samples.blank Samples.start
  = Return Samples.blank
      (with_out [(Stderr, "../config.cfg:3 - syntax error" +:+ newline)] Samples.start).
Proof. vm_compute. reflexivity. Qed.

(** ** Mode candidates *)

(** The validity test looks at the first character as it stands, so only the
    lower-case letters pass, and [tolower] then has nothing left to do. *)
Lemma mode_of_string_spec (s : string) (m : ascii) :
  mode_of_string s = Some m <->
  exists rest, s = String m rest /\ (m = "p"%char \/ m = "t"%char).
Proof.
  unfold mode_of_string, Strict.is_valid_mode. split.
  - destruct s as [|c rest]; [discriminate|].
    destruct (c =? "p")%char eqn:Ep; [apply Ascii.eqb_eq in Ep; subst c|].
    + intros [= <-]. exists rest. split; [reflexivity|now left].
    + destruct (c =? "t")%char eqn:Et; [apply Ascii.eqb_eq in Et; subst c|discriminate].
      intros [= <-]. exists rest. split; [reflexivity|now right].
  - intros (rest & -> & [-> | ->]); reflexivity.
Qed.

(** C3 — Mode case-insensitive acceptance. The code falls short of the
    claim: the candidate ["P"] fails [is_valid_mode] in the file, the
    environment and the command-line loader alike, so that the mode stays at
    the default [t], whereas ["p"] is taken by all three. *)
Theorem uppercase_mode_is_rejected (MAX_PORT : Z) :
  let mode_after h argv :=
    match Strict.get_config MAX_PORT h Samples.blank argv Samples.start with
    | Return cfg _ => Some (Strict.mode cfg)
    | _ => None
    end in
  Strict.is_valid_mode "P" = false /\
  mode_after (Samples.with_file {[ "mode"%string := Libconfig.StringSetting "P" ]})
    ["server"]%string = Some "t"%char /\
  mode_after (Samples.with_environ {[ "DC_HTTP_MODE"%string := "P"%string ]})
    ["server"]%string = Some "t"%char /\
  mode_after Samples.bare ["server"; "--mode=P"]%string = Some "t"%char /\
  mode_after (Samples.with_file {[ "mode"%string := Libconfig.StringSetting "p" ]})
    ["server"]%string = Some "p"%char /\
  mode_after (Samples.with_environ {[ "DC_HTTP_MODE"%string := "p"%string ]})
    ["server"]%string = Some "p"%char /\
  mode_after Samples.bare ["server"; "--mode=p"]%string = Some "p"%char.
Proof. repeat split; vm_compute; reflexivity. Qed.

(** ** Port candidates given as text *)

(** The three tests of the code, on the converted number. *)
Lemma port_of_string_spec (MAX_PORT : Z) (s : string) (p : Z) :
  port_of_string MAX_PORT s = Some p <->
  s <> EmptyString /\ snd (C.strtoul s) = EmptyString /\
  p = C.int_of_ulong (fst (C.strtoul s)) /\ 0 <= p <= MAX_PORT.
Proof.
  unfold port_of_string, Strict.is_valid_port.
  destruct (C.strtoul s) as [v rest]; cbn [fst snd].
  destruct s as [|c s'], rest as [|c' rest']; cbn [at_end negb andb];
    rewrite ?andb_true_r, ?andb_false_r;
    try (split; [discriminate|intros (? & ? & _); congruence]).
  destruct ((0 <=? C.int_of_ulong v) && (C.int_of_ulong v <=? MAX_PORT)) eqn:E.
  - split.
    + intros [= <-]. repeat split; try discriminate; lia.
    + intros (_ & _ & -> & _). reflexivity.
  - split; [discriminate|]. intros (_ & _ & -> & H). lia.
Qed.

Example numeric_strictness_examples :
  port_of_string Samples.MAX_PORT "80" = Some 80 /\
  port_of_string Samples.MAX_PORT "0x50" = Some 80 /\
  port_of_string Samples.MAX_PORT "80abc" = None /\
  port_of_string Samples.MAX_PORT "" = None /\
  port_of_string Samples.MAX_PORT "-1" = None /\
  port_of_string Samples.MAX_PORT "99999" = None.
Proof. repeat split; vm_compute; reflexivity. Qed.

(** C4 — Numeric strictness. The code falls short of the claim: the range
    test is made after the parsed [unsigned long] has been cut down to an
    [int], so a text whose number lies far outside the port range is taken
    when its low 32 bits happen to lie inside. ["4294967376"] parses, whole,
    to 2^32 + 80, and both the environment and the command-line loader set
    the port to 80. *)
Theorem out_of_range_port_is_accepted (MAX_PORT : Z) (cfg : Strict.config) :
  80 <= MAX_PORT ->
  C.strtoul "4294967376" = (2 ^ 32 + 80, EmptyString) /\
  Strict.assign_port MAX_PORT "4294967376" cfg = Strict.set_port 80 cfg /\
  (forall h w,
     getenv h "DC_HTTP_PORT" = Some "4294967376"%string ->
     getenv h "DC_HTTP_MODE" = None -> getenv h "DC_HTTP_ROOT_DIR" = None ->
     getenv h "DC_HTTP_INDEX_PAGE" = None -> getenv h "DC_HTTP_NOT_FOUND_PAGE" = None ->
     Strict.set_env_config MAX_PORT h cfg w = Return (Strict.set_port 80 cfg) w) /\
  (forall h w,
     Strict.apply_option MAX_PORT h "p" "4294967376" cfg w
     = Return (Strict.set_port 80 cfg) w).
Proof.
  intros H.
  assert (C.strtoul "4294967376" = (2 ^ 32 + 80, EmptyString)) as S
    by (vm_compute; reflexivity).
  assert (Strict.assign_port MAX_PORT "4294967376" cfg = Strict.set_port 80 cfg) as A.
  { unfold Strict.assign_port. rewrite S.
    replace (C.int_of_ulong (2 ^ 32 + 80)) with 80 by reflexivity.
    unfold Strict.is_valid_port.
    replace (80 <=? MAX_PORT) with true by (symmetry; apply Z.leb_le; exact H).
    reflexivity. }
  split; [exact S|]. split; [exact A|]. split.
  - intros h w E1 E2 E3 E4 E5. unfold Strict.set_env_config.
    rewrite E1, E2, E3, E4, E5, A. reflexivity.
  - intros h w. unfold Strict.apply_option. cbn. now rewrite A.
Qed.

Lemma out_of_range_port_is_accepted_witness :
  80 <= Samples.MAX_PORT /\
  C.strtoul "4294967376" = (2 ^ 32 + 80, EmptyString) /\
  Strict.assign_port Samples.MAX_PORT "4294967376" Samples.blank
  = Strict.set_port 80 Samples.blank /\
  (forall h w,
     getenv h "DC_HTTP_PORT" = Some "4294967376"%string ->
     getenv h "DC_HTTP_MODE" = None -> getenv h "DC_HTTP_ROOT_DIR" = None ->
     getenv h "DC_HTTP_INDEX_PAGE" = None -> getenv h "DC_HTTP_NOT_FOUND_PAGE" = None ->
     Strict.set_env_config Samples.MAX_PORT h Samples.blank w
     = Return (Strict.set_port 80 Samples.blank) w) /\
  (forall h w,
     Strict.apply_option Samples.MAX_PORT h "p" "4294967376" Samples.blank w
     = Return (Strict.set_port 80 Samples.blank) w).
Proof.
  split; [unfold Samples.MAX_PORT; lia|].
  apply (out_of_range_port_is_accepted Samples.MAX_PORT Samples.blank).
  unfold Samples.MAX_PORT; lia.
Defined.

Example out_of_range_port_end_to_end :
  match Strict.get_config Samples.MAX_PORT
          (Samples.with_environ {[ "DC_HTTP_PORT"%string := "4294967376"%string ]})
          Samples.blank ["server"]%string Samples.start with
  | Return cfg _ => Strict.port cfg = 80
  | _ => False
  end /\
  match Strict.get_config Samples.MAX_PORT Samples.bare Samples.blank
          ["server"; "--port=-4294967216"]%string Samples.start with
  | Return cfg _ => Strict.port cfg = 80
  | _ => False
  end.
Proof. split; vm_compute; reflexivity. Qed.

(** ** Port and mode stay within their constraints (strict pipeline) *)

Section StrictInvariant.

Variable MAX_PORT : Z.

Lemma valid_port_sound (p q : Z) : valid_port MAX_PORT p = Some q -> 0 <= q <= MAX_PORT.
Proof.
  unfold valid_port, Strict.is_valid_port.
  destruct ((0 <=? p) && (p <=? MAX_PORT)) eqn:E; [|discriminate].
  intros [= <-]. lia.
Qed.

Lemma file_candidates_sound (h : host) : sound MAX_PORT (file_candidates MAX_PORT h).
Proof.
  unfold sound, file_candidates.
  destruct (read_file h Strict.CONFIG_PATH) as [e|c]; cbn; [split; discriminate|].
  split.
  - intros p. destruct (Libconfig.lookup_int c "port"); cbn; [|discriminate].
    apply valid_port_sound.
  - intros m. destruct (Libconfig.lookup_string c "mode"); cbn; [|discriminate].
    intros E. apply mode_of_string_spec in E as (rest & _ & E). exact E.
Qed.

Lemma env_candidates_sound (h : host) : sound MAX_PORT (env_candidates MAX_PORT h).
Proof.
  unfold sound, env_candidates; cbn. split.
  - intros p. destruct (getenv h "DC_HTTP_PORT"); cbn; [|discriminate].
    intros E. now apply port_of_string_spec in E.
  - intros m. destruct (getenv h "DC_HTTP_MODE"); cbn; [|discriminate].
    intros E. apply mode_of_string_spec in E as (rest & _ & E). exact E.
Qed.

Lemma option_candidates_sound (h : host) (e : ascii * option string) :
  sound MAX_PORT (option_candidates MAX_PORT h e).
Proof.
  unfold sound, option_candidates.
  destruct e as [opt [optarg|]]; [|split; discriminate].
  destruct (opt =? "p")%char; cbn.
  { split; [|discriminate]. intros p E. now apply port_of_string_spec in E. }
  destruct (opt =? "m")%char; cbn.
  { split; [discriminate|]. intros m E.
    apply mode_of_string_spec in E as (rest & _ & E). exact E. }
  destruct (opt =? "r")%char; cbn; [split; discriminate|].
  destruct (opt =? "i")%char; cbn; [split; discriminate|].
  destruct (opt =? "n")%char; cbn; split; discriminate.
Qed.

Lemma merge_sound (c1 c2 : candidates) :
  sound MAX_PORT c1 -> sound MAX_PORT c2 -> sound MAX_PORT (merge c1 c2).
Proof.
  intros [P1 M1] [P2 M2]. unfold sound, merge, later; cbn. split.
  - intros p. destruct (c_port c1) eqn:E; [intros [= <-]; now apply P1|apply P2].
  - intros m. destruct (c_mode c1) eqn:E; [intros [= <-]; now apply M1|apply M2].
Qed.

Lemma cli_candidates_sound (h : host) (argv : list string) :
  sound MAX_PORT (cli_candidates MAX_PORT h argv).
Proof.
  unfold cli_candidates.
  assert (sound MAX_PORT nothing) as H0 by (split; discriminate).
  revert H0. generalize nothing. generalize (options_of h argv).
  intros es. induction es as [|e es IH]; intros acc Hacc; [exact Hacc|].
  cbn [fold_left]. apply IH, merge_sound; [apply option_candidates_sound|exact Hacc].
Qed.

(** A record that stands for values within the constraints still does after
    a sound layer has been applied. *)
Lemma well_formed_apply (c : candidates) w w' cfg cfg' v F F' :
  sound MAX_PORT c ->
  represents w cfg v F -> well_formed MAX_PORT cfg ->
  represents w' cfg' (apply c v) F' ->
  well_formed MAX_PORT cfg'.
Proof.
  intros [Pc Mc] R [Hp Hm] R'.
  destruct R as (? & ? & ? & _ & _ & _ & _ & _ & _ & _ & _ & _ & _ & Em & Ep).
  destruct R' as (? & ? & ? & _ & _ & _ & _ & _ & _ & _ & _ & _ & _ & Em' & Ep').
  unfold well_formed. rewrite Em', Ep'. cbn. rewrite <- Em, <- Ep.
  split.
  - destruct (c_port c) eqn:E; cbn; [now apply Pc|exact Hp].
  - destruct (c_mode c) eqn:E; cbn; [now apply Mc|exact Hm].
Qed.

Lemma assign_text_keeps {X} (proj : Strict.config -> X) get set (o : option string)
    cfg w cfg' w' :
  (forall p c, proj (set p c) = proj c) ->
  assign_text get set o cfg w = Return cfg' w' -> proj cfg' = proj cfg.
Proof.
  intros Hs. destruct o as [s|]; cbn; [|now intros [= <- _]].
  unfold mbind, M_bind. destruct (free (get cfg) w); try discriminate.
  cbn. intros [= <- _]. apply Hs.
Qed.

(** Whatever becomes of the texts, port and mode are the layer's candidates
    where it offers any. *)
Lemma assign_all_scalars (c : candidates) cfg w cfg' w' :
  assign_all c cfg w = Return cfg' w' ->
  Strict.port cfg' = default (Strict.port cfg) (c_port c) /\
  Strict.mode cfg' = default (Strict.mode cfg) (c_mode c).
Proof.
  unfold assign_all. cbv zeta.
  set (cfg0 := match c_mode c with Some m => Strict.set_mode m _ | None => _ end).
  assert (Strict.port cfg0 = default (Strict.port cfg) (c_port c) /\
          Strict.mode cfg0 = default (Strict.mode cfg) (c_mode c)) as [Hp Hm]
    by (unfold cfg0; destruct (c_mode c), (c_port c); split; reflexivity).
  unfold mbind at 1, M_bind at 1.
  destruct (assign_text Strict.root_dir _ _ cfg0 w) as [cfg1 w1| |] eqn:E1; try discriminate.
  unfold mbind at 1, M_bind at 1.
  destruct (assign_text Strict.index_page _ _ cfg1 w1) as [cfg2 w2| |] eqn:E2;
    try discriminate.
  unfold mbind at 1, M_bind at 1.
  destruct (assign_text Strict.not_found_page _ _ cfg2 w2) as [cfg3 w3| |] eqn:E3;
    try discriminate.
  intros [= <- _].
  pose proof (assign_text_keeps Strict.port Strict.root_dir Strict.set_root_dir _ _ _ _ _
                (fun _ _ => eq_refl) E1).
  pose proof (assign_text_keeps Strict.port Strict.index_page Strict.set_index_page _ _ _ _ _
                (fun _ _ => eq_refl) E2).
  pose proof (assign_text_keeps Strict.port Strict.not_found_page Strict.set_not_found_page _ _ _ _ _
                (fun _ _ => eq_refl) E3).
  pose proof (assign_text_keeps Strict.mode Strict.root_dir Strict.set_root_dir _ _ _ _ _
                (fun _ _ => eq_refl) E1).
  pose proof (assign_text_keeps Strict.mode Strict.index_page Strict.set_index_page _ _ _ _ _
                (fun _ _ => eq_refl) E2).
  pose proof (assign_text_keeps Strict.mode Strict.not_found_page Strict.set_not_found_page _ _ _ _ _
                (fun _ _ => eq_refl) E3).
  split; congruence.
Qed.

Lemma well_formed_assign (c : candidates) cfg w cfg' w' :
  sound MAX_PORT c -> well_formed MAX_PORT cfg ->
  assign_all c cfg w = Return cfg' w' -> well_formed MAX_PORT cfg'.
Proof.
  intros [Pc Mc] [Hp Hm] E. destruct (assign_all_scalars _ _ _ _ _ E) as [Ep Em].
  unfold well_formed. rewrite Ep, Em. split.
  - destruct (c_port c) eqn:E'; cbn; [now apply Pc|exact Hp].
  - destruct (c_mode c) eqn:E'; cbn; [now apply Mc|exact Hm].
Qed.

(** The option loop never leaves the constraints, whatever the array and
    wherever the scanner stands. *)
Lemma option_loop_well_formed (h : host) (fuel : nat) :
  forall argv cfg w cfg' w',
    Strict.option_loop MAX_PORT fuel h argv cfg w = Return cfg' w' ->
    well_formed MAX_PORT cfg -> well_formed MAX_PORT cfg'.
Proof.
  induction fuel as [|fuel IH]; intros argv cfg w cfg' w'; [discriminate|].
  cbn [Strict.option_loop]. unfold mbind at 1, M_bind at 1, Getopt.getopt_long.
  destruct (Getopt.step _ _ _ _) as [f|[[[r argv1] v1] lines]]; [discriminate|].
  destruct r as [[opt [optarg|]]|].
  - unfold mbind, M_bind. rewrite apply_option_assign.
    destruct (assign_all _ cfg _) as [cfg1 w1| |] eqn:Ea; try discriminate.
    intros E W. apply (IH _ _ _ _ _ E).
    exact (well_formed_assign _ _ _ _ _ (option_candidates_sound h _) W Ea).
  - apply IH.
  - now intros [= <- _].
Qed.

(** X1 — In [src/http_protocol/config.c] the default provider establishes the
    constraints on port and mode, and no loader ever leaves them: whenever the
    file, the environment or the command-line loader returns, on any input,
    the record is within the constraints if the one it was given was. On a
    record that owns its texts the file and environment loaders do return,
    and so does the command-line loader when the scanner is between elements
    and the table names every long option of the argument vector. *)
Lemma strict_port_mode_invariant (h : host) (argv : list string) :
  Strict.DEFAULT_PORT <= MAX_PORT ->
  (forall uninit w cfg w',
     Strict.set_default_config uninit w = Return cfg w' -> well_formed MAX_PORT cfg) /\
  (forall cfg w cfg' w',
     well_formed MAX_PORT cfg ->
     (Strict.set_file_config MAX_PORT h cfg w = Return cfg' w' ->
      well_formed MAX_PORT cfg') /\
     (Strict.set_env_config MAX_PORT h cfg w = Return cfg' w' ->
      well_formed MAX_PORT cfg') /\
     (Strict.set_cmd_line_config MAX_PORT h cfg argv w = Return cfg' w' ->
      well_formed MAX_PORT cfg')) /\
  (forall w cfg v F,
     represents w cfg v F -> well_formed MAX_PORT cfg ->
     (exists cfg' w', Strict.set_file_config MAX_PORT h cfg w = Return cfg' w' /\
                      well_formed MAX_PORT cfg') /\
     (exists cfg' w', Strict.set_env_config MAX_PORT h cfg w = Return cfg' w' /\
                      well_formed MAX_PORT cfg') /\
     (between_options w -> names_known argv = true ->
      exists cfg' w', Strict.set_cmd_line_config MAX_PORT h cfg argv w = Return cfg' w' /\
                      well_formed MAX_PORT cfg')).
Proof.
  intros Hd.
  assert (forall cfg w cfg' w',
            well_formed MAX_PORT cfg ->
            (Strict.set_file_config MAX_PORT h cfg w = Return cfg' w' ->
             well_formed MAX_PORT cfg') /\
            (Strict.set_env_config MAX_PORT h cfg w = Return cfg' w' ->
             well_formed MAX_PORT cfg') /\
            (Strict.set_cmd_line_config MAX_PORT h cfg argv w = Return cfg' w' ->
             well_formed MAX_PORT cfg')) as Keeps.
  { intros cfg w cfg' w' W. split; [|split].
    - destruct (read_file h Strict.CONFIG_PATH) as [e|c] eqn:Er.
      + rewrite (set_file_config_failure MAX_PORT h _ _ e Er). now intros [= <- _].
      + rewrite (set_file_config_assign MAX_PORT h _ _ c Er).
        unfold mbind at 1, M_bind at 1. cbn [config_init].
        unfold mbind at 1, M_bind at 1.
        destruct (assign_all _ cfg _) as [c' x| |] eqn:Ea; try discriminate.
        cbn. intros [= <- _].
        exact (well_formed_assign _ _ _ _ _ (file_candidates_sound h) W Ea).
    - rewrite set_env_config_assign. intros Ea.
      exact (well_formed_assign _ _ _ _ _ (env_candidates_sound h) W Ea).
    - unfold Strict.set_cmd_line_config. unfold mbind at 1, M_bind at 1, set_optind.
      intros E. exact (option_loop_well_formed h _ _ _ _ _ _ E W). }
  split; [|split; [exact Keeps|]].
  - intros uninit w cfg w' E. inversion E; subst; clear E.
    unfold well_formed, Strict.DEFAULT_PORT in *. cbn. split; [lia|now right].
  - intros w cfg v F R W. split; [|split].
    + destruct (set_file_config_spec MAX_PORT h _ _ _ _ R) as (cfg' & H & E & R').
      exists cfg'; eexists; split; [exact E|].
      exact (proj1 (Keeps _ _ _ _ W) E).
    + destruct (set_env_config_spec MAX_PORT h _ _ _ _ R) as (cfg' & H & E & R').
      exists cfg'; eexists; split; [exact E|].
      exact (proj1 (proj2 (Keeps _ _ _ _ W)) E).
    + intros B K.
      destruct (set_cmd_line_config_spec MAX_PORT h argv _ _ _ _ R B K)
        as (cfg' & w' & E & _).
      exists cfg', w'; split; [exact E|].
      exact (proj2 (proj2 (Keeps _ _ _ _ W)) E).
Qed.

End StrictInvariant.

(** ** The loaders of the strict pipeline return *)

(** X2 — In [src/http_protocol/config.c] the default provider, the file
    loader and the environment loader return normally on a record that owns
    its text fields, with a record that still owns them; so does the
    command-line loader when the scanner is between elements and the table
    names every long option of the argument vector. The rest of the heap is
    left as it was. *)
Lemma strict_loaders_total (MAX_PORT : Z) (h : host) (argv : list string) :
  (forall uninit w, exists cfg w' v,
     Strict.set_default_config uninit w = Return cfg w' /\ represents w' cfg v (heap w)) /\
  (forall w cfg v F,
     represents w cfg v F ->
     (exists cfg' w' v', Strict.set_file_config MAX_PORT h cfg w = Return cfg' w' /\
                         represents w' cfg' v' F) /\
     (exists cfg' w' v', Strict.set_env_config MAX_PORT h cfg w = Return cfg' w' /\
                         represents w' cfg' v' F) /\
     (between_options w -> names_known argv = true ->
      exists cfg' w' v', Strict.set_cmd_line_config MAX_PORT h cfg argv w = Return cfg' w' /\
                         represents w' cfg' v' F)).
Proof.
  split.
  - intros uninit w. destruct (set_default_config_spec uninit w) as (cfg & H & E & R).
    eauto 6.
  - intros w cfg v F R. split; [|split].
    + destruct (set_file_config_spec MAX_PORT h _ _ _ _ R) as (cfg' & H & E & R'). eauto 6.
    + destruct (set_env_config_spec MAX_PORT h _ _ _ _ R) as (cfg' & H & E & R'). eauto 6.
    + intros B K.
      destruct (set_cmd_line_config_spec MAX_PORT h argv _ _ _ _ R B K)
        as (cfg' & w' & E & R' & _). eauto 6.
Qed.

(** ** The simplified pipeline against the same claims *)

(** C6 — Port and mode well-formedness. The simplified pipeline falls short
    of the claim: its command-line loader stores whatever [strtoul] returned,
    cut to an [int], and its file loader stores the file's integer unchecked;
    [--port=-1] leaves the record with port -1, and the default mode is the
    string ["processes"]. *)
Theorem simplified_port_is_unchecked :
  (forall cfg w,
     Simplified.apply_option "p" (Some "-1"%string) cfg w
     = Return (Simplified.set_port (-1) cfg) w) /\
  match Simplified.get_config Samples.bare Samples.blank_simplified
          ["server"; "--port=-1"]%string Samples.start with
  | Return cfg w' => Simplified.port cfg = -1 /\
                     deref w' (Simplified.mode cfg) = Some "processes"%string
  | _ => False
  end /\
  match Simplified.get_config
          (Samples.with_file {[ "port"%string := Libconfig.IntSetting 99999 ]})
          Samples.blank_simplified ["server"]%string Samples.start with
  | Return cfg _ => Simplified.port cfg = 99999
  | _ => False
  end.
Proof.
  split; [reflexivity|]. split; vm_compute; [split; reflexivity|reflexivity].
Qed.

(** C7 — Loader totality. The simplified pipeline falls short of the claim:
    its option loop has no test for a null [optarg], so an option without an
    attached value makes [strtoul] or [strdup] read through a null pointer;
    and any text option, with or without value, first passes the string
    literal of the default to [free]. *)
Theorem simplified_option_without_value_faults :
  (forall cfg w, Simplified.apply_option "p" None cfg w = Fault NullDereference w) /\
  (exists w', Simplified.get_config Samples.bare Samples.blank_simplified
                ["server"; "--port"]%string Samples.start
              = Fault NullDereference w') /\
  (exists w', Simplified.get_config Samples.bare Samples.blank_simplified
                ["server"; "--index-page"]%string Samples.start
              = Fault (InvalidFree (Literal "/index.html")) w').
Proof.
  split; [reflexivity|]. split; eexists; vm_compute; reflexivity.
Qed.

(** C8 — Text-field ownership. The simplified pipeline falls short of the
    claim: the default provider stores string literals, not owned copies, and
    both the command-line loader and [destroy_config] pass them to [free]; the
    file loader copies each text value into a block of two bytes. *)
Theorem simplified_frees_literals :
  (exists w', (cfg ← Simplified.get_config Samples.bare Samples.blank_simplified
                       ["server"]%string;
               Simplified.destroy_config cfg) Samples.start
              = Fault (InvalidFree (Literal "../server_directory")) w') /\
  (exists w', Simplified.get_config Samples.bare Samples.blank_simplified
                ["server"; "--index-page=/home.html"]%string Samples.start
              = Fault (InvalidFree (Literal "/index.html")) w') /\
  (exists p w',
     Simplified.get_config
       (Samples.with_file {[ "pages.index"%string := Libconfig.StringSetting "/home.html" ]})
       Samples.blank_simplified ["server"]%string Samples.start
     = Fault (BufferOverflow p) w').
Proof.
  repeat split; repeat eexists; vm_compute; reflexivity.
Qed.

(** C9 — Idempotent resolution. The simplified pipeline falls short of the
    claim: it never sets [optind], so a second run in the same process finds
    the scanner at the end of the argument vector and sees no option. With
    [--port=8080] the first record has port 8080, the second port 80. *)
Theorem simplified_second_run_differs :
  match (c1 ← Simplified.get_config Samples.bare Samples.blank_simplified
                ["server"; "--port=8080"]%string;
         c2 ← Simplified.get_config Samples.bare Samples.blank_simplified
                ["server"; "--port=8080"]%string;
         mret (c1, c2)) Samples.start with
  | Return (c1, c2) _ => Simplified.port c1 = 8080 /\ Simplified.port c2 = 80
  | _ => False
  end.
Proof. vm_compute. split; reflexivity. Qed.

Example strict_second_run_agrees :
  match (c1 ← Strict.get_config Samples.MAX_PORT Samples.bare Samples.blank
                ["server"; "--port=8080"]%string;
         c2 ← Strict.get_config Samples.MAX_PORT Samples.bare Samples.blank
                ["server"; "--port=8080"]%string;
         mret (c1, c2)) Samples.start with
  | Return (c1, c2) _ => Strict.port c1 = 8080 /\ Strict.port c2 = 8080
  | _ => False
  end.
Proof. vm_compute. split; reflexivity. Qed.

(** ** Option values must be attached *)

Lemma split_eq_some (body nm v : string) :
  Getopt.split_eq body = (nm, Some v) -> body = nm +:+ "=" +:+ v.
Proof.
  revert nm. induction body as [|c body IH]; intros nm; cbn; [discriminate|].
  destruct (c =? "=")%char eqn:E.
  - apply Ascii.eqb_eq in E. subst c. now intros [= <- <-].
  - destruct (Getopt.split_eq body) as [n o]. intros [= <- ->].
    change (String c body = String c (n +:+ "=" +:+ v)).
    f_equal. now apply IH.
Qed.

(** A long option of the program's table gets a value only from its own
    element, after an equals sign. *)
Lemma process_long_option_attached argv body i opt x k lines :
  Getopt.process_long_option argv long_options body i = inr ((opt, Some x), k, lines) ->
  exists nm o,
    body = nm +:+ "=" +:+ x /\
    Getopt.find_long long_options nm = Some o /\ Getopt.val o = opt.
Proof.
  unfold Getopt.process_long_option.
  destruct (Getopt.split_eq body) as [nm att] eqn:Es.
  destruct (Getopt.find_long long_options nm) as [o|] eqn:Ef; [|discriminate].
  rewrite (long_options_optional o (proj1 (find_long_in _ _ _ Ef))).
  destruct att as [x0|]; [|discriminate].
  intros [= <- <- _ _]. exists nm, o.
  split; [now apply split_eq_some|]. split; [exact Ef|reflexivity].
Qed.

Lemma in_scan_at_start (argv : list string) :
  argv <> [] -> in_scan argv argv Getopt.at_start.
Proof.
  intros Ha. unfold in_scan. cbn.
  destruct argv; [congruence|]. cbn. repeat split; try reflexivity; lia.
Qed.

Lemma step_attached ord argv0 argv v opt x argv' v' lines :
  in_scan argv0 argv v ->
  Getopt.step ord long_options argv v = inr (Some (opt, Some x), argv', v', lines) ->
  exists nm o,
    In ("--" +:+ nm +:+ "=" +:+ x) argv0 /\
    Getopt.find_long long_options nm = Some o /\ Getopt.val o = opt.
Proof.
  intros (P & Hi & Hf & Hl & Hn). unfold Getopt.step.
  destruct (length argv <? 1)%nat; [discriminate|].
  replace (Getopt.v_optind v =? 0)%nat with false by (symmetry; apply Nat.eqb_neq; lia).
  destruct (Getopt.v_nextchar v) as [|c rest] eqn:Enc;
    [|unfold Getopt.short_option; discriminate].
  replace (length argv <? Getopt.v_optind v)%nat with false
    by (symmetry; apply Nat.ltb_ge; lia).
  destruct (Getopt.advance ord argv v) as [argv1 v1] eqn:Ea.
  destruct (advance_spec ord argv argv1 v v1)
    as (P1 & N1 & I1 & D1 & C1 & F1 & L1 & T1 & O1); try lia; try assumption.
  destruct (argv1 !! Getopt.v_optind v1) as [a|] eqn:La; [|discriminate].
  destruct (Getopt.nonoption a) eqn:Na.
  { destruct ord; [discriminate|]. specialize (O1 eq_refl a eq_refl). congruence. }
  destruct a as [|c1 [|c2 body]]; try discriminate Na.
  assert ((c1 =? "-")%char = true) as E1 by (cbn in Na; now apply negb_false_iff in Na).
  destruct (c2 =? "-")%char eqn:E2; [|unfold Getopt.short_option; discriminate].
  apply Ascii.eqb_eq in E1, E2. subst c1 c2.
  destruct (Getopt.process_long_option argv1 long_options body (Getopt.v_optind v1))
    as [f|[[r0 k] lines0]] eqn:Ep; [discriminate|].
  intros [= -> <- <- <-].
  destruct (process_long_option_attached _ _ _ _ _ _ _ Ep) as (nm & o & -> & Ef & Ev).
  exists nm, o. split; [|now split].
  apply list_elem_of_In. rewrite <- P, <- P1. eapply list_elem_of_lookup_2, La.
Qed.

Lemma events_attached ord argv0 (fuel : nat) :
  forall argv v opt x,
    in_scan argv0 argv v ->
    In (opt, Some x) (Getopt.events fuel ord long_options argv v) ->
    exists nm o,
      In ("--" +:+ nm +:+ "=" +:+ x) argv0 /\
      Getopt.find_long long_options nm = Some o /\ Getopt.val o = opt.
Proof.
  induction fuel as [|fuel IH]; intros argv v opt x S; cbn [Getopt.events]; [intros []|].
  destruct (Getopt.step ord long_options argv v) as [f|[[[[e|] argv'] v'] lines]] eqn:Es;
    try solve [intros []].
  destruct (step_in_scan _ _ _ _ _ _ _ _ _ S Es) as (S' & _).
  intros [->|Hin]; [now apply (step_attached _ _ _ _ _ _ _ _ _ S Es)|now apply (IH _ _ _ _ S' Hin)].
Qed.

(** The values of a scan of [argv] from its first argument on. *)
Lemma options_attached (h : host) (argv : list string) (opt : ascii) (x : string) :
  In (opt, Some x) (options_of h argv) ->
  exists nm o,
    In ("--" +:+ nm +:+ "=" +:+ x) argv /\
    Getopt.find_long long_options nm = Some o /\ Getopt.val o = opt.
Proof.
  unfold options_of. destruct (decide (argv = [])) as [->|Ha]; [intros []|].
  apply events_attached. now apply in_scan_at_start.
Qed.

(** An option offers a candidate for the field of its own letter only. *)
Lemma option_candidates_letter (MAX_PORT : Z) (h : host) (opt : ascii) (x : option string) :
  let c := option_candidates MAX_PORT h (opt, x) in
  (opt <> "p"%char -> c_port c = None) /\
  (opt <> "m"%char -> c_mode c = None) /\
  (opt <> "r"%char -> c_root_dir c = None) /\
  (opt <> "i"%char -> c_index_page c = None) /\
  (opt <> "n"%char -> c_not_found_page c = None).
Proof.
  destruct x as [a|]; cbn; [|now repeat split].
  destruct (opt =? "p")%char eqn:Ep; [apply Ascii.eqb_eq in Ep; subst; now repeat split|].
  destruct (opt =? "m")%char eqn:Em; [apply Ascii.eqb_eq in Em; subst; now repeat split|].
  destruct (opt =? "r")%char eqn:Er; [apply Ascii.eqb_eq in Er; subst; now repeat split|].
  destruct (opt =? "i")%char eqn:Ei; [apply Ascii.eqb_eq in Ei; subst; now repeat split|].
  destruct (opt =? "n")%char eqn:En; [apply Ascii.eqb_eq in En; subst; now repeat split|].
  now repeat split.
Qed.

Lemma fold_merge_untouched {A} (proj : candidates -> option A) (f : ascii * option string -> candidates)
    (es : list (ascii * option string)) :
  (forall n o, proj (merge n o) = later (proj n) (proj o)) ->
  (forall e, In e es -> proj (f e) = None) ->
  forall acc, proj (fold_left (fun acc e => merge (f e) acc) es acc) = proj acc.
Proof.
  intros Hm. induction es as [|e es IH]; intros Hes acc; [reflexivity|].
  cbn [fold_left]. rewrite IH by (intros; apply Hes; now right).
  rewrite Hm, Hes by now left. reflexivity.
Qed.


Lemma assign_all_nothing (c : candidates) (cfg : Strict.config) (w : world) :
  c = nothing -> assign_all c cfg w = Return cfg w.
Proof. intros ->. reflexivity. Qed.

Section NothingOnTheCommandLine.

Variable MAX_PORT : Z.
Variable h : host.
Variable argv0 : list string.

Hypothesis known : names_known argv0 = true.

(** When no option of the scan yields a candidate, the loop hands back the
    record it was given, whatever this record is, and touches no block. *)
Lemma option_loop_offering_nothing (fuel : nat) :
  forall argv w cfg,
    in_scan argv0 argv (Getopt.vars_of w) ->
    (Getopt.remaining argv (Getopt.vars_of w) < fuel)%nat ->
    (forall e,
       In e (Getopt.events fuel (ordering_of h) long_options argv (Getopt.vars_of w)) ->
       option_candidates MAX_PORT h e = nothing) ->
    exists w',
      Strict.option_loop MAX_PORT fuel h argv cfg w = Return cfg w' /\
      heap w' = heap w /\
      out w' = out w ++ map (pair Stderr)
                          (Getopt.complaints fuel (ordering_of h) long_options argv
                             (Getopt.vars_of w)) /\
      parsers w' = parsers w /\
      between_options w'.
Proof.
  induction fuel as [|fuel IH]; intros argv w cfg S Hfuel Hall; [lia|].
  cbn [Strict.option_loop Getopt.events Getopt.complaints] in *.
  destruct (step_total (ordering_of h) argv0 argv _ S known)
    as (r & argv' & v' & lines & Es).
  unfold mbind at 1, M_bind at 1, Getopt.getopt_long. rewrite Es in *.
  destruct (step_in_scan _ _ _ _ _ _ _ _ _ S Es) as (S' & _ & Hr).
  set (w1 := Getopt.with_vars v' (with_out (out w ++ map (pair Stderr) lines) w)).
  assert (Getopt.vars_of w1 = v') as V1 by apply vars_of_with_vars.
  destruct r as [[opt optarg]|].
  - destruct (IH argv' w1 cfg) as (w' & E & Hh & Ho & Hq & Hb).
    { now rewrite V1. }
    { rewrite V1. lia. }
    { rewrite V1. intros e He. apply Hall. now right. }
    rewrite V1 in Ho.
    exists w'. split; [|split; [exact Hh|split; [|split; [exact Hq|exact Hb]]]].
    + destruct optarg as [a|]; [|exact E].
      unfold mbind, M_bind. rewrite apply_option_assign.
      rewrite (assign_all_nothing _ cfg _ (Hall _ (or_introl eq_refl))). exact E.
    + rewrite Ho. unfold w1. cbn [out Getopt.with_vars with_out].
      now rewrite map_app, app_assoc.
  - exists w1. split; [reflexivity|]. split; [reflexivity|].
    split; [reflexivity|]. split; [reflexivity|].
    destruct S' as (_ & _ & Hf & Hl & _).
    unfold between_options, w1. cbn. repeat split; assumption.
Qed.

End NothingOnTheCommandLine.

Lemma set_cmd_line_config_idle (MAX_PORT : Z) (h : host) (argv : list string)
    (cfg : Strict.config) (w : world) :
  between_options w ->
  names_known argv = true ->
  (forall e, In e (options_of h argv) -> option_candidates MAX_PORT h e = nothing) ->
  exists w',
    Strict.set_cmd_line_config MAX_PORT h cfg argv w = Return cfg w' /\
    heap w' = heap w /\ out w' = out w ++ complaints_of h argv /\
    parsers w' = parsers w /\ between_options w'.
Proof.
  intros B K Hall.
  unfold Strict.set_cmd_line_config.
  unfold mbind at 1, M_bind at 1, set_optind.
  set (w1 := with_scanner 1 (nextchar w) w).
  destruct (decide (argv = [])) as [Ea|Ea].
  - exists (with_out (out w1 ++ []) w1). rewrite Ea. cbn.
    unfold mbind, M_bind, Getopt.getopt_long. cbn.
    split; [now destruct w|].
    unfold complaints_of. cbn.
    repeat split; try reflexivity; apply B.
  - destruct B as (Hn & Hf & Hl).
    assert (Getopt.vars_of w1
            = {| Getopt.v_optind := 1; Getopt.v_nextchar := "";
                 Getopt.v_first := first_nonopt w; Getopt.v_last := last_nonopt w |}) as V1.
    { unfold w1, Getopt.vars_of. cbn. now rewrite Hn. }
    destruct (scan_from_start h argv (Getopt.bound argv) _ _ Ea Hf Hl) as (Ee & Ec & _).
    destruct (option_loop_offering_nothing MAX_PORT h argv K (Getopt.bound argv) argv w1 cfg)
      as (w' & E & Hh & Ho & Hq & Hb).
    { rewrite V1. unfold in_scan. cbn.
      destruct argv; [congruence|]. cbn. repeat split; try reflexivity; lia. }
    { rewrite V1. unfold Getopt.remaining. cbn [Getopt.v_nextchar Getopt.v_optind].
      apply (remaining_at_start argv). }
    { rewrite V1, Ee. exact Hall. }
    rewrite V1, Ec in Ho.
    exists w'. split; [exact E|]. split; [exact Hh|].
    split; [exact Ho|]. split; [exact Hq|exact Hb].
Qed.

Section Attached.

Variable MAX_PORT : Z.
Variable h : host.
Variable argv : list string.

Lemma unattached_events (letter : ascii) (x : string) :
  unattached argv letter -> ~ In (letter, Some x) (options_of h argv).
Proof.
  intros U H. destruct (options_attached _ _ _ _ H) as (nm & o & Hin & Ef & Ev).
  exact (U nm x o Hin Ef Ev).
Qed.

Lemma unattached_candidate {A} (proj : candidates -> option A) (letter : ascii) :
  (forall n o, proj (merge n o) = later (proj n) (proj o)) ->
  proj nothing = None ->
  (forall opt x, opt <> letter -> proj (option_candidates MAX_PORT h (opt, x)) = None) ->
  unattached argv letter ->
  proj (cli_candidates MAX_PORT h argv) = None.
Proof.
  intros Hm Hn Hl U. unfold cli_candidates.
  rewrite (fold_merge_untouched proj _ _ Hm); [exact Hn|].
  intros [opt [x|]] Hin; [|exact Hn].
  apply Hl. intros ->. exact (unattached_events _ _ U Hin).
Qed.

(** When no element attaches a value to an option, the command line offers
    nothing for the field of that option. *)
Lemma unattached_fields :
  (unattached argv "p" -> c_port (cli_candidates MAX_PORT h argv) = None) /\
  (unattached argv "m" -> c_mode (cli_candidates MAX_PORT h argv) = None) /\
  (unattached argv "r" -> c_root_dir (cli_candidates MAX_PORT h argv) = None) /\
  (unattached argv "i" -> c_index_page (cli_candidates MAX_PORT h argv) = None) /\
  (unattached argv "n" -> c_not_found_page (cli_candidates MAX_PORT h argv) = None).
Proof.
  repeat split; intros U;
    (eapply unattached_candidate;
     [reflexivity|reflexivity| |exact U]);
    intros opt x Hne; now apply (option_candidates_letter MAX_PORT h opt x).
Qed.

End Attached.

(** C10 — Attached-value-only options. Every entry of the table lets the
    value of its option be left out (1), and every value the scan of [argv]
    hands to the command-line loader was attached with an equals sign to the
    element that names the option (2). On an argument vector whose long
    options the table names, from a state in which the scanner is between
    elements: without such elements, whatever tokens follow the options, the
    loader returns the record it was given and leaves the heap as it was (3);
    in any case a field keeps its value unless some element attaches a value
    to the field's own option (4). What the loader writes are the lines of
    the scanner. *)
Theorem option_values_must_be_attached (MAX_PORT : Z) (h : host) (argv : list string) :
  (forall o, In o long_options -> Getopt.arg o = Getopt.optional_argument) /\
  (forall opt x,
     In (opt, Some x) (options_of h argv) ->
     exists nm o,
       In ("--" +:+ nm +:+ "=" +:+ x) argv /\
       Getopt.find_long long_options nm = Some o /\ Getopt.val o = opt) /\
  (names_known argv = true ->
   (forall nm x, ~ In ("--" +:+ nm +:+ "=" +:+ x) argv) ->
   forall cfg w,
     between_options w ->
     exists w',
       Strict.set_cmd_line_config MAX_PORT h cfg argv w = Return cfg w' /\
       heap w' = heap w /\ out w' = out w ++ complaints_of h argv) /\
  (names_known argv = true ->
   forall w cfg v F,
     represents w cfg v F -> between_options w ->
     exists cfg' w' v',
       Strict.set_cmd_line_config MAX_PORT h cfg argv w = Return cfg' w' /\
       represents w' cfg' v' F /\
       out w' = out w ++ complaints_of h argv /\
       (unattached argv "p" -> s_port v' = s_port v /\ Strict.port cfg' = Strict.port cfg) /\
       (unattached argv "m" -> s_mode v' = s_mode v /\ Strict.mode cfg' = Strict.mode cfg) /\
       (unattached argv "r" -> s_root_dir v' = s_root_dir v) /\
       (unattached argv "i" -> s_index_page v' = s_index_page v) /\
       (unattached argv "n" -> s_not_found_page v' = s_not_found_page v)).
Proof.
  split; [exact long_options_optional|]. split; [|split].
  - intros opt x. apply options_attached.
  - intros K Hno cfg w B.
    destruct (set_cmd_line_config_idle MAX_PORT h argv cfg w B K) as (w' & E & Hh & Ho & _).
    { intros [opt [x|]] He; [|reflexivity].
      destruct (options_attached _ _ _ _ He) as (nm & o & Hin & _).
      now contradict Hin. }
    exists w'. split; [exact E|]. split; [exact Hh|exact Ho].
  - intros K w cfg v F R B.
    destruct (set_cmd_line_config_spec MAX_PORT h argv _ _ _ _ R B K)
      as (cfg' & w' & E & R' & Ho & _).
    exists cfg', w', (apply (cli_candidates MAX_PORT h argv) v).
    split; [exact E|]. split; [exact R'|]. split; [exact Ho|].
    destruct (unattached_fields MAX_PORT h argv) as (Up & Um & Ur & Ui & Un).
    destruct R as (? & ? & ? & _ & _ & _ & _ & _ & _ & _ & _ & _ & _ & Em & Ep).
    destruct R' as (? & ? & ? & _ & _ & _ & _ & _ & _ & _ & _ & _ & _ & Em' & Ep').
    unfold apply in *.
    cbn [s_port s_mode s_root_dir s_index_page s_not_found_page] in *.
    split; [|split; [|split; [|split]]]; intros U.
    + rewrite Ep', Ep, (Up U). now split.
    + rewrite Em', Em, (Um U). now split.
    + now rewrite (Ur U).
    + now rewrite (Ui U).
    + now rewrite (Un U).
Qed.

Lemma option_values_must_be_attached_witness :
  names_known ["server"; "--port"; "80"]%string = true /\
  (forall nm x, ~ In ("--" +:+ nm +:+ "=" +:+ x) ["server"; "--port"; "80"]%string) /\
  between_options Samples.start /\
  exists w',
    Strict.set_cmd_line_config Samples.MAX_PORT Samples.bare Samples.blank
      ["server"; "--port"; "80"]%string Samples.start
    = Return Samples.blank w' /\
    heap w' = heap Samples.start /\
    out w' = out Samples.start ++ complaints_of Samples.bare ["server"; "--port"; "80"]%string.
Proof.
  assert (forall nm x, ~ In ("--" +:+ nm +:+ "=" +:+ x) ["server"; "--port"; "80"]%string) as Hno.
  { intros nm x [H|[H|[H|[]]]]; cbn in H; try discriminate H.
    injection H as H.
    destruct nm as [|c1 [|c2 [|c3 [|c4 [|c5 nm]]]]]; cbn in H; discriminate H. }
  assert (between_options Samples.start) as B by (repeat split; cbn; lia).
  split; [reflexivity|]. split; [exact Hno|]. split; [exact B|].
  exact (proj1 (proj2 (proj2 (option_values_must_be_attached Samples.MAX_PORT Samples.bare
                         ["server"; "--port"; "80"]%string)))
           eq_refl Hno Samples.blank Samples.start B).
Defined.

Example separate_and_attached_values :
  options_of Samples.bare ["server"; "--port"; "80"; "--port=81"]%string
  = [("p"%char, None); ("p"%char, Some "81"%string)] /\
  permuted Samples.bare ["server"; "--port"; "80"; "--port=81"]%string
  = ["server"; "--port"; "--port=81"; "80"]%string /\
  complaints_of Samples.bare ["server"; "--port"; "80"; "--port=81"]%string = [].
Proof. vm_compute. repeat split. Qed.

(** * Further properties of the code *)

(** ** Sample states *)

Lemma owned_represents :
  represents Samples.owned Samples.owner defaults {[ 1%positive := structure ]}.
Proof.
  exists 2%positive, 3%positive, 4%positive.
  repeat split; try reflexivity; try discriminate.
Qed.

Lemma start_between_options : between_options Samples.start.
Proof. repeat split; cbn; lia. Qed.

Lemma owned_between_options : between_options Samples.owned.
Proof. repeat split; cbn; lia. Qed.

(** ** The strict pipeline: constraints, ownership, repetition *)

Lemma strict_port_mode_invariant_witness :
  Strict.DEFAULT_PORT <= Samples.MAX_PORT /\
  (forall uninit w cfg w',
     Strict.set_default_config uninit w = Return cfg w' ->
     well_formed Samples.MAX_PORT cfg) /\
  (forall w cfg v F,
     represents w cfg v F -> well_formed Samples.MAX_PORT cfg ->
     (exists cfg' w',
        Strict.set_file_config Samples.MAX_PORT Samples.layered cfg w = Return cfg' w' /\
        well_formed Samples.MAX_PORT cfg') /\
     (exists cfg' w',
        Strict.set_env_config Samples.MAX_PORT Samples.layered cfg w = Return cfg' w' /\
        well_formed Samples.MAX_PORT cfg') /\
     (between_options w -> names_known Samples.layered_argv = true ->
      exists cfg' w',
        Strict.set_cmd_line_config Samples.MAX_PORT Samples.layered cfg
          Samples.layered_argv w = Return cfg' w' /\
        well_formed Samples.MAX_PORT cfg')).
Proof.
  split; [discriminate|].
  pose proof (strict_port_mode_invariant Samples.MAX_PORT Samples.layered
                Samples.layered_argv ltac:(discriminate)) as (H1 & _ & H3).
  split; [exact H1|exact H3].
Defined.

(** What a record and its structure add to a heap. *)
Lemma represents_heap w cfg v (H : gmap positive block) (p : positive) (s : block) :
  represents w cfg v (<[p := s]> H) -> H !! p = None ->
  size (heap w) = (4 + size H)%nat /\
  (forall a b, H !! a = Some b -> heap w !! a = Some b) /\
  (forall a, heap w !! a = None -> H !! a = None).
Proof.
  intros (a & b & c & _ & _ & _ & Hab & Hac & Hbc & Fa & Fb & Fc & Hh & _) Hp.
  assert (a <> p) by (intros ->; now rewrite lookup_insert_eq in Fa).
  assert (b <> p) by (intros ->; now rewrite lookup_insert_eq in Fb).
  assert (c <> p) by (intros ->; now rewrite lookup_insert_eq in Fc).
  rewrite lookup_insert_ne in Fa, Fb, Fc by congruence.
  rewrite Hh. unfold layout. split; [|split].
  - rewrite !map_size_insert_None; [lia|..];
      rewrite ?lookup_insert_ne by congruence; assumption.
  - intros k x Hk. rewrite !lookup_insert_ne by congruence. exact Hk.
  - intros k.
    destruct (decide (k = a)) as [->|]; [now rewrite lookup_insert_eq|].
    rewrite lookup_insert_ne by congruence.
    destruct (decide (k = b)) as [->|]; [now rewrite lookup_insert_eq|].
    rewrite lookup_insert_ne by congruence.
    destruct (decide (k = c)) as [->|]; [now rewrite lookup_insert_eq|].
    rewrite lookup_insert_ne by congruence.
    destruct (decide (k = p)) as [->|]; [now rewrite lookup_insert_eq|].
    now rewrite lookup_insert_ne by congruence.
Qed.

(** X3 — Resolution owns exactly four blocks. From a state in which the
    option scanner is between elements, and on an argument vector whose long
    options the table names, [get_config] of [src/http_protocol/config.c]
    returns or ends the process, and either way it leaves every block that
    was live before as it was and adds exactly four: the structure and one
    block per text field, however many layers overrode a field. On the
    returned record [destroy_config] gives exactly these four back, so that
    the heap is the one before the call; a second [destroy_config] reads the
    structure that the first one freed. *)
Theorem get_config_then_destroy_config (MAX_PORT : Z) (h : host) (uninit : Strict.config)
    (argv : list string) (w : world) :
  between_options w ->
  names_known argv = true ->
  match Strict.get_config MAX_PORT h uninit argv w with
  | Return cfg w' =>
      size (heap w') = (4 + size (heap w))%nat /\
      (forall a b, heap w !! a = Some b -> heap w' !! a = Some b) /\
      Strict.destroy_config cfg w' = Return tt (with_heap (heap w) w') /\
      (_ ← Strict.destroy_config cfg; Strict.destroy_config cfg) w'
      = Fault (InvalidRead (Strict.self cfg)) (with_heap (heap w) w')
  | Exit _ w' =>
      size (heap w') = (4 + size (heap w))%nat /\
      (forall a b, heap w !! a = Some b -> heap w' !! a = Some b)
  | Fault _ _ => False
  end.
Proof.
  intros B K.
  destruct (get_config_spec MAX_PORT h uninit argv w B K)
    as (cfg & w1 & _ & S & R & _ & _ & _ & E).
  pose proof (fresh_not_live (heap w)) as Hp.
  destruct (represents_heap _ _ _ _ _ _ R Hp) as (Hsize & Hkeep & _).
  rewrite E.
  destruct (Strict.is_valid_directory h _); [|split; [exact Hsize|exact Hkeep]].
  split; [exact Hsize|]. split; [exact Hkeep|].
  rewrite (destroy_config_spec _ _ _ _ _ structure R S) by apply lookup_insert_eq.
  rewrite (destroy_config_twice _ _ _ _ _ structure R S) by apply lookup_insert_eq.
  rewrite S, delete_insert_id by exact Hp. split; reflexivity.
Qed.

Lemma get_config_then_destroy_config_witness :
  between_options Samples.owned /\
  names_known Samples.layered_argv = true /\
  match Strict.get_config Samples.MAX_PORT Samples.layered Samples.blank
          Samples.layered_argv Samples.owned with
  | Return cfg w' =>
      size (heap w') = (4 + size (heap Samples.owned))%nat /\
      (forall a b, heap Samples.owned !! a = Some b -> heap w' !! a = Some b) /\
      Strict.destroy_config cfg w' = Return tt (with_heap (heap Samples.owned) w') /\
      (_ ← Strict.destroy_config cfg; Strict.destroy_config cfg) w'
      = Fault (InvalidRead (Strict.self cfg)) (with_heap (heap Samples.owned) w')
  | Exit _ w' =>
      size (heap w') = (4 + size (heap Samples.owned))%nat /\
      (forall a b, heap Samples.owned !! a = Some b -> heap w' !! a = Some b)
  | Fault _ _ => False
  end.
Proof.
  split; [exact owned_between_options|]. split; [reflexivity|].
  exact (get_config_then_destroy_config Samples.MAX_PORT Samples.layered Samples.blank
           Samples.layered_argv Samples.owned owned_between_options eq_refl).
Defined.

(** ** Layers that offer nothing *)

(** X5 — An environment that offers nothing. When none of the five variables
    yields a candidate (each is unset or, for port, mode and root directory,
    fails its validation), [set_env_config] returns the record and the state
    exactly as they were, for any record at all: nothing is released, copied
    or written. *)
Theorem set_env_config_offering_nothing (MAX_PORT : Z) (h : host)
    (cfg : Strict.config) (w : world) :
  env_candidates MAX_PORT h = nothing ->
  Strict.set_env_config MAX_PORT h cfg w = Return cfg w.
Proof.
  intros E. rewrite set_env_config_assign. now apply assign_all_nothing.
Qed.

Lemma set_env_config_offering_nothing_witness :
  env_candidates Samples.MAX_PORT
    (Samples.with_environ (<["DC_HTTP_PORT" := "80abc"]>
                             (<["DC_HTTP_MODE" := "x"]>
                                (<["DC_HTTP_ROOT_DIR" := "/etc/passwd"]> ∅))))
  = nothing /\
  Strict.set_env_config Samples.MAX_PORT
    (Samples.with_environ (<["DC_HTTP_PORT" := "80abc"]>
                             (<["DC_HTTP_MODE" := "x"]>
                                (<["DC_HTTP_ROOT_DIR" := "/etc/passwd"]> ∅))))
    Samples.blank Samples.start
  = Return Samples.blank Samples.start.
Proof.
  split; [vm_compute; reflexivity|].
  apply (set_env_config_offering_nothing Samples.MAX_PORT).
  vm_compute; reflexivity.
Defined.

(** X6 — A configuration file that offers nothing. When the file is read but
    none of the five settings yields a candidate (each is missing, of another
    type, or fails its validation), [set_file_config] returns the record and
    the state exactly as they were: the libconfig object is released, nothing
    is written and no block is touched. *)
Theorem set_file_config_offering_nothing (MAX_PORT : Z) (h : host)
    (c : gmap string Libconfig.setting) (cfg : Strict.config) (w : world) :
  read_file h Strict.CONFIG_PATH = inr c ->
  file_candidates MAX_PORT h = nothing ->
  Strict.set_file_config MAX_PORT h cfg w = Return cfg w.
Proof.
  intros E N. rewrite (set_file_config_assign MAX_PORT h cfg w c E).
  unfold mbind at 1, M_bind at 1. cbn [config_init].
  rewrite (bind_return _ _ _ _ _ (assign_all_nothing _ cfg _ N)).
  now destruct w.
Qed.

Lemma set_file_config_offering_nothing_witness :
  let settings : gmap string Libconfig.setting :=
    <["port" := Libconfig.StringSetting "80"]>
      (<["mode" := Libconfig.IntSetting 1]>
         (<["root_dir" := Libconfig.StringSetting "/does/not/exist"]>
            (<["colour" := Libconfig.StringSetting "blue"]> ∅))) in
  read_file (Samples.with_file settings) Strict.CONFIG_PATH = inr settings /\
  file_candidates Samples.MAX_PORT (Samples.with_file settings) = nothing /\
  Strict.set_file_config Samples.MAX_PORT (Samples.with_file settings)
    Samples.blank Samples.start
  = Return Samples.blank Samples.start.
Proof.
  cbv zeta. split; [reflexivity|]. split; [vm_compute; reflexivity|].
  eapply (set_file_config_offering_nothing Samples.MAX_PORT); [reflexivity|].
  vm_compute; reflexivity.
Defined.

(** X7 — A command line that offers nothing. On an argument vector whose
    long options the table names, when every option the scan returns carries
    no value, or a port, mode or root directory that fails its validation, or
    is a character of a cluster of short options, [set_cmd_line_config]
    returns the very record it was given, for any record at all; the heap is
    as before, and the only lines written are those of the scanner. *)
Theorem set_cmd_line_config_offering_nothing (MAX_PORT : Z) (h : host)
    (argv : list string) (cfg : Strict.config) (w : world) :
  between_options w ->
  names_known argv = true ->
  (forall e, In e (options_of h argv) -> option_candidates MAX_PORT h e = nothing) ->
  exists w',
    Strict.set_cmd_line_config MAX_PORT h cfg argv w = Return cfg w' /\
    heap w' = heap w /\ out w' = out w ++ complaints_of h argv /\
    parsers w' = parsers w.
Proof.
  intros B K Hall.
  destruct (set_cmd_line_config_idle MAX_PORT h argv cfg w B K Hall)
    as (w' & E & Hh & Ho & Hq & _).
  exists w'. split; [exact E|]. split; [exact Hh|]. split; [exact Ho|exact Hq].
Qed.

Lemma set_cmd_line_config_offering_nothing_witness :
  let argv := ["server"; "--port=80abc"; "--mode=x"; "--root-dir=/etc/passwd";
               "-q"; "--index-page"; "index.html"]%string in
  between_options Samples.start /\
  names_known argv = true /\
  (forall e, In e (options_of Samples.bare argv) ->
             option_candidates Samples.MAX_PORT Samples.bare e = nothing) /\
  complaints_of Samples.bare argv
  = [(Stderr, "server: invalid option -- 'q'" +:+ newline)] /\
  exists w',
    Strict.set_cmd_line_config Samples.MAX_PORT Samples.bare Samples.blank argv
      Samples.start = Return Samples.blank w' /\
    heap w' = heap Samples.start /\
    out w' = out Samples.start ++ complaints_of Samples.bare argv /\
    parsers w' = parsers Samples.start.
Proof.
  cbv zeta.
  assert (forall e,
            In e (options_of Samples.bare
                    ["server"; "--port=80abc"; "--mode=x"; "--root-dir=/etc/passwd";
                     "-q"; "--index-page"; "index.html"]%string) ->
            option_candidates Samples.MAX_PORT Samples.bare e = nothing) as Hall.
  { intros e He. vm_compute in He.
    repeat (destruct He as [<-|He]; [vm_compute; reflexivity|]). destruct He. }
  split; [exact start_between_options|]. split; [reflexivity|]. split; [exact Hall|].
  split; [vm_compute; reflexivity|].
  apply (set_cmd_line_config_offering_nothing Samples.MAX_PORT Samples.bare _
           Samples.blank Samples.start start_between_options); [reflexivity|exact Hall].
Defined.

(** ** What the loaders write *)

(** Without a cluster of short options in the array, a call of the scanner
    writes nothing. *)
Lemma step_quiet ord argv0 argv v r argv' v' lines :
  in_scan argv0 argv v ->
  forallb (fun a => negb (Getopt.short a)) argv0 = true ->
  Getopt.v_nextchar v = EmptyString ->
  Getopt.step ord long_options argv v = inr (r, argv', v', lines) ->
  lines = [] /\ Getopt.v_nextchar v' = EmptyString.
Proof.
  intros (P & Hi & Hf & Hl & Hn) Q Enc. unfold Getopt.step.
  rewrite Enc in *.
  destruct (length argv <? 1)%nat; [now intros [= <- <- <- <-]|].
  replace (Getopt.v_optind v =? 0)%nat with false by (symmetry; apply Nat.eqb_neq; lia).
  rewrite Enc.
  replace (length argv <? Getopt.v_optind v)%nat with false
    by (symmetry; apply Nat.ltb_ge; lia).
  destruct (Getopt.advance ord argv v) as [argv1 v1] eqn:Ea.
  destruct (advance_spec ord argv argv1 v v1)
    as (P1 & N1 & I1 & D1 & C1 & F1 & L1 & T1 & O1); try lia; try assumption.
  destruct (argv1 !! Getopt.v_optind v1) as [a|] eqn:La; [|now intros [= <- <- <- <-]].
  destruct (Getopt.nonoption a) eqn:Na; [destruct ord; now intros [= <- <- <- <-]|].
  destruct a as [|c1 [|c2 body]]; try discriminate Na.
  assert ((c1 =? "-")%char = true) as E1 by (cbn in Na; now apply negb_false_iff in Na).
  assert (In (String c1 (String c2 body)) argv0) as Hin.
  { apply list_elem_of_In. rewrite <- P, <- P1. eapply list_elem_of_lookup_2, La. }
  destruct (c2 =? "-")%char eqn:E2.
  - unfold Getopt.process_long_option.
    destruct (Getopt.split_eq body) as [nm att].
    destruct (Getopt.find_long long_options nm) as [o|] eqn:Ef; [|discriminate].
    rewrite (long_options_optional o (proj1 (find_long_in _ _ _ Ef))).
    destruct att; now intros [= <- <- <- <-].
  - rewrite forallb_forall in Q. specialize (Q _ Hin).
    cbn in Q. rewrite E1, E2 in Q. discriminate Q.
Qed.

Lemma complaints_quiet ord argv0 (fuel : nat) :
  forallb (fun a => negb (Getopt.short a)) argv0 = true ->
  forall argv v,
    in_scan argv0 argv v -> Getopt.v_nextchar v = EmptyString ->
    Getopt.complaints fuel ord long_options argv v = [].
Proof.
  intros Q. induction fuel as [|fuel IH]; intros argv v S Enc; [reflexivity|].
  cbn [Getopt.complaints].
  destruct (Getopt.step ord long_options argv v) as [f|[[[r argv'] v'] lines]] eqn:Es;
    [reflexivity|].
  destruct (step_quiet _ _ _ _ _ _ _ _ S Q Enc Es) as (-> & Enc').
  destruct (step_in_scan _ _ _ _ _ _ _ _ _ S Es) as (S' & _).
  destruct r; [|reflexivity]. cbn. now apply IH.
Qed.

(** The scanner complains about short options only. *)
Lemma complaints_of_quiet (h : host) (argv : list string) :
  forallb (fun a => negb (Getopt.short a)) argv = true -> complaints_of h argv = [].
Proof.
  intros Q. unfold complaints_of.
  destruct (decide (argv = [])) as [->|Ha]; [reflexivity|].
  rewrite (complaints_quiet _ argv _ Q); [reflexivity| |reflexivity].
  now apply in_scan_at_start.
Qed.

(** X8 — What the loaders write. On a record that owns its text fields the
    environment loader returns without writing to any stream, whatever it is
    offered; the file loader writes nothing when the file was read, and its
    one diagnostic line when it was not; the command-line loader, on an
    argument vector whose long options the table names, writes the lines of
    the scanner and nothing else, which is nothing at all when no element
    starts a cluster of short options. A rejected candidate is never
    reported. None of the loaders ends the process, and the libconfig object
    count is as before. *)
Theorem what_the_loaders_write (MAX_PORT : Z) (h : host) (argv : list string)
    (w : world) (cfg : Strict.config) (v : settings) (F : gmap positive block) :
  represents w cfg v F ->
  between_options w ->
  names_known argv = true ->
  (exists cfg' w',
     Strict.set_file_config MAX_PORT h cfg w = Return cfg' w' /\
     out w' = out w ++ file_diagnostic h /\ parsers w' = parsers w /\
     (forall c, read_file h Strict.CONFIG_PATH = inr c -> out w' = out w)) /\
  (exists cfg' w',
     Strict.set_env_config MAX_PORT h cfg w = Return cfg' w' /\
     out w' = out w /\ parsers w' = parsers w) /\
  (exists cfg' w',
     Strict.set_cmd_line_config MAX_PORT h cfg argv w = Return cfg' w' /\
     out w' = out w ++ complaints_of h argv /\ parsers w' = parsers w /\
     (forallb (fun a => negb (Getopt.short a)) argv = true -> out w' = out w)).
Proof.
  intros R B K. split; [|split].
  - destruct (set_file_config_spec MAX_PORT h _ _ _ _ R) as (cfg' & H & E & _).
    exists cfg'. eexists. split; [exact E|]. split; [reflexivity|]. split; [reflexivity|].
    intros c Ec. cbn. unfold file_diagnostic. rewrite Ec. apply app_nil_r.
  - destruct (set_env_config_spec MAX_PORT h _ _ _ _ R) as (cfg' & H & E & _).
    exists cfg'. eexists. split; [exact E|]. split; reflexivity.
  - destruct (set_cmd_line_config_spec MAX_PORT h argv _ _ _ _ R B K)
      as (cfg' & w' & E & _ & Ho & Hq & _).
    exists cfg', w'. split; [exact E|]. split; [exact Ho|]. split; [exact Hq|].
    intros Q. rewrite Ho, (complaints_of_quiet h argv Q). apply app_nil_r.
Qed.

Lemma what_the_loaders_write_witness :
  represents Samples.owned Samples.owner defaults {[ 1%positive := structure ]} /\
  between_options Samples.owned /\
  names_known Samples.layered_argv = true /\
  (exists cfg' w',
     Strict.set_file_config Samples.MAX_PORT Samples.layered Samples.owner Samples.owned
       = Return cfg' w' /\
     out w' = out Samples.owned ++ file_diagnostic Samples.layered /\
     parsers w' = parsers Samples.owned /\
     (forall c, read_file Samples.layered Strict.CONFIG_PATH = inr c ->
                out w' = out Samples.owned)) /\
  (exists cfg' w',
     Strict.set_env_config Samples.MAX_PORT Samples.layered Samples.owner Samples.owned
       = Return cfg' w' /\
     out w' = out Samples.owned /\ parsers w' = parsers Samples.owned) /\
  (exists cfg' w',
     Strict.set_cmd_line_config Samples.MAX_PORT Samples.layered Samples.owner
       Samples.layered_argv Samples.owned = Return cfg' w' /\
     out w' = out Samples.owned ++ complaints_of Samples.layered Samples.layered_argv /\
     parsers w' = parsers Samples.owned /\
     (forallb (fun a => negb (Getopt.short a)) Samples.layered_argv = true ->
      out w' = out Samples.owned)).
Proof.
  split; [exact owned_represents|]. split; [exact owned_between_options|].
  split; [reflexivity|].
  exact (what_the_loaders_write Samples.MAX_PORT Samples.layered Samples.layered_argv
           Samples.owned Samples.owner defaults _ owned_represents
           owned_between_options eq_refl).
Defined.

(** ** The order of the options *)

Lemma fold_merge_app (f : ascii * option string -> candidates)
    (es : list (ascii * option string)) (e : ascii * option string) (acc : candidates) :
  fold_left (fun acc e => merge (f e) acc) (es ++ [e]) acc
  = merge (f e) (fold_left (fun acc e => merge (f e) acc) es acc).
Proof. now rewrite fold_left_app. Qed.

(** X9 — The last option decides. On an argument vector whose long options
    the table names, when the last option the scan returns carries a value,
    the command-line loader leaves that option's field at what this value
    says, whatever earlier options said: a port or mode that passes
    validation is stored, an existing directory becomes the root, and a page
    text is taken as it is. *)
Theorem last_option_decides (MAX_PORT : Z) (h : host) (argv : list string)
    (es : list (ascii * option string)) (opt : ascii) (optarg : string)
    (w : world) (cfg : Strict.config) (v : settings) (F : gmap positive block) :
  names_known argv = true ->
  options_of h argv = es ++ [(opt, Some optarg)] ->
  represents w cfg v F ->
  between_options w ->
  exists cfg' w' v',
    Strict.set_cmd_line_config MAX_PORT h cfg argv w = Return cfg' w' /\
    represents w' cfg' v' F /\
    (opt = "p"%char ->
     forall p, port_of_string MAX_PORT optarg = Some p -> Strict.port cfg' = p) /\
    (opt = "m"%char ->
     Strict.is_valid_mode optarg = true -> Strict.mode cfg' = first_char optarg) /\
    (opt = "r"%char ->
     Strict.is_valid_directory h optarg = true -> s_root_dir v' = optarg) /\
    (opt = "i"%char -> s_index_page v' = optarg) /\
    (opt = "n"%char -> s_not_found_page v' = optarg).
Proof.
  intros K Eo R B.
  destruct (set_cmd_line_config_spec MAX_PORT h argv _ _ _ _ R B K)
    as (cfg' & w' & E & R' & _).
  exists cfg', w', (apply (cli_candidates MAX_PORT h argv) v).
  split; [exact E|]. split; [exact R'|].
  destruct R' as (? & ? & ? & _ & _ & _ & _ & _ & _ & _ & _ & _ & _ & Em' & Ep').
  unfold cli_candidates in *. rewrite Eo, fold_merge_app in *.
  set (before := fold_left _ es nothing) in *.
  unfold apply, merge, later in *.
  cbn [s_port s_mode s_root_dir s_index_page s_not_found_page
       c_port c_mode c_root_dir c_index_page c_not_found_page] in *.
  split; [|split; [|split; [|split]]]; intros ->; cbn in *.
  - intros p Hp. rewrite Ep', Hp. reflexivity.
  - intros Hm. rewrite Em'. unfold mode_of_string. rewrite Hm. cbn.
    destruct optarg as [|c rest]; [discriminate|]. cbn in Hm |- *.
    destruct (c =? "p")%char eqn:Ecp; [apply Ascii.eqb_eq in Ecp; now subst|].
    destruct (c =? "t")%char eqn:Ect; [apply Ascii.eqb_eq in Ect; now subst|discriminate].
  - intros Hd. unfold directory. now rewrite Hd.
  - reflexivity.
  - reflexivity.
Qed.

Lemma last_option_decides_witness :
  let argv := ["server"; "--port=8080"; "--index-page=/a.html"; "readme";
               "--port=abc"; "--port=443"]%string in
  names_known argv = true /\
  options_of Samples.bare argv
  = [("p"%char, Some "8080"%string); ("i"%char, Some "/a.html"%string);
     ("p"%char, Some "abc"%string)] ++ [("p"%char, Some "443"%string)] /\
  represents Samples.owned Samples.owner defaults {[ 1%positive := structure ]} /\
  between_options Samples.owned /\
  exists cfg' w' v',
    Strict.set_cmd_line_config Samples.MAX_PORT Samples.bare Samples.owner argv
      Samples.owned = Return cfg' w' /\
    represents w' cfg' v' {[ 1%positive := structure ]} /\
    ("p"%char = "p"%char ->
     forall p, port_of_string Samples.MAX_PORT "443" = Some p -> Strict.port cfg' = p) /\
    ("p"%char = "m"%char ->
     Strict.is_valid_mode "443" = true -> Strict.mode cfg' = first_char "443") /\
    ("p"%char = "r"%char ->
     Strict.is_valid_directory Samples.bare "443" = true -> s_root_dir v' = "443"%string) /\
    ("p"%char = "i"%char -> s_index_page v' = "443"%string) /\
    ("p"%char = "n"%char -> s_not_found_page v' = "443"%string).
Proof.
  cbv zeta. split; [reflexivity|]. split; [vm_compute; reflexivity|].
  split; [exact owned_represents|]. split; [exact owned_between_options|].
  apply (last_option_decides Samples.MAX_PORT Samples.bare _
           [("p"%char, Some "8080"%string); ("i"%char, Some "/a.html"%string);
            ("p"%char, Some "abc"%string)] "p" "443"
           Samples.owned Samples.owner defaults _).
  - reflexivity.
  - vm_compute; reflexivity.
  - exact owned_represents.
  - exact owned_between_options.
Defined.

(** ** The simplified file loader and its two-byte blocks *)

Lemma substring_whole (s : string) : substring 0 (String.length s + 1) s = s.
Proof. induction s as [|c s IH]; [reflexivity|]. cbn. now rewrite IH. Qed.

(** One text setting of the simplified file loader: a block of two bytes is
    allocated and [strlen + 1] bytes are copied into it. *)
Lemma simplified_text_step (o : option string)
    (set : ptr -> Simplified.config -> Simplified.config)
    (cfg : Simplified.config) (w : world) :
  let m : M Simplified.config :=
    match o with
    | Some s =>
        p ← malloc (Simplified.sizeof_char + 1);
        _ ← strncpy p s (String.length s + 1);
        mret (set p cfg)
    | None => mret cfg
    end in
  let a := fresh (dom (heap w)) in
  ((forall s, o = Some s -> (String.length s <= 1)%nat) ->
   exists w1,
     m w = Return (match o with Some _ => set (Block a) cfg | None => cfg end) w1 /\
     (forall s, o = Some s -> deref w1 (Block a) = Some s) /\
     (forall p x, deref w p = Some x -> deref w1 p = Some x) /\
     parsers w1 = parsers w /\ out w1 = out w) /\
  (forall s, o = Some s -> (2 <= String.length s)%nat ->
   exists w1, m w = Fault (BufferOverflow (Block a)) w1).
Proof.
  intros m a. subst m. destruct o as [s|].
  2:{ split; [|discriminate]. intros _. exists w. now repeat split. }
  unfold mbind, M_bind, malloc, strncpy, mret, M_ret. cbn [heap with_heap].
  fold a. rewrite lookup_insert_eq. cbn [capacity].
  split.
  - intros Hs. specialize (Hs s eq_refl).
    replace (String.length s + 1 <=? Simplified.sizeof_char + 1)%nat with true
      by (symmetry; apply Nat.leb_le; unfold Simplified.sizeof_char; lia).
    eexists. split; [reflexivity|]. repeat split.
    + intros s' [= <-]. cbn. rewrite lookup_insert_eq. cbn. now rewrite substring_whole.
    + intros [l|k] x; cbn; [trivial|].
      destruct (decide (a = k)) as [<-|N].
      * unfold a. now rewrite fresh_not_live.
      * now rewrite !lookup_insert_ne by assumption.
  - intros s' [= <-] Hs.
    replace (String.length s + 1 <=? Simplified.sizeof_char + 1)%nat with false
      by (symmetry; apply Nat.leb_gt; unfold Simplified.sizeof_char; lia).
    eexists. reflexivity.
Qed.

Lemma fits_or_not (o : option string) :
  (forall s, o = Some s -> (String.length s <= 1)%nat) \/
  (exists s, o = Some s /\ (2 <= String.length s)%nat).
Proof.
  destruct o as [s|]; [|left; discriminate].
  destruct (le_lt_dec (String.length s) 1) as [H|H].
  - left. now intros s' [= <-].
  - right. exists s. split; [reflexivity|lia].
Qed.

(** Either every text setting of the file fits its block and the loader
    returns, or the first that does not fit overflows. *)
Lemma simplified_file_loader_outcome (h : host) (c : gmap string Libconfig.setting)
    (cfg : Simplified.config) (w : world) :
  read_file h Simplified.CONFIG_PATH = inr c ->
  let mode := Libconfig.lookup_string c "mode" in
  let root := Libconfig.lookup_string c "directories.root" in
  let index := Libconfig.lookup_string c "pages.index" in
  let not_found := Libconfig.lookup_string c "pages.not_found" in
  let texts := [mode; root; index; not_found] in
  ((forall s, In (Some s) texts -> (String.length s <= 1)%nat) /\
   exists cfg' w',
     Simplified.set_file_config h cfg w = Return cfg' w' /\
     (forall s, mode = Some s -> deref w' (Simplified.mode cfg') = Some s) /\
     (forall s, root = Some s -> deref w' (Simplified.root_dir cfg') = Some s) /\
     (forall s, index = Some s -> deref w' (Simplified.index_page cfg') = Some s) /\
     (forall s, not_found = Some s ->
                deref w' (Simplified.not_found_page cfg') = Some s) /\
     (mode = None -> Simplified.mode cfg' = Simplified.mode cfg) /\
     (root = None -> Simplified.root_dir cfg' = Simplified.root_dir cfg) /\
     (index = None -> Simplified.index_page cfg' = Simplified.index_page cfg) /\
     (not_found = None ->
      Simplified.not_found_page cfg' = Simplified.not_found_page cfg) /\
     Simplified.port cfg'
     = default (Simplified.port cfg) (Libconfig.lookup_int c "port") /\
     out w' = out w /\ parsers w' = parsers w) \/
  ((exists s, In (Some s) texts /\ (2 <= String.length s)%nat) /\
   exists p w', Simplified.set_file_config h cfg w = Fault (BufferOverflow p) w').
Proof.
  intros E mode root index not_found texts.
  unfold Simplified.set_file_config. rewrite E.
  set (w0 := with_parsers (S (parsers w)) w).
  rewrite (bind_return config_init _ w w0 tt eq_refl).
  set (cfg0 := match Libconfig.lookup_int c "port" with
               | Some port => Simplified.set_port port cfg
               | None => cfg
               end).
  fold mode root index not_found.
  (* mode *)
  destruct (simplified_text_step mode Simplified.set_mode cfg0 w0) as [S1 F1].
  cbv zeta in S1, F1.
  destruct (fits_or_not mode) as [Fit1|(s1 & E1 & L1)].
  2:{ right. split; [exists s1; split; [rewrite <- E1; now left|exact L1]|].
      destruct (F1 s1 E1 L1) as (w1 & Em).
      eexists; exists w1. apply bind_fault; exact Em. }
  destruct (S1 Fit1) as (w1 & Em1 & D1 & P1 & Q1 & O1). clear S1 F1.
  rewrite (bind_return _ _ _ _ _ Em1).
  set (cfg1 := match mode with
               | Some _ => Simplified.set_mode (Block (fresh (dom (heap w0)))) cfg0
               | None => cfg0
               end) in *.
  (* root directory *)
  destruct (simplified_text_step root Simplified.set_root_dir cfg1 w1) as [S2 F2].
  cbv zeta in S2, F2.
  destruct (fits_or_not root) as [Fit2|(s2 & E2 & L2)].
  2:{ right. split; [exists s2; split; [rewrite <- E2; right; now left|exact L2]|].
      destruct (F2 s2 E2 L2) as (w2 & Em).
      eexists; exists w2. apply bind_fault; exact Em. }
  destruct (S2 Fit2) as (w2 & Em2 & D2 & P2 & Q2 & O2). clear S2 F2.
  rewrite (bind_return _ _ _ _ _ Em2).
  set (cfg2 := match root with
               | Some _ => Simplified.set_root_dir (Block (fresh (dom (heap w1)))) cfg1
               | None => cfg1
               end) in *.
  (* index page *)
  destruct (simplified_text_step index Simplified.set_index_page cfg2 w2) as [S3 F3].
  cbv zeta in S3, F3.
  destruct (fits_or_not index) as [Fit3|(s3 & E3 & L3)].
  2:{ right. split; [exists s3; split; [rewrite <- E3; right; right; now left|exact L3]|].
      destruct (F3 s3 E3 L3) as (w3 & Em).
      eexists; exists w3. apply bind_fault; exact Em. }
  destruct (S3 Fit3) as (w3 & Em3 & D3 & P3 & Q3 & O3). clear S3 F3.
  rewrite (bind_return _ _ _ _ _ Em3).
  set (cfg3 := match index with
               | Some _ => Simplified.set_index_page (Block (fresh (dom (heap w2)))) cfg2
               | None => cfg2
               end) in *.
  (* not-found page *)
  destruct (simplified_text_step not_found Simplified.set_not_found_page cfg3 w3)
    as [S4 F4].
  cbv zeta in S4, F4.
  destruct (fits_or_not not_found) as [Fit4|(s4 & E4 & L4)].
  2:{ right.
      split; [exists s4; split; [rewrite <- E4; right; right; right; now left|exact L4]|].
      destruct (F4 s4 E4 L4) as (w4 & Em).
      eexists; exists w4. apply bind_fault; exact Em. }
  destruct (S4 Fit4) as (w4 & Em4 & D4 & P4 & Q4 & O4). clear S4 F4.
  rewrite (bind_return _ _ _ _ _ Em4).
  set (cfg4 := match not_found with
               | Some _ =>
                   Simplified.set_not_found_page (Block (fresh (dom (heap w3)))) cfg3
               | None => cfg3
               end) in *.
  left. split.
  { intros s [H|[H|[H|[H|[]]]]]; [apply Fit1|apply Fit2|apply Fit3|apply Fit4]; exact H. }
  exists cfg4, (with_parsers (pred (parsers w4)) w4).
  split; [reflexivity|].
  assert (forall p, deref (with_parsers (pred (parsers w4)) w4) p = deref w4 p) as Dw
    by (intros [|]; reflexivity).
  repeat split.
  - intros s Hs. rewrite Dw. apply P4, P3, P2.
    subst cfg4 cfg3 cfg2 cfg1. rewrite Hs in *.
    destruct not_found, index, root; cbn; now apply D1.
  - intros s Hs. rewrite Dw. apply P4, P3.
    subst cfg4 cfg3 cfg2. rewrite Hs in *.
    destruct not_found, index; cbn; now apply D2.
  - intros s Hs. rewrite Dw. apply P4.
    subst cfg4 cfg3. rewrite Hs in *.
    destruct not_found; cbn; now apply D3.
  - intros s Hs. rewrite Dw. subst cfg4. rewrite Hs in *. cbn. now apply D4.
  - intros Hn. subst cfg4 cfg3 cfg2 cfg1 cfg0. rewrite Hn.
    destruct not_found, index, root, (Libconfig.lookup_int c "port"); reflexivity.
  - intros Hn. subst cfg4 cfg3 cfg2 cfg1 cfg0. rewrite Hn.
    destruct not_found, index, mode, (Libconfig.lookup_int c "port"); reflexivity.
  - intros Hn. subst cfg4 cfg3 cfg2 cfg1 cfg0. rewrite Hn.
    destruct not_found, root, mode, (Libconfig.lookup_int c "port"); reflexivity.
  - intros Hn. subst cfg4 cfg3 cfg2 cfg1 cfg0. rewrite Hn.
    destruct index, root, mode, (Libconfig.lookup_int c "port"); reflexivity.
  - subst cfg4 cfg3 cfg2 cfg1 cfg0.
    destruct not_found, index, root, mode, (Libconfig.lookup_int c "port"); reflexivity.
  - cbn. now rewrite O4, O3, O2, O1.
  - cbn. rewrite Q4, Q3, Q2, Q1. reflexivity.
Qed.

(** X10 — The simplified file loader ([set_file_config] of the unnamed file)
    gives every text setting of a readable file a block of
    [sizeof (char) + 1] = 2 bytes and copies [strlen + 1] bytes into it. So it
    returns exactly when every text setting present in the file ("mode",
    "directories.root", "pages.index", "pages.not_found") has at most one
    character: then each present text reads back from the record, a field
    without a setting keeps its pointer, the port is the file's "port" when
    there is one, and nothing is printed. As soon as one of them has two
    characters or more, the copy runs past the end of its block. *)
Theorem simplified_file_loader_bounds (h : host) (c : gmap string Libconfig.setting)
    (cfg : Simplified.config) (w : world) :
  read_file h Simplified.CONFIG_PATH = inr c ->
  let mode := Libconfig.lookup_string c "mode" in
  let root := Libconfig.lookup_string c "directories.root" in
  let index := Libconfig.lookup_string c "pages.index" in
  let not_found := Libconfig.lookup_string c "pages.not_found" in
  let texts := [mode; root; index; not_found] in
  ((forall s, In (Some s) texts -> (String.length s <= 1)%nat) ->
   exists cfg' w',
     Simplified.set_file_config h cfg w = Return cfg' w' /\
     (forall s, mode = Some s -> deref w' (Simplified.mode cfg') = Some s) /\
     (forall s, root = Some s -> deref w' (Simplified.root_dir cfg') = Some s) /\
     (forall s, index = Some s -> deref w' (Simplified.index_page cfg') = Some s) /\
     (forall s, not_found = Some s ->
                deref w' (Simplified.not_found_page cfg') = Some s) /\
     (mode = None -> Simplified.mode cfg' = Simplified.mode cfg) /\
     (root = None -> Simplified.root_dir cfg' = Simplified.root_dir cfg) /\
     (index = None -> Simplified.index_page cfg' = Simplified.index_page cfg) /\
     (not_found = None ->
      Simplified.not_found_page cfg' = Simplified.not_found_page cfg) /\
     Simplified.port cfg'
     = default (Simplified.port cfg) (Libconfig.lookup_int c "port") /\
     out w' = out w /\ parsers w' = parsers w) /\
  ((exists s, In (Some s) texts /\ (2 <= String.length s)%nat) ->
   exists p w', Simplified.set_file_config h cfg w = Fault (BufferOverflow p) w').
Proof.
  intros E mode root index not_found texts.
  destruct (simplified_file_loader_outcome h c cfg w E)
    as [[Fit R]|[(s & Hs & Ls) F]].
  - split; [intros _; exact R|].
    intros (s & Hs & Ls). specialize (Fit s Hs). lia.
  - split; [|intros _; exact F].
    intros Fit. specialize (Fit s Hs). lia.
Qed.

Lemma simplified_file_loader_bounds_witness :
  (exists cfg' w',
     Simplified.set_file_config
       (Samples.with_file (<["mode" := Libconfig.StringSetting "p"]> ∅))
       Samples.blank_simplified Samples.start = Return cfg' w' /\
     deref w' (Simplified.mode cfg') = Some "p") /\
  (exists p w',
     Simplified.set_file_config
       (Samples.with_file (<["pages.index" := Libconfig.StringSetting "/home.html"]> ∅))
       Samples.blank_simplified Samples.start = Fault (BufferOverflow p) w').
Proof.
  split.
  - destruct (proj1 (simplified_file_loader_bounds
                       (Samples.with_file (<["mode" := Libconfig.StringSetting "p"]> ∅))
                       (<["mode" := Libconfig.StringSetting "p"]> ∅)
                       Samples.blank_simplified Samples.start eq_refl))
      as (cfg' & w' & R & Dm & _).
    + intros s [H|[H|[H|[H|[]]]]]; vm_compute in H; try discriminate.
      injection H as <-. cbn. lia.
    + exists cfg', w'. split; [exact R|]. apply Dm. now vm_compute.
  - apply (proj2 (simplified_file_loader_bounds
                    (Samples.with_file
                       (<["pages.index" := Libconfig.StringSetting "/home.html"]> ∅))
                    (<["pages.index" := Libconfig.StringSetting "/home.html"]> ∅)
                    Samples.blank_simplified Samples.start eq_refl)).
    exists "/home.html". split; [|cbn; lia].
    right; right; left. now vm_compute.
Defined.

(** ** The start screen of the editor *)

Lemma title_row_widths :
  Ncurses.width <$> Ncurses.title_rows = [43; 44; 43; 44; 45].
Proof. reflexivity. Qed.

(** X11 — [print_instructions] prints nothing when the window has fewer than
    63 columns. Otherwise it prints exactly one line, on row
    [MARGIN * 2 + ASCII_TITLE_HEIGHT]; the line is 63 columns wide, starts at
    a column of the window, ends inside the window, and is centred: the space
    to its right is the space to its left, or one column less. *)
Theorem print_instructions_fits (COLS MARGIN : Z) (ASCII_TITLE_HEIGHT : nat) :
  (COLS < 63 -> Ncurses.print_instructions COLS MARGIN ASCII_TITLE_HEIGHT = []) /\
  (63 <= COLS ->
   exists p,
     Ncurses.print_instructions COLS MARGIN ASCII_TITLE_HEIGHT = [p] /\
     Ncurses.row p = MARGIN * 2 + Z.of_nat ASCII_TITLE_HEIGHT /\
     Ncurses.width (Ncurses.text p) = 63 /\
     0 <= Ncurses.col p /\
     Ncurses.col p + Ncurses.width (Ncurses.text p) <= COLS /\
     Ncurses.col p - 1
     <= COLS - (Ncurses.col p + Ncurses.width (Ncurses.text p))
     <= Ncurses.col p).
Proof.
  unfold Ncurses.print_instructions, Ncurses.instruction_cols. split; intros H.
  - now replace (COLS <? 63) with true by (symmetry; apply Z.ltb_lt; lia).
  - replace (COLS <? 63) with false by (symmetry; apply Z.ltb_ge; lia).
    eexists. split; [reflexivity|].
    cbn [Ncurses.row Ncurses.col Ncurses.text].
    change (Ncurses.width _) with 63. change (63 ÷ 2) with 31.
    rewrite Z.quot_div_nonneg by lia.
    pose proof (Z.div_mod COLS 2 ltac:(lia)).
    pose proof (Z.mod_pos_bound COLS 2 ltac:(lia)).
    repeat split; lia.
Qed.

Ltac measure :=
  cbn [Ncurses.row Ncurses.col Ncurses.text];
  repeat match goal with
         | |- context [Ncurses.width ?s] =>
             let v := eval vm_compute in (Ncurses.width s) in
             change (Ncurses.width s) with v
         end.

Lemma print_rows_null (start_row x i : Z) (rest : list (option string)) :
  In None rest -> Ncurses.print_rows start_row x i rest = None.
Proof.
  revert i. induction rest as [|[r|] rest IH]; intros i; cbn.
  - intros [].
  - intros [H|H]; [discriminate|]. now rewrite IH.
  - reflexivity.
Qed.

(** X12 — [print_ascii_art_title] prints nothing when the window has fewer
    than 44 columns. In a wider window with [ASCII_TITLE_HEIGHT] at most 5 it
    prints the first [ASCII_TITLE_HEIGHT] rows of the title, row [i] on line
    [MARGIN + i], all from the same column [COLS / 2 - 22] of the window; they
    all end inside the window exactly when it has 45 columns or fewer than
    five rows are printed: the fifth row is 45 columns wide, one more than the
    44 the function tests for. With [ASCII_TITLE_HEIGHT] above 5 the
    array has null elements after the title, and the loop hands one to
    [mvwprintw] as the format. *)
Theorem print_ascii_art_title_layout (COLS MARGIN : Z) (ASCII_TITLE_HEIGHT : nat) :
  (COLS < 44 ->
   Ncurses.print_ascii_art_title COLS MARGIN ASCII_TITLE_HEIGHT = Some []) /\
  (44 <= COLS -> (ASCII_TITLE_HEIGHT <= 5)%nat ->
   exists ps,
     Ncurses.print_ascii_art_title COLS MARGIN ASCII_TITLE_HEIGHT = Some ps /\
     Ncurses.text <$> ps = take ASCII_TITLE_HEIGHT Ncurses.title_rows /\
     (forall i p, ps !! i = Some p ->
        Ncurses.row p = MARGIN + Z.of_nat i /\
        Ncurses.col p = COLS ÷ 2 - 22 /\
        0 <= Ncurses.col p) /\
     ((forall p, In p ps -> Ncurses.col p + Ncurses.width (Ncurses.text p) <= COLS)
      <-> 45 <= COLS \/ (ASCII_TITLE_HEIGHT < 5)%nat)) /\
  (44 <= COLS -> (5 < ASCII_TITLE_HEIGHT)%nat ->
   Ncurses.print_ascii_art_title COLS MARGIN ASCII_TITLE_HEIGHT = None).
Proof.
  unfold Ncurses.print_ascii_art_title, Ncurses.title_cols.
  split; [|split].
  - intros H. now replace (COLS <? 44) with true by (symmetry; apply Z.ltb_lt; lia).
  - intros H Hh. replace (COLS <? 44) with false by (symmetry; apply Z.ltb_ge; lia).
    cbv zeta. change (44 ÷ 2) with 22.
    assert (0 <= COLS ÷ 2 - 22 /\
            (COLS ÷ 2 - 22 + 44 <= COLS) /\
            (COLS ÷ 2 - 22 + 45 <= COLS <-> 45 <= COLS)) as (Hx & Hy & Hz).
    { rewrite Z.quot_div_nonneg by lia.
      pose proof (Z.div_mod COLS 2 ltac:(lia)).
      pose proof (Z.mod_pos_bound COLS 2 ltac:(lia)).
      repeat split; lia. }
    remember (COLS ÷ 2 - 22) as x eqn:Ex.
    destruct ASCII_TITLE_HEIGHT as [|[|[|[|[|[|n]]]]]]; [| | | | | |lia];
      (eexists; split; [reflexivity|]; split; [reflexivity|]; split;
       [intros i p Hp;
        repeat (destruct i as [|i]; [injection Hp as <-; cbn; repeat split; lia|]);
        discriminate Hp|]).
    all: split.
    all: try solve [intros _; right; lia].
    all: try solve [intros _ p Hp; cbn in Hp;
                    repeat (destruct Hp as [<-|Hp]; [measure; lia|]); destruct Hp].
    + intros Hf. left. apply Hz.
      match type of Hf with
      | forall p, In p [_; _; _; _; ?last] -> _ =>
          specialize (Hf last ltac:(do 4 right; now left))
      end.
      revert Hf. measure. lia.
    + intros [Hc|Hc]; [|lia]. intros p Hp. cbn in Hp.
      repeat (destruct Hp as [<-|Hp]; [measure; lia|]). destruct Hp.
  - intros H Hh. replace (COLS <? 44) with false by (symmetry; apply Z.ltb_ge; lia).
    cbv zeta. apply print_rows_null.
    unfold Ncurses.rows. apply in_or_app. right.
    change (length Ncurses.title_rows) with 5%nat.
    destruct (ASCII_TITLE_HEIGHT - 5)%nat as [|n] eqn:En; [lia|]. now left.
Qed.

(** ** The scan of an array, read off its elements *)

Lemma drop_blocks (P N O R : list string) :
  drop (length P + length N + length O) (P ++ N ++ O ++ R) = R.
Proof.
  rewrite (app_assoc P N), (app_assoc (P ++ N) O).
  apply drop_app_length'. rewrite !length_app. lia.
Qed.

Lemma lookup_blocks (P N O R : list string) :
  (P ++ N ++ O ++ R) !! (length P + length N + length O)%nat = head R.
Proof.
  rewrite <- (Nat.add_0_r (length P + length N + length O)), <- lookup_drop, drop_blocks.
  now destruct R.
Qed.

Lemma exchange_blocks (P N O R : list string) :
  Getopt.exchange (P ++ N ++ O ++ R) (length P) (length P + length N)
    (length P + length N + length O)
  = P ++ O ++ N ++ R.
Proof.
  unfold Getopt.exchange.
  destruct ((length P <? length P + length N)%nat
            && (length P + length N <? length P + length N + length O)%nat) eqn:G.
  - unfold Getopt.segment.
    rewrite drop_blocks, take_app_length.
    replace (drop (length P + length N) (P ++ N ++ O ++ R)) with (O ++ R).
    2:{ rewrite (app_assoc P N). symmetry. apply drop_app_length'.
        rewrite length_app. lia. }
    rewrite drop_app_length.
    replace (length P + length N + length O - (length P + length N))%nat
      with (length O) by lia.
    replace (length P + length N - length P)%nat with (length N) by lia.
    now rewrite !take_app_length.
  - apply andb_false_iff in G as [G|G]; apply Nat.ltb_ge in G.
    + assert (N = []) as -> by (destruct N; [reflexivity|cbn in G; lia]).
      reflexivity.
    + assert (O = []) as -> by (destruct O; [reflexivity|cbn in G; lia]).
      reflexivity.
Qed.

Lemma skip_nonoptions_take (R : list string) :
  Forall (fun a => Getopt.nonoption a = true) (take (Getopt.skip_nonoptions R) R).
Proof.
  induction R as [|a R IH]; cbn; [constructor|].
  destruct (Getopt.nonoption a) eqn:E; cbn; [|constructor].
  constructor; assumption.
Qed.

(** Under [PERMUTE], with the options [O] returned since the non-options [N]
    were passed over: [O] moves in front of [N], and the non-options at the
    head of [R] join [N]. *)
Lemma pass_nonoptions_blocks (P N O R : list string) (nc : string) :
  Getopt.pass_nonoptions (P ++ N ++ O ++ R) (at_blocks P N O nc)
  = ((P ++ O) ++ (N ++ take (Getopt.skip_nonoptions R) R) ++ []
       ++ drop (Getopt.skip_nonoptions R) R,
     at_blocks (P ++ O) (N ++ take (Getopt.skip_nonoptions R) R) [] "").
Proof.
  unfold Getopt.pass_nonoptions, at_blocks.
  cbn [Getopt.v_optind Getopt.v_first Getopt.v_last].
  set (i := (length P + length N + length O)%nat).
  assert ((if negb (length P =? length P + length N)%nat
              && negb (length P + length N =? i)%nat
           then (Getopt.exchange (P ++ N ++ O ++ R) (length P) (length P + length N) i,
                 (length P + (i - (length P + length N)))%nat)
           else if negb (length P + length N =? i)%nat then (P ++ N ++ O ++ R, i)
                else (P ++ N ++ O ++ R, length P))
          = (P ++ O ++ N ++ R, (length P + length O)%nat)) as ->.
  { destruct (negb (length P =? length P + length N)%nat
              && negb (length P + length N =? i)%nat) eqn:G.
    - unfold i. rewrite exchange_blocks. f_equal. lia.
    - destruct (negb (length P + length N =? i)%nat) eqn:G2.
      + rewrite andb_true_r in G.
        apply negb_false_iff, Nat.eqb_eq in G.
        assert (N = []) as -> by (destruct N; [reflexivity|cbn in G; lia]).
        f_equal. unfold i. cbn. lia.
      + apply negb_false_iff, Nat.eqb_eq in G2. unfold i in G2.
        assert (O = []) as -> by (destruct O; [reflexivity|cbn in G2; lia]).
        f_equal. cbn. lia. }
  assert (drop i (P ++ O ++ N ++ R) = R) as ->.
  { rewrite (app_assoc P O), (app_assoc (P ++ O) N).
    apply drop_app_length'. rewrite !length_app. unfold i. lia. }
  pose proof (skip_nonoptions_le R) as Hk.
  f_equal.
  - cbn [app]. rewrite <- !app_assoc. now rewrite take_drop.
  - rewrite !length_app, length_take. cbn [length].
    f_equal; unfold i; lia.
Qed.

(** The element [--] in front of the scanner: it joins the options, these
    move in front of the non-options passed over, and all that follows is
    left to the caller. *)
Lemma end_of_options_blocks (P N O R : list string) (nc : string) :
  Getopt.end_of_options (P ++ N ++ O ++ "--"%string :: R) (at_blocks P N O nc)
  = (P ++ (O ++ ["--"%string]) ++ N ++ R,
     {| Getopt.v_optind := length (P ++ (O ++ ["--"%string]) ++ N ++ R);
        Getopt.v_nextchar := "";
        Getopt.v_first := length P + length O + 1;
        Getopt.v_last := length (P ++ (O ++ ["--"%string]) ++ N ++ R) |}).
Proof.
  unfold Getopt.end_of_options, at_blocks.
  cbn [Getopt.v_optind Getopt.v_first Getopt.v_last].
  set (i := S (length P + length N + length O)).
  assert (i = (length P + length N + length (O ++ ["--"%string]))%nat) as Ei
    by (unfold i; rewrite length_app; cbn; lia).
  assert (P ++ N ++ O ++ "--"%string :: R = P ++ N ++ (O ++ ["--"%string]) ++ R) as Ea
    by (now rewrite <- (app_assoc O)).
  assert ((if negb (length P =? length P + length N)%nat
              && negb (length P + length N =? i)%nat
           then (Getopt.exchange (P ++ N ++ O ++ "--"%string :: R) (length P)
                   (length P + length N) i,
                 (length P + (i - (length P + length N)))%nat)
           else if (length P =? length P + length N)%nat
                then (P ++ N ++ O ++ "--"%string :: R, i)
                else (P ++ N ++ O ++ "--"%string :: R, length P))
          = (P ++ (O ++ ["--"%string]) ++ N ++ R, (length P + length O + 1)%nat)) as ->.
  { assert (negb (length P + length N =? i)%nat = true) as ->
      by (apply negb_true_iff, Nat.eqb_neq; unfold i; lia).
    rewrite andb_true_r.
    destruct (length P =? length P + length N)%nat eqn:G; cbn [negb].
    - apply Nat.eqb_eq in G.
      assert (N = []) as -> by (destruct N; [reflexivity|cbn in G; lia]).
      rewrite Ea. f_equal. unfold i. cbn. lia.
    - rewrite Ea, Ei, exchange_blocks. f_equal. rewrite length_app. cbn. lia. }
  reflexivity.
Qed.

Lemma nonoption_not_end (a : string) :
  Getopt.nonoption a = true -> String.eqb a "--" = false.
Proof.
  intros H. destruct (String.eqb a "--") eqn:E; [|reflexivity].
  apply String.eqb_eq in E. subst a. discriminate H.
Qed.

Lemma option_element_spec (a : string) :
  option_element a = true <->
  Getopt.nonoption a = false /\ String.eqb a "--" = false.
Proof.
  unfold option_element. rewrite andb_true_iff, !negb_true_iff. tauto.
Qed.

Lemma listed_options ord (O X : list string) :
  Forall (fun a => option_element a = true) O ->
  listed ord (O ++ X) = flat_map item O ++ listed ord X.
Proof.
  induction 1 as [|a O Ha _ IH]; [reflexivity|].
  apply option_element_spec in Ha as [Hn He].
  cbn [app listed flat_map]. rewrite He, Hn, IH. now rewrite app_assoc.
Qed.

Lemma listed_nonoptions ord (N X : list string) :
  Forall (fun a => Getopt.nonoption a = true) N ->
  (ord = Getopt.REQUIRE_ORDER -> N = []) ->
  listed ord (N ++ X) = listed ord X.
Proof.
  intros HN Hord. destruct ord; [now rewrite Hord|].
  clear Hord. induction HN as [|a N Ha _ IH]; [reflexivity|].
  cbn [app listed]. now rewrite (nonoption_not_end a Ha), Ha.
Qed.

Lemma listed_skip (R : list string) :
  listed Getopt.PERMUTE (drop (Getopt.skip_nonoptions R) R) = listed Getopt.PERMUTE R.
Proof.
  rewrite <- (take_drop (Getopt.skip_nonoptions R) R) at 3.
  symmetry. apply listed_nonoptions; [apply skip_nonoptions_take|discriminate].
Qed.

(** The options of an array, by its blocks. *)
Lemma listed_blocks ord (P N O R : list string) :
  P <> [] ->
  Forall (fun a => option_element a = true) (tail P) ->
  Forall (fun a => Getopt.nonoption a = true) N ->
  (ord = Getopt.REQUIRE_ORDER -> N = []) ->
  Forall (fun a => option_element a = true) O ->
  listed ord (drop 1 (P ++ N ++ O ++ R))
  = flat_map item (tail P) ++ flat_map item O ++ listed ord R.
Proof.
  intros HP FP FN Hord FO. destruct P as [|p0 P']; [congruence|].
  cbn [app drop tail] in *. rewrite drop_0.
  now rewrite (listed_options _ _ _ FP), (listed_nonoptions _ _ _ FN Hord),
    (listed_options _ _ _ FO).
Qed.

(** Getting to the next element, by blocks: what is left in front of the
    scanner has the same options as before. *)
Lemma advance_blocks (ord : Getopt.ordering) (P N O R : list string) (nc : string) :
  P <> [] ->
  Forall (fun a => option_element a = true) (tail P) ->
  Forall (fun a => Getopt.nonoption a = true) N ->
  (ord = Getopt.REQUIRE_ORDER -> N = []) ->
  Forall (fun a => option_element a = true) O ->
  exists P1 N1 O1 R1,
    Getopt.advance ord (P ++ N ++ O ++ R) (at_blocks P N O nc)
    = (if bool_decide (head R1 = Some "--"%string)
       then Getopt.end_of_options (P1 ++ N1 ++ O1 ++ R1) (at_blocks P1 N1 O1 "")
       else (P1 ++ N1 ++ O1 ++ R1, at_blocks P1 N1 O1 "")) /\
    P1 <> [] /\
    Forall (fun a => option_element a = true) (tail P1) /\
    Forall (fun a => Getopt.nonoption a = true) N1 /\
    (ord = Getopt.REQUIRE_ORDER -> N1 = []) /\
    Forall (fun a => option_element a = true) O1 /\
    flat_map item (tail P1) ++ flat_map item O1
    = flat_map item (tail P) ++ flat_map item O /\
    listed ord R1 = listed ord R /\
    (forall x, In x R1 -> In x R) /\
    (Getopt.weight R1 <= Getopt.weight R)%nat /\
    (ord = Getopt.PERMUTE -> forall a R', R1 = a :: R' -> Getopt.nonoption a = false).
Proof.
  intros HP FP FN Hord FO. unfold Getopt.advance.
  assert ({| Getopt.v_optind := Getopt.v_optind (at_blocks P N O nc);
             Getopt.v_nextchar := "";
             Getopt.v_first := Nat.min (Getopt.v_first (at_blocks P N O nc))
                                 (Getopt.v_optind (at_blocks P N O nc));
             Getopt.v_last := Nat.min (Getopt.v_last (at_blocks P N O nc))
                                (Getopt.v_optind (at_blocks P N O nc)) |}
          = at_blocks P N O "") as ->.
  { unfold at_blocks. cbn [Getopt.v_optind Getopt.v_first Getopt.v_last].
    f_equal; lia. }
  destruct ord.
  - exists P, N, O, R.
    split.
    { unfold at_blocks at 1. cbn [Getopt.v_optind].
      rewrite (bool_decide_ext _ (head R = Some "--"%string)); [reflexivity|].
      now rewrite lookup_blocks. }
    repeat split; try assumption; try reflexivity; try lia;
      [now intros x Hx|intros [=]].
  - rewrite pass_nonoptions_blocks.
    set (k := Getopt.skip_nonoptions R).
    exists (P ++ O), (N ++ take k R), [], (drop k R).
    split.
    { unfold at_blocks at 1. cbn [Getopt.v_optind].
      rewrite (bool_decide_ext _ (head (drop k R) = Some "--"%string)); [reflexivity|].
      now rewrite lookup_blocks. }
    assert (tail (P ++ O) = tail P ++ O) as Et by (destruct P; [congruence|reflexivity]).
    split; [destruct P; [congruence|discriminate]|].
    split; [rewrite Et; now apply Forall_app|].
    split; [apply Forall_app; split; [assumption|apply skip_nonoptions_take]|].
    split; [discriminate|]. split; [constructor|].
    split; [rewrite Et, flat_map_app; cbn [flat_map]; now rewrite app_nil_r|].
    split; [apply listed_skip|].
    split.
    { intros x Hx. rewrite <- (take_drop k R). apply in_or_app. now right. }
    split.
    { pose proof (weight_drop_le R 0 k ltac:(lia)) as H. now rewrite drop_0 in H. }
    intros _ a R' E. apply (skip_nonoptions_stops R).
    fold k. rewrite <- (Nat.add_0_r k), <- lookup_drop, E. reflexivity.
Qed.

Lemma named_element (a : string) (c1 c2 : ascii) (body : string) :
  Getopt.named long_options a = true ->
  a = String c1 (String c2 body) ->
  Getopt.nonoption a = false -> (c2 =? "-")%char = true -> a <> "--"%string ->
  exists o, Getopt.find_long long_options (fst (Getopt.split_eq body)) = Some o /\
            Getopt.arg o = Getopt.optional_argument.
Proof.
  intros K -> Na E2 Hne.
  assert ((c1 =? "-")%char = true) as E1 by (cbn in Na; now apply negb_false_iff in Na).
  destruct body as [|c3 body].
  { apply Ascii.eqb_eq in E1, E2. subst. congruence. }
  unfold Getopt.named in K. rewrite E1, E2 in K. cbn [andb] in K.
  apply bool_decide_eq_true in K as [o Ho]. exists o. split; [exact Ho|].
  exact (long_options_optional o (proj1 (find_long_in _ _ _ Ho))).
Qed.

Lemma weight_cons (a : string) (l : list string) :
  Getopt.weight (a :: l) = (String.length a + Getopt.weight l)%nat.
Proof. reflexivity. Qed.

(** A scan, by blocks: the options it returns are those of the elements in
    front of it, and the array it leaves has the options it had. *)
Lemma scan_blocks (ord : Getopt.ordering) (fuel : nat) :
  forall (P N O R : list string) (nc : string),
    P <> [] ->
    Forall (fun a => option_element a = true) (tail P) ->
    Forall (fun a => Getopt.nonoption a = true) N ->
    (ord = Getopt.REQUIRE_ORDER -> N = []) ->
    Forall (fun a => option_element a = true) O ->
    match nc with
    | EmptyString => True
    | String _ _ => exists a R', R = a :: R' /\ option_element a = true
    end ->
    (forall a, In a R -> Getopt.named long_options a = true) ->
    (String.length nc
     + Getopt.weight (match nc with EmptyString => R | String _ _ => tail R end)
     < fuel)%nat ->
    Getopt.events fuel ord long_options (P ++ N ++ O ++ R) (at_blocks P N O nc)
    = pending ord nc R /\
    listed ord
      (drop 1 (Getopt.permuted fuel ord long_options (P ++ N ++ O ++ R)
                 (at_blocks P N O nc)))
    = flat_map item (tail P) ++ flat_map item O ++ listed ord R.
Proof.
  induction fuel as [|fuel IH]; intros P N O R nc HP FP FN Hord FO Hnc K Hfuel; [lia|].
  cbn [Getopt.events Getopt.permuted].
  assert (forall (P' N' O' : list string) (a : string) (R' : list string),
            P' ++ N' ++ O' ++ a :: R' = P' ++ N' ++ (O' ++ [a]) ++ R') as Eshift
    by (intros; now rewrite <- (app_assoc O')).
  remember (Getopt.step ord long_options (P ++ N ++ O ++ R) (at_blocks P N O nc))
    as st eqn:Est.
  unfold Getopt.step in Est.
  assert ((length (P ++ N ++ O ++ R) <? 1)%nat = false) as E1.
  { apply Nat.ltb_ge. rewrite length_app. destruct P; [congruence|cbn; lia]. }
  assert ((Getopt.v_optind (at_blocks P N O nc) =? 0)%nat = false) as E2.
  { apply Nat.eqb_neq. unfold at_blocks; cbn [Getopt.v_optind].
    destruct P; [congruence|cbn; lia]. }
  rewrite E1, E2 in Est. clear E1 E2.
  destruct nc as [|c rest].
  - (* between two elements *)
    cbn [Getopt.v_nextchar Getopt.v_optind at_blocks] in Est.
    assert ((length (P ++ N ++ O ++ R) <? length P + length N + length O)%nat = false)
      as E3 by (apply Nat.ltb_ge; rewrite !length_app; lia).
    rewrite E3 in Est. clear E3.
    destruct (advance_blocks ord P N O R "" HP FP FN Hord FO)
      as (P1 & N1 & O1 & R1 & Ea & HP1 & FP1 & FN1 & Hord1 & FO1 & Hit & Hl & Hin & Hw
          & Hperm).
    rewrite Ea in Est. clear Ea.
    cbn [pending]. rewrite <- Hl.
    rewrite (app_assoc (flat_map item (tail P))), <- Hit, <- app_assoc.
    destruct R1 as [|a R'].
    + (* the end of the array *)
      cbn [head] in Est. rewrite bool_decide_eq_false_2 in Est by discriminate.
      cbv beta iota in Est. cbn [Getopt.v_optind at_blocks] in Est.
      rewrite lookup_blocks in Est. cbn [head] in Est. subst st.
      split; [reflexivity|]. now apply listed_blocks.
    + destruct (decide (a = "--"%string)) as [->|Hne].
      * (* the element that ends the options *)
        cbn [head] in Est. rewrite bool_decide_eq_true_2 in Est by reflexivity.
        rewrite end_of_options_blocks in Est. cbv beta iota in Est.
        cbn [Getopt.v_optind] in Est.
        rewrite lookup_ge_None_2 in Est by lia. subst st.
        split; [reflexivity|].
        destruct P1 as [|p0 P1']; [congruence|]. cbn [app drop tail] in *.
        rewrite drop_0, (listed_options _ _ _ FP1), <- app_assoc,
          (listed_options _ _ _ FO1).
        reflexivity.
      * cbn [head] in Est. rewrite bool_decide_eq_false_2 in Est by congruence.
        cbv beta iota in Est. cbn [Getopt.v_optind at_blocks] in Est.
        rewrite lookup_blocks in Est. cbn [head] in Est.
        assert (String.eqb a "--" = false) as Ee by now apply String.eqb_neq.
        destruct (Getopt.nonoption a) eqn:Na.
        { (* a non-option, in order *)
          destruct ord; [|now rewrite (Hperm eq_refl a R' eq_refl) in Na].
          subst st. cbn [listed]. rewrite Ee, Na.
          split; [reflexivity|].
          rewrite listed_blocks by assumption. cbn [listed]. now rewrite Ee, Na. }
        assert (option_element a = true) as Ha by now apply option_element_spec.
        assert (Forall (fun a => option_element a = true) (O1 ++ [a])) as FO1'
          by (apply Forall_app; split; [assumption|now constructor]).
        assert (forall x, In x R' -> Getopt.named long_options x = true) as K'
          by (intros x Hx; apply K, Hin; now right).
        assert (flat_map item (O1 ++ [a]) = flat_map item O1 ++ item a) as Eit
          by (rewrite flat_map_app; cbn [flat_map]; now rewrite app_nil_r).
        assert ({| Getopt.v_optind := S (length P1 + length N1 + length O1);
                   Getopt.v_nextchar := "";
                   Getopt.v_first := Getopt.v_first (at_blocks P1 N1 O1 "");
                   Getopt.v_last := Getopt.v_last (at_blocks P1 N1 O1 "") |}
                = at_blocks P1 N1 (O1 ++ [a]) "") as Ev.
        { unfold at_blocks. cbn [Getopt.v_first Getopt.v_last].
          f_equal. rewrite length_app. cbn. lia. }
        assert (Getopt.named long_options a = true) as Ka by (apply K, Hin; now left).
        rewrite weight_cons in Hw.
        destruct a as [|c1 [|c2 body]]; try discriminate Na.
        destruct (c2 =? "-")%char eqn:E2.
        { (* a long option *)
          destruct (named_element _ c1 c2 body Ka eq_refl Na E2 Hne) as (o & Ho & Harg).
          unfold Getopt.process_long_option in Est.
          destruct (Getopt.split_eq body) as [nm att] eqn:Es. cbn [fst] in Ho.
          rewrite Ho, Harg in Est.
          assert (item (String c1 (String c2 body)) = [(Getopt.val o, att)]) as Ei
            by (unfold item; now rewrite E2, Es, Ho).
          assert (listed ord (String c1 (String c2 body) :: R')
                  = (Getopt.val o, att) :: listed ord R') as El
            by (cbn [listed]; now rewrite Ee, Na, Ei).
          rewrite El.
          destruct (IH P1 N1 (O1 ++ [String c1 (String c2 body)]) R' ""
                      HP1 FP1 FN1 Hord1 FO1' I K') as (IHe & IHp).
          { cbn [String.length] in *. lia. }
          destruct att as [x|]; rewrite Ev, Eshift in Est; subst st;
            rewrite IHe, IHp, Eit, Ei;
            cbn [pending]; (split; [reflexivity|]); now rewrite <- !app_assoc. }
        (* a cluster of short options *)
        unfold Getopt.short_option in Est.
        assert (item (String c1 (String c2 body)) = ("?"%char, None) :: cluster body) as Ei
          by (unfold item; now rewrite E2).
        assert (listed ord (String c1 (String c2 body) :: R')
                = ("?"%char, None) :: cluster body ++ listed ord R') as El
          by (cbn [listed]; now rewrite Ee, Na, Ei).
        rewrite El.
        destruct body as [|c3 body].
        { destruct (IH P1 N1 (O1 ++ [String c1 (String c2 "")]) R' ""
                      HP1 FP1 FN1 Hord1 FO1' I K') as (IHe & IHp).
          { cbn [String.length] in *. lia. }
          cbn [Getopt.v_optind at_blocks] in Est.
          rewrite Ev, Eshift in Est. subst st.
          rewrite IHe, IHp, Eit, Ei.
          cbn [pending cluster app]. split; [reflexivity|]. now rewrite <- !app_assoc. }
        destruct (IH P1 N1 O1 (String c1 (String c2 (String c3 body)) :: R')
                    (String c3 body) HP1 FP1 FN1 Hord1 FO1) as (IHe & IHp).
        { eauto. }
        { exact (fun x Hx => K x (Hin x Hx)). }
        { cbn [tail String.length] in *. lia. }
        assert ({| Getopt.v_optind := Getopt.v_optind (at_blocks P1 N1 O1 "");
                   Getopt.v_nextchar := String c3 body;
                   Getopt.v_first := Getopt.v_first (at_blocks P1 N1 O1 "");
                   Getopt.v_last := Getopt.v_last (at_blocks P1 N1 O1 "") |}
                = at_blocks P1 N1 O1 (String c3 body)) as Ev' by reflexivity.
        rewrite Ev' in Est. subst st.
        rewrite IHe, IHp, El. cbn [pending tail]. split; reflexivity.
  - (* within a cluster *)
    cbn [Getopt.v_nextchar at_blocks] in Est.
    destruct Hnc as (a & R' & -> & Ha).
    pose proof (proj1 (option_element_spec a) Ha) as [Na Ee].
    unfold Getopt.short_option in Est. cbn [tail] in Hfuel.
    assert (listed ord (a :: R') = item a ++ listed ord R') as El
      by (cbn [listed]; now rewrite Ee, Na).
    destruct rest as [|c' rest].
    + assert ({| Getopt.v_optind := S (Getopt.v_optind (at_blocks P N O (String c "")));
                 Getopt.v_nextchar := "";
                 Getopt.v_first := Getopt.v_first (at_blocks P N O (String c ""));
                 Getopt.v_last := Getopt.v_last (at_blocks P N O (String c "")) |}
              = at_blocks P N (O ++ [a]) "") as Ev.
      { unfold at_blocks. cbn [Getopt.v_optind Getopt.v_first Getopt.v_last].
        f_equal. rewrite length_app. cbn. lia. }
      rewrite Ev, Eshift in Est. subst st.
      destruct (IH P N (O ++ [a]) R' "" HP FP FN Hord) as (IHe & IHp).
      { apply Forall_app; split; [assumption|now constructor]. }
      { exact I. }
      { intros x Hx. apply K. now right. }
      { cbn [String.length] in *. lia. }
      rewrite IHe, IHp, El, flat_map_app.
      cbn [pending cluster tail app flat_map]. rewrite app_nil_r.
      split; [reflexivity|]. now rewrite <- !app_assoc.
    + assert ({| Getopt.v_optind := Getopt.v_optind (at_blocks P N O (String c (String c' rest)));
                 Getopt.v_nextchar := String c' rest;
                 Getopt.v_first := Getopt.v_first (at_blocks P N O (String c (String c' rest)));
                 Getopt.v_last := Getopt.v_last (at_blocks P N O (String c (String c' rest))) |}
              = at_blocks P N O (String c' rest)) as Ev by reflexivity.
      rewrite Ev in Est. subst st.
      destruct (IH P N O (a :: R') (String c' rest) HP FP FN Hord FO) as (IHe & IHp).
      { eauto. }
      { exact K. }
      { cbn [tail String.length] in *. lia. }
      rewrite IHe, IHp. cbn [pending cluster tail app]. split; reflexivity.
Qed.

Lemma names_known_elements (argv : list string) :
  names_known argv = true <-> forall a, In a argv -> Getopt.named long_options a = true.
Proof. unfold names_known. apply forallb_forall. Qed.

Lemma names_known_perm (argv argv' : list string) :
  argv' ≡ₚ argv -> names_known argv = true -> names_known argv' = true.
Proof.
  rewrite !names_known_elements. intros P K a Ha. apply K.
  apply list_elem_of_In. rewrite <- P. now apply list_elem_of_In.
Qed.

Lemma scan_from_the_start (h : host) (p0 : string) (R : list string) :
  names_known (p0 :: R) = true ->
  options_of h (p0 :: R) = listed (ordering_of h) R /\
  listed (ordering_of h) (drop 1 (permuted h (p0 :: R))) = listed (ordering_of h) R.
Proof.
  intros K. unfold options_of, permuted.
  change (p0 :: R) with ([p0] ++ [] ++ [] ++ R) at 2 4.
  change Getopt.at_start with (at_blocks [p0] [] [] "").
  apply (scan_blocks (ordering_of h) (Getopt.bound (p0 :: R)) [p0] [] [] R "");
    [discriminate|constructor|constructor|reflexivity|constructor|exact I| |].
  - intros a Ha. apply (proj1 (names_known_elements _) K). now right.
  - pose proof (remaining_at_start (p0 :: R)) as H.
    unfold Getopt.remaining in H. cbn [Getopt.v_nextchar Getopt.v_optind Getopt.at_start] in H.
    cbn [drop] in H. rewrite drop_0 in H. exact H.
Qed.

(** The options that a scan of [argv] returns are those of its elements,
    taken in their order up to the element [--]. *)
Lemma options_of_listed (h : host) (argv : list string) :
  names_known argv = true ->
  options_of h argv = listed (ordering_of h) (drop 1 argv).
Proof.
  destruct argv as [|p0 R]; [reflexivity|].
  intros K. cbn [drop]. rewrite drop_0. now apply scan_from_the_start.
Qed.

Lemma permuted_in_scan ord table argv0 (fuel : nat) :
  forall argv v,
    in_scan argv0 argv v -> Getopt.permuted fuel ord table argv v ≡ₚ argv0.
Proof.
  induction fuel as [|fuel IH]; intros argv v S; cbn [Getopt.permuted]; [apply S|].
  destruct (Getopt.step ord table argv v) as [f|[[[r argv'] v'] lines]] eqn:Es;
    [apply S|].
  destruct (step_in_scan _ _ _ _ _ _ _ _ _ S Es) as (S' & _).
  destruct r; [now apply IH|apply S'].
Qed.

(** A scan reorders the array, and the array it leaves has the same options. *)
Lemma permuted_perm (h : host) (argv : list string) : permuted h argv ≡ₚ argv.
Proof.
  destruct (decide (argv = [])) as [->|Ha]; [reflexivity|].
  apply permuted_in_scan. now apply in_scan_at_start.
Qed.

Lemma options_of_permuted (h : host) (argv : list string) :
  names_known argv = true ->
  options_of h (permuted h argv) = options_of h argv.
Proof.
  intros K.
  rewrite (options_of_listed h (permuted h argv))
    by (apply (names_known_perm argv); [apply permuted_perm|exact K]).
  rewrite (options_of_listed h argv K).
  destruct argv as [|p0 R]; [reflexivity|].
  cbn [drop]. rewrite drop_0. now apply scan_from_the_start.
Qed.

Lemma resolve_permuted (MAX_PORT : Z) (h : host) (argv : list string) :
  names_known argv = true ->
  resolve MAX_PORT h (permuted h argv) = resolve MAX_PORT h argv.
Proof.
  intros K. unfold resolve, cli_candidates. now rewrite (options_of_permuted h argv K).
Qed.

Example permuted_example :
  permuted Samples.bare
    ["server"; "a"; "--port=81"; "b"; "--mode"; "p"; "--"; "--port=1"]%string
  = ["server"; "--port=81"; "--mode"; "--"; "a"; "b"; "p"; "--port=1"]%string /\
  options_of Samples.bare
    ["server"; "a"; "--port=81"; "b"; "--mode"; "p"; "--"; "--port=1"]%string
  = [("p"%char, Some "81"%string); ("m"%char, None)].
Proof. split; vm_compute; reflexivity. Qed.

(** X4 — Resolution can be repeated. From a state in which the scanner is
    between elements, and on an argument vector whose long options the table
    names, [get_config] of [src/http_protocol/config.c] returns a record that
    reads as the resolved values. A second [get_config] in the state the
    first one left, on the array as the scanner of the first run reordered it
    or on an array with the elements in their first order, returns a record
    with the same values. Nor do [optind] and the bounds of the non-options
    at entry play any part, in the values or in the exit status:
    [set_cmd_line_config] assigns [optind] before it scans. *)
Theorem resolution_repeats (MAX_PORT : Z) (h : host) (u1 u2 : Strict.config)
    (argv : list string) (w : world) :
  between_options w ->
  names_known argv = true ->
  match Strict.get_config MAX_PORT h u1 argv w with
  | Return c1 w1 =>
      view w1 c1 = Some (resolve MAX_PORT h argv) /\
      (forall argv',
         argv' = permuted h argv \/ argv' = argv ->
         match Strict.get_config MAX_PORT h u2 argv' w1 with
         | Return c2 w2 => view w2 c2 = view w1 c1
         | _ => False
         end) /\
      (forall i f l,
         (1 <= f)%nat -> (1 <= l)%nat ->
         match Strict.get_config MAX_PORT h u1 argv
                 (with_nonopts f l (with_scanner i EmptyString w)) with
         | Return c3 w3 => view w3 c3 = view w1 c1
         | _ => False
         end)
  | Exit st _ =>
      forall i f l,
        (1 <= f)%nat -> (1 <= l)%nat ->
        match Strict.get_config MAX_PORT h u1 argv
                (with_nonopts f l (with_scanner i EmptyString w)) with
        | Exit st' _ => st' = st
        | _ => False
        end
  | Fault _ _ => False
  end.
Proof.
  intros B K.
  destruct (get_config_spec MAX_PORT h u1 argv w B K)
    as (c1 & x1 & _ & _ & R1 & _ & _ & B1 & F1).
  assert (forall i f l, (1 <= f)%nat -> (1 <= l)%nat ->
            between_options (with_nonopts f l (with_scanner i EmptyString w))) as Bi
    by (intros i f l Hf Hl; repeat split; assumption).
  rewrite F1.
  destruct (Strict.is_valid_directory h _) eqn:V.
  - split; [now apply (represents_view _ _ _ _ R1)|]. split.
    + intros argv' Ha.
      assert (names_known argv' = true /\
              resolve MAX_PORT h argv' = resolve MAX_PORT h argv) as (K' & Er).
      { destruct Ha as [->| ->]; [|now split].
        split; [|now apply resolve_permuted].
        apply (names_known_perm argv); [apply permuted_perm|exact K]. }
      destruct (get_config_spec MAX_PORT h u2 argv' x1 B1 K')
        as (c2 & x2 & _ & _ & R2 & _ & _ & _ & F2).
      rewrite F2, Er, V.
      rewrite (represents_view _ _ _ _ R1), (represents_view _ _ _ _ R2).
      now rewrite Er.
    + intros i f l Hf Hl.
      destruct (get_config_spec MAX_PORT h u1 argv _ (Bi i f l Hf Hl) K)
        as (c3 & x3 & _ & _ & R3 & _ & _ & _ & F3).
      rewrite F3, V.
      now rewrite (represents_view _ _ _ _ R1), (represents_view _ _ _ _ R3).
  - intros i f l Hf Hl.
    destruct (get_config_spec MAX_PORT h u1 argv _ (Bi i f l Hf Hl) K)
      as (c3 & x3 & _ & _ & R3 & _ & _ & _ & F3).
    now rewrite F3, V.
Qed.

Lemma resolution_repeats_witness :
  let argv := ["server"; "readme"; "--port=8080"; "--"; "--port=1"]%string in
  between_options Samples.start /\
  names_known argv = true /\
  permuted Samples.bare argv
  = ["server"; "--port=8080"; "--"; "readme"; "--port=1"]%string /\
  match Strict.get_config Samples.MAX_PORT Samples.bare Samples.blank argv
          Samples.start with
  | Return c1 w1 =>
      view w1 c1 = Some (resolve Samples.MAX_PORT Samples.bare argv) /\
      (forall argv',
         argv' = permuted Samples.bare argv \/ argv' = argv ->
         match Strict.get_config Samples.MAX_PORT Samples.bare Samples.owner argv' w1 with
         | Return c2 w2 => view w2 c2 = view w1 c1
         | _ => False
         end) /\
      (forall i f l,
         (1 <= f)%nat -> (1 <= l)%nat ->
         match Strict.get_config Samples.MAX_PORT Samples.bare Samples.blank argv
                 (with_nonopts f l (with_scanner i EmptyString Samples.start)) with
         | Return c3 w3 => view w3 c3 = view w1 c1
         | _ => False
         end)
  | Exit st _ =>
      forall i f l,
        (1 <= f)%nat -> (1 <= l)%nat ->
        match Strict.get_config Samples.MAX_PORT Samples.bare Samples.blank argv
                (with_nonopts f l (with_scanner i EmptyString Samples.start)) with
        | Exit st' _ => st' = st
        | _ => False
        end
  | Fault _ _ => False
  end.
Proof.
  cbv zeta. split; [exact start_between_options|]. split; [reflexivity|].
  split; [vm_compute; reflexivity|].
  exact (resolution_repeats Samples.MAX_PORT Samples.bare Samples.blank Samples.owner
           ["server"; "readme"; "--port=8080"; "--"; "--port=1"]%string
           Samples.start start_between_options eq_refl).
Defined.

(** ** Long options that the array does not name *)

(** The first call of the scanner on an array whose first argument is a long
    option that no entry names exactly. *)
Lemma step_unknown_long_option (ord : Getopt.ordering) (prog body : string)
    (rest : list string) (f l : nat) :
  body <> EmptyString ->
  Getopt.find_long long_options (fst (Getopt.split_eq body)) = None ->
  (1 <= f)%nat -> (1 <= l)%nat ->
  Getopt.step ord long_options (prog :: ("--" +:+ body) :: rest)
    {| Getopt.v_optind := 1; Getopt.v_nextchar := ""; Getopt.v_first := f;
       Getopt.v_last := l |}
  = inl OutOfBounds.
Proof.
  intros Hb Hf H1 H2.
  rewrite step_from_start by (try discriminate; assumption).
  destruct body as [|c body]; [congruence|].
  change ("--" +:+ String c body) with (String "-" (String "-" (String c body))).
  set (a := String "-" (String "-" (String c body))).
  unfold Getopt.step, Getopt.advance, Getopt.at_start.
  cbn [length Nat.ltb Nat.leb Nat.eqb Getopt.v_optind Getopt.v_nextchar Getopt.v_first
       Getopt.v_last Nat.min].
  assert (forall v,
            (if bool_decide ((prog :: a :: rest) !! 1%nat = Some "--"%string)
             then Getopt.end_of_options (prog :: a :: rest) v
             else (prog :: a :: rest, v))
            = (prog :: a :: rest, v)) as Eb
    by (intros v; now rewrite bool_decide_eq_false_2 by discriminate).
  destruct ord.
  - rewrite Eb. unfold a. cbn -[Getopt.process_long_option].
    unfold Getopt.process_long_option.
    destruct (Getopt.split_eq (String c body)) as [nm att]. cbn [fst] in Hf.
    now rewrite Hf.
  - unfold Getopt.pass_nonoptions. cbn -[Getopt.process_long_option bool_decide].
    rewrite bool_decide_eq_false_2 by (unfold a; discriminate).
    unfold a. cbn -[Getopt.process_long_option].
    unfold Getopt.process_long_option.
    destruct (Getopt.split_eq (String c body)) as [nm att]. cbn [fst] in Hf.
    now rewrite Hf.
Qed.

(** X13 — A long option that the array does not name. The array
    [long_options] of both files has five entries and no entry of zeros
    after them, so that the scanner, looking for a name that none of the
    five has, reads on behind the array. With such an option as the first
    argument, a misspelt or abbreviated name as much as an unknown one, the
    command-line loader of [src/http_protocol/config.c] does so before it
    has changed the record or written a line, and so does [get_config]; the
    loader of [src/unnamed/part_000] does when the scanner is at the first
    argument. *)
Theorem unknown_long_option_overruns (MAX_PORT : Z) (h : host)
    (uninit cfg : Strict.config) (cfg' : Simplified.config)
    (prog body : string) (rest : list string) (w : world) :
  body <> EmptyString ->
  Getopt.find_long long_options (fst (Getopt.split_eq body)) = None ->
  between_options w ->
  names_known (prog :: ("--" +:+ body) :: rest) = false /\
  Strict.set_cmd_line_config MAX_PORT h cfg (prog :: ("--" +:+ body) :: rest) w
  = Fault OutOfBounds (with_scanner 1 EmptyString w) /\
  (exists w',
     Strict.get_config MAX_PORT h uninit (prog :: ("--" +:+ body) :: rest) w
     = Fault OutOfBounds w' /\ out w' = out w ++ file_diagnostic h) /\
  (optind w = 1%nat ->
   Simplified.set_cmd_line_config h cfg' (prog :: ("--" +:+ body) :: rest) w
   = Fault OutOfBounds w).
Proof.
  intros Hb Hf (Hn & H1 & H2).
  assert (forall w0 : world,
            nextchar w0 = EmptyString ->
            first_nonopt w0 = first_nonopt w -> last_nonopt w0 = last_nonopt w ->
            forall cfg0,
              Strict.set_cmd_line_config MAX_PORT h cfg0
                (prog :: ("--" +:+ body) :: rest) w0
              = Fault OutOfBounds (with_scanner 1 EmptyString w0)) as Hs.
  { intros w0 Hn0 Hf0 Hl0 cfg0.
    unfold Strict.set_cmd_line_config. unfold mbind at 1, M_bind at 1, set_optind.
    rewrite Hn0.
    unfold Getopt.bound. cbn [Strict.option_loop].
    unfold mbind at 1, M_bind at 1, Getopt.getopt_long, Getopt.vars_of.
    cbn [optind nextchar first_nonopt last_nonopt with_scanner].
    rewrite Hf0, Hl0.
    now rewrite (step_unknown_long_option _ _ _ _ _ _ Hb Hf H1 H2). }
  split; [|split; [|split]].
  - unfold names_known. cbn [forallb].
    destruct body as [|c body]; [congruence|].
    assert (Getopt.named long_options ("--" +:+ String c body) = false) as ->.
    { cbn. apply bool_decide_eq_false_2. rewrite Hf. now intros [x Hx]. }
    now rewrite andb_false_r.
  - now apply Hs.
  - unfold Strict.get_config.
    set (p := fresh (dom (heap w))).
    set (w0 := with_heap (<[p := structure]> (heap w)) w).
    assert (malloc Strict.sizeof_config w = Return (Block p) w0) as E by reflexivity.
    rewrite (bind_return _ _ _ _ _ E). cbv zeta.
    destruct (set_default_config_spec (Strict.at_address (Block p) uninit) w0)
      as (cfg0 & H0 & E0 & R0).
    destruct (set_file_config_spec MAX_PORT h _ _ _ _ R0) as (cfg1 & H1' & E1 & R1).
    destruct (set_env_config_spec MAX_PORT h _ _ _ _ R1) as (cfg2 & H2' & E2 & R2).
    rewrite (bind_return _ _ _ _ _ E0), (bind_return _ _ _ _ _ E1),
      (bind_return _ _ _ _ _ E2).
    eexists. split.
    + apply bind_fault. now apply Hs.
    + reflexivity.
  - intros Ho. unfold Simplified.set_cmd_line_config.
    unfold Getopt.bound. cbn [Simplified.option_loop].
    unfold mbind at 1, M_bind at 1, Getopt.getopt_long, Getopt.vars_of.
    rewrite Ho, Hn.
    now rewrite (step_unknown_long_option _ _ _ _ _ _ Hb Hf H1 H2).
Qed.

Lemma unknown_long_option_overruns_witness :
  "verbose"%string <> EmptyString /\
  Getopt.find_long long_options (fst (Getopt.split_eq "verbose")) = None /\
  between_options Samples.start /\
  Strict.set_cmd_line_config Samples.MAX_PORT Samples.bare Samples.owner
    ["server"; "--verbose"]%string Samples.start
  = Fault OutOfBounds (with_scanner 1 EmptyString Samples.start) /\
  (exists w',
     Strict.get_config Samples.MAX_PORT Samples.bare Samples.blank
       ["server"; "--verbose"]%string Samples.start
     = Fault OutOfBounds w' /\
     out w' = out Samples.start ++ file_diagnostic Samples.bare).
Proof.
  split; [discriminate|]. split; [reflexivity|]. split; [exact start_between_options|].
  pose proof (unknown_long_option_overruns Samples.MAX_PORT Samples.bare Samples.blank
                Samples.owner Samples.blank_simplified "server" "verbose" []
                Samples.start ltac:(discriminate) eq_refl start_between_options)
    as (_ & H1 & H2 & _).
  split; [exact H1|exact H2].
Defined.

Example abbreviated_long_option :
  match Strict.get_config Samples.MAX_PORT Samples.bare Samples.blank
          ["server"; "--po=8080"]%string Samples.start with
  | Fault f _ => f = OutOfBounds
  | _ => False
  end.
Proof. vm_compute. reflexivity. Qed.

(** ** The command line, element by element *)

(** X14 — The command line, element by element. On an argument vector whose
    long options the table names, the options that the scan hands to the
    loop of [set_cmd_line_config] are those of the elements after the program
    name, in their order: an element [--name] or [--name=value] gives the
    letter of its entry, with the value if there is one, each character of a
    cluster of short options gives [?], other elements give nothing, and the
    elements after [--], or under [POSIXLY_CORRECT] from the first non-option
    on, are not looked at. The scan leaves the array reordered, with the
    same options. From a state in which the scanner is between elements,
    the loader returns the record with the candidates of these options
    applied one after the other. *)
Theorem command_line_by_elements (MAX_PORT : Z) (h : host) (argv : list string) :
  names_known argv = true ->
  options_of h argv = listed (ordering_of h) (drop 1 argv) /\
  permuted h argv ≡ₚ argv /\
  options_of h (permuted h argv) = options_of h argv /\
  (forall w cfg v F,
     represents w cfg v F -> between_options w ->
     exists cfg' w',
       Strict.set_cmd_line_config MAX_PORT h cfg argv w = Return cfg' w' /\
       represents w' cfg'
         (fold_left (fun v e => apply (option_candidates MAX_PORT h e) v)
            (listed (ordering_of h) (drop 1 argv)) v) F).
Proof.
  intros K. split; [now apply options_of_listed|].
  split; [apply permuted_perm|]. split; [now apply options_of_permuted|].
  intros w cfg v F R B.
  destruct (set_cmd_line_config_spec MAX_PORT h argv _ _ _ _ R B K)
    as (cfg' & w' & E & R' & _).
  exists cfg', w'. split; [exact E|].
  rewrite <- (options_of_listed h argv K).
  rewrite <- (apply_nothing v) at 1. rewrite fold_apply_merge. exact R'.
Qed.

Lemma command_line_by_elements_witness :
  let argv := ["server"; "a"; "--port=81"; "-xy"; "--mode"; "p"; "--"; "--port=1"]%string in
  names_known argv = true /\
  options_of Samples.bare argv
  = [("p"%char, Some "81"%string); ("?"%char, None); ("?"%char, None); ("m"%char, None)] /\
  options_of Samples.bare argv = listed (ordering_of Samples.bare) (drop 1 argv) /\
  permuted Samples.bare argv ≡ₚ argv /\
  options_of Samples.bare (permuted Samples.bare argv) = options_of Samples.bare argv.
Proof.
  cbv zeta. split; [reflexivity|]. split; [vm_compute; reflexivity|].
  pose proof (command_line_by_elements Samples.MAX_PORT Samples.bare
                ["server"; "a"; "--port=81"; "-xy"; "--mode"; "p"; "--"; "--port=1"]%string
                eq_refl) as (H1 & H2 & H3 & _).
  split; [exact H1|]. split; [exact H2|exact H3].
Defined.
